(** * multus: the walk-and-reconcile engine [backup]

    A shallow embedding of [backup] and [removeOld] (package main of
    companyzero/multus) together with the objects they drive: the
    signature cache, the snapshot writer and the backup directory.

    The engine is sequential; it is embedded as explicit state passing
    over a [State] that holds the backup directory, the trace of the
    operations performed on it, the debug log and the in-memory objects
    of one run.  Everything the operating system decides (the result of
    a system call, the clock, the entries [filepath.Walk] reports) is an
    input: a field of [Env] or of a [WalkEntry]. *)

From stdpp Require Import base strings gmap list sorting pretty.
From Stdlib Require Import ZArith Lia Strings.Byte.

(** ** Bytes *)

Abbreviation bytes := (list byte).

#[global] Instance byte_eq_decision : EqDecision byte := Byte.byte_eq_dec.

(** [bytes.Equal] *)
Definition Equal (a b : bytes) : bool := bool_decide (a = b).

(** [[]byte(s)] *)
Definition bytesOf (s : string) : bytes := String.list_byte_of_string s.

(** [const memoryLimit = 1024 * 1024 * 10] *)
Definition memoryLimit : Z := 1024 * 1024 * 10.

(** [strings.HasPrefix(s, prefix)] *)
Definition HasPrefix (s pre : string) : bool := String.prefix pre s.

(** [strings.HasSuffix(s, suffix)]:
    [len(s) >= len(suffix) && s[len(s)-len(suffix):] == suffix] *)
Definition HasSuffix (s suf : string) : bool :=
  (String.length suf <=? String.length s)%nat
  && String.eqb
       (String.substring (String.length s - String.length suf)
          (String.length suf) s) suf.

(** ** Metadata and snapshot records *)

(** Modelled from the spec: the fields of [FileAttributes], declared
    outside the source at hand, which reads [Mode] only: mode, owner uid,
    owner gid, modification time and size. *)
Record FileAttributes := mkAttribs {
  Mode : Z;   (* u32 *)
  Uid : Z;    (* u32 *)
  Gid : Z;    (* u32 *)
  Mtime : Z;  (* i64 *)
  Size : Z    (* u64 *)
}.

(** [Metadata], as the source builds it: [Metadata{Path: _, Attribs: _}]. *)
Record Metadata := mkMetadata {
  Path : string;
  Attribs : FileAttributes
}.

(** [FileAttributes{}] *)
Definition zeroAttribs : FileAttributes := mkAttribs 0 0 0 0 0.

(** Modelled from the spec: the record kinds of the snapshot format,
    0 metadata only, 1 full content, 2 delta, 3 tombstone. *)
Inductive Kind := KMeta | KFull | KDelta | KTombstone.

Definition kindCode (k : Kind) : Z :=
  match k with KMeta => 0 | KFull => 1 | KDelta => 2 | KTombstone => 3 end.

#[global] Instance Kind_eq_dec : EqDecision Kind.
Proof. solve_decision. Defined.

(** Where the payload handed to [snap.Add] is read from. *)
Inductive Reader :=
| RNil                      (* a nil reader *)
| RBuffer                   (* a [bytes.Reader] over memory *)
| RSource                   (* [srcFD], the open source file *)
| RTemp (name : string).    (* [tmpFile], by its name in the backup directory *)

(** Modelled from the spec: a record of the snapshot, as the absent
    writer lays it out: metadata, kind, payload length, payload.  The
    reader it came from is kept for the statements. *)
Record SnapRecord := mkRecord {
  rec_md : Metadata;
  rec_kind : Kind;
  rec_from : Reader;
  rec_len : Z;
  rec_payload : bytes
}.

(** Modelled from the spec: the header of a snapshot file. *)
Record SnapHeader := mkSnapHeader {
  sh_hostname : string;
  sh_timeStamp : Z;
  sh_instance : Z;
  sh_version : Z
}.

(** ** The signature cache *)

(** Modelled from the spec: [SignatureCache], declared outside the source
    at hand: the generation header, of which the source reads [hostname],
    [timeStamp], [instance] and [version], and the [(path, signature)]
    records. *)
Record SignatureCache := mkSC {
  hostname : string;
  timeStamp : Z;
  instance : Z;   (* u16 *)
  version : Z;    (* u16 *)
  entries : list (string * bytes)
}.

(** [const FormatVersion = uint16(1)] *)
Definition FormatVersion : Z := 1.

(** Modelled from the spec: the type of [SignatureCache.Instance()] and
    of [cfg.Backup.MaxIntervals], declared outside the source at hand;
    the increment index is a u16, so [Instance()+1] wraps at 2^16. *)
Definition wrap16 (z : Z) : Z := z mod 65536.

(** [int32] arithmetic of [filesExcluded++]. *)
Definition wrap32 (z : Z) : Z := (z + 2147483648) mod 4294967296 - 2147483648.

Definition index (c : SignatureCache) : gmap string bytes :=
  list_to_map (entries c).

(** Modelled from the spec: [SignatureCache.Get], absent from the
    source; it appends the stored signature of [path] to the buffer, or
    leaves the buffer empty if there is no entry, also for a nil cache. *)
Definition Get (c : option SignatureCache) (p : string) : bytes :=
  match c with
  | None => []
  | Some c => default [] (index c !! p)
  end.

(** Modelled from the spec: [SignatureCache.Paths], absent from the
    source; the set of paths of the loaded cache, empty for a nil cache. *)
Definition Paths (c : option SignatureCache) : gset string :=
  match c with
  | None => ∅
  | Some c => dom (index c)
  end.

(** ** The backup directory *)

Inductive File :=
| FCache (c : SignatureCache)
| FSnapshot (h : SnapHeader) (rs : list SnapRecord)
| FBlob (b : bytes).

(** The entries of [backup_path] by file name: [filepath.Join(destDir, n)]
    is the entry [n]. *)
Abbreviation Dir := (gmap string File).

Definition sigCache : string := "sig.cache".
Definition inprogress : string := "sig.cache.inprogress".

(** Operations on the backup directory, in the order they are issued. *)
Inductive Event :=
| EvMkdirAll
| EvChownDir
| EvWrite (name : string) (f : File)  (* [name] now holds [f] *)
| EvClose (name : string) (ok : bool)
| EvRemove (name : string) (ok : bool)
| EvRename (src dst : string)
| EvChown (name : string) (ok : bool).

Definition apply_event (d : Dir) (ev : Event) : Dir :=
  match ev with
  | EvWrite n f => <[n := f]> d
  | EvRemove n true => delete n d
  | EvRename a b =>
      match d !! a with
      | Some f => <[b := f]> (delete a d)
      | None => d
      end
  | _ => d
  end.

Definition replay (evs : list Event) (d : Dir) : Dir :=
  fold_left apply_event evs d.

(** ** The debug and error log *)

Inductive LogMsg :=
| LStarting
| LLoadFailed
| LRunningLevel (inc ts : Z)
| LDeleting (name : string) (dry : bool)
| LDeleteFailed (name : string)
| LWalkErr
| LExcluding (p : string)
| LSkipSocket (p : string)
| LChanged (p : string)
| LNewFile (p : string)
| LNoChange (p : string)
| LOpenErr (p : string)
| LDeleted (p : string)
| LChownSigFailed
| LCompleted (excluded : Z).

(** ** State of a run *)

Record State := mkState {
  dir : Dir;
  trace : list Event;
  log : list LogMsg;
  snapRecs : list SnapRecord;          (* records accepted by [snap.Add] *)
  scRecs : list (string * bytes);      (* records accepted by [sc.Add] *)
  pathsToCheck : gset string;
  filesExcluded : Z
}.

Definition emit (ev : Event) (s : State) : State :=
  mkState (apply_event (dir s) ev) (trace s ++ [ev]) (log s) (snapRecs s)
    (scRecs s) (pathsToCheck s) (filesExcluded s).

Definition logf (m : LogMsg) (s : State) : State :=
  mkState (dir s) (trace s) (log s ++ [m]) (snapRecs s) (scRecs s)
    (pathsToCheck s) (filesExcluded s).

Definition pushSnap (r : SnapRecord) (s : State) : State :=
  mkState (dir s) (trace s) (log s) (snapRecs s ++ [r]) (scRecs s)
    (pathsToCheck s) (filesExcluded s).

Definition pushSc (p : string) (sig : bytes) (s : State) : State :=
  mkState (dir s) (trace s) (log s) (snapRecs s) (scRecs s ++ [(p, sig)])
    (pathsToCheck s) (filesExcluded s).

Definition setPaths (ps : gset string) (s : State) : State :=
  mkState (dir s) (trace s) (log s) (snapRecs s) (scRecs s) ps
    (filesExcluded s).

Definition countExcluded (s : State) : State :=
  mkState (dir s) (trace s) (log s) (snapRecs s) (scRecs s) (pathsToCheck s)
    (wrap32 (filesExcluded s + 1)).

(** ** Configuration, collaborators and environment *)

(** The fields of [config] that [backup] reads.  A compiled regular
    expression of [cfg.Backup.rExcludes] is kept as its source text. *)
Record Config := mkConfig {
  BackupPath : string;
  Backup_Group : string;
  Backup_MaxIntervals : Z;   (* u16 *)
  Backup_GZLevel : Z;
  Backup_Paths : list string;
  Backup_rExcludes : list string;
  DryRun : bool
}.

(** Pure collaborators of [backup] that live outside the source at
    hand: library functions and helpers of the package. *)
Record Helpers := mkHelpers {
  (* [Regexp.MatchString] of package regexp *)
  MatchString : string -> string -> bool;
  (* [filepath.Clean] *)
  Clean : string -> string;
  (* [GenSignature(w, md, r, size)]: the bytes written to [w] *)
  GenSignature : Metadata -> option bytes -> Z -> bytes;
  (* [rsync.GenDelta(sig, src, size, out)]: the bytes written to [out] *)
  GenDelta : bytes -> bytes -> Z -> bytes;
  (* the codec's [apply_delta(prev, delta)] *)
  ApplyDelta : bytes -> bytes -> bytes;
  (* the file-type tests on [os.FileMode(MD.Attribs.Mode)] *)
  isSocket : Z -> bool;
  isCharDevice : Z -> bool;
  isDevice : Z -> bool;
  isNamedPipe : Z -> bool;
  isDir : Z -> bool;
  isSymlink : Z -> bool;
  (* the stem [<YYYYMMDDhhmm>-<hostname>-<increment>] of a snapshot name *)
  snapshotStem : string -> Z -> Z -> string
}.

(** One invocation of the walk callback: its arguments and what the
    calls made for this entry answer. *)
Record WalkEntry := mkEntry {
  w_err : bool;                        (* [err != nil] on entry *)
  w_ctxErr : bool;                     (* [ctx.Err() != nil] when tested *)
  w_abs : option string;               (* [filepath.Abs(srcRelPath)] *)
  w_size : Z;                          (* [info.Size()] *)
  w_metadata : option FileAttributes;  (* [NewMetadata(srcPath)] *)
  w_getOk : bool;                      (* [existingSC.Get] *)
  w_genSigOk : bool;                   (* [GenSignature] *)
  w_readlink : option string;          (* [os.Readlink] *)
  w_open : option bytes;               (* [os.Open]: the content of the file *)
  w_genDeltaOk : bool;                 (* [rsync.GenDelta] *)
  w_createTemp : option string;        (* [os.CreateTemp]: the random part *)
  w_seekOk : bool;                     (* [tmpFile.Seek] *)
  w_tmpStatOk : bool;                  (* [tmpFile.Stat] *)
  w_fdStat : option Z;                 (* [srcFD.Stat]: the size *)
  w_snapAddOk : bool;                  (* [snap.Add] *)
  w_scAddOk : bool                     (* [sc.Add], the write itself *)
}.

(** What the operating system answers outside the walk. *)
Record Env := mkEnv {
  env_abs : string -> option string;  (* [filepath.Abs] of the destination *)
  env_gid : option Z;             (* [lookupGroup] *)
  env_uid : Z;                    (* [os.Geteuid] *)
  env_mkdirAllOk : bool;
  env_chownDirOk : bool;
  env_loadOk : bool;              (* reading [sig.cache] meets no I/O error *)
  env_now : Z;                    (* [time.Now()] *)
  env_hostname : string;
  env_newSCOk : bool;             (* [NewSignatureCache] *)
  env_readDirOk : bool;           (* [ioutil.ReadDir] *)
  env_rmFails : string -> bool;   (* [os.Remove] of this name fails *)
  env_newSnapOk : bool;           (* [NewSnapshot] *)
  (* what a failing [NewSnapshot] has left under the name of the snapshot *)
  env_newSnapLeft : option bytes;
  env_tombAddOk : string -> bool; (* [snap.Add] of the tombstone of a path *)
  env_snapCloseOk : bool;
  env_scCloseOk : bool;
  env_existingCloseOk : bool;
  env_renameOk : bool;
  env_chownSigOk : bool;
  (* the invocations [filepath.Walk] makes for the i-th configured root *)
  env_walk : nat -> list WalkEntry
}.

(** The objects of a run once the generation is decided. *)
Record Run := mkRun {
  existingSC : option SignatureCache;
  sc : SignatureCache;        (* header of the new cache *)
  snapHdr : SnapHeader;
  snapName : string;
  destDirAbs : string
}.

(** Errors a walk callback returns. *)
Inductive CbError :=
| ErrCanceled | ErrAbs | ErrMetadata | ErrGet | ErrGenSignature
| ErrReadlink | ErrGenDelta | ErrCreateTemp | ErrSeek | ErrStat
| ErrSnapAdd | ErrScAdd.

(** ** Actions: state passing with an error that keeps the state *)

Definition Act := State -> State * option CbError.

Definition ret : Act := fun s => (s, None).
Definition fail (e : CbError) : Act := fun s => (s, Some e).
Definition lift (f : State -> State) : Act := fun s => (f s, None).

Definition seq (a k : Act) : Act :=
  fun s => match a s with
           | (s', None) => k s'
           | (s', Some e) => (s', Some e)
           end.

Declare Scope act_scope.
Delimit Scope act_scope with act.
Notation "a ;; k" := (seq a k)
  (at level 100, k at level 200, right associativity) : act_scope.
Local Open Scope act_scope.

(** [if err != nil { cleanup; return err }] *)
Definition attempt (a cleanup : Act) : Act :=
  fun s => match a s with
           | (s', None) => (s', None)
           | (s', Some e) => ((cleanup s').1, Some e)
           end.

Definition guard (ok : bool) (e : CbError) : Act :=
  if ok then ret else fail e.

(** [os.Remove(name)] with the error dropped. *)
Definition doRemove (rmFails : string -> bool) (n : string) : Act :=
  lift (emit (EvRemove n (negb (rmFails n)))).

(** ** The walk callback *)

Section Callback.
Context (H : Helpers) (cfg : Config) (env : Env) (run : Run).

Definition withEntries (c : SignatureCache) (l : list (string * bytes))
  : SignatureCache :=
  mkSC (hostname c) (timeStamp c) (instance c) (version c) l.

(** Modelled from the spec: [Snapshot.Add(md, reader, size)], absent from
    the source; it writes the record header and streams exactly [size]
    bytes of the reader into the snapshot file, which is append-only.  The
    reader is given by its content: the source reads a file once for the
    signature and once more for the payload, and where the reader is left
    between the two is decided in [GenSignature], also absent.  The call
    carries no record kind; each call site is tagged with the kind the
    format gives to its payload. *)
Definition snapAdd (ok : bool) (md : Metadata) (k : Kind) (from : Reader)
    (content : bytes) (size : Z) : Act :=
  guard ok ErrSnapAdd ;;
  lift (fun s =>
    let r := mkRecord md k from size (take (Z.to_nat size) content) in
    emit (EvWrite (snapName run) (FSnapshot (snapHdr run) (snapRecs s ++ [r])))
      (pushSnap r s)).

(** Modelled from the spec: [SignatureCache.Add(path, sig)], absent from
    the source; it appends the record to the file of the cache, and a
    second add of a path is an error. *)
Definition scAdd (ok : bool) (p : string) (sig : bytes) : Act :=
  fun s =>
    if bool_decide (p ∈ (scRecs s).*1) then (s, Some ErrScAdd)
    else if ok then
      (emit (EvWrite inprogress
               (FCache (withEntries (sc run) (scRecs s ++ [(p, sig)]))))
         (pushSc p sig s), None)
    else (s, Some ErrScAdd).

(** [delete(pathsToCheck, srcPath)] *)
Definition deletePath (p : string) (s : State) : State :=
  setPaths (pathsToCheck s ∖ {[p]}) s.

Definition len (b : bytes) : Z := Z.of_nat (length b).

(** [currentSig.Len() != 0] decides between "changed" and "new file". *)
Definition changedOrNew (currentSig : bytes) (p : string) : LogMsg :=
  if negb (len currentSig =? 0)%Z then LChanged p else LNewFile p.

(** [case isCharDevice, isDevice, isNamedPipe, isDir] *)
Definition visitNode (e : WalkEntry) (srcPath : string) (MD : Metadata)
    (currentSig : bytes) : Act :=
  guard (w_genSigOk e) ErrGenSignature ;;
  let thisSig := GenSignature H MD None 0 in
  (if negb (Equal currentSig thisSig) then
     lift (logf (changedOrNew currentSig srcPath)) ;;
     snapAdd (w_snapAddOk e) MD KMeta RNil [] 0 ;;
     scAdd (w_scAddOk e) srcPath thisSig
   else
     lift (logf (LNoChange srcPath)) ;;
     scAdd (w_scAddOk e) srcPath currentSig) ;;
  lift (deletePath srcPath).

(** [case isSymlink] *)
Definition visitSymlink (e : WalkEntry) (srcPath : string) (MD : Metadata)
    (currentSig : bytes) : Act :=
  match w_readlink e with
  | None => fail ErrReadlink
  | Some dest =>
      let data := bytesOf dest in
      guard (w_genSigOk e) ErrGenSignature ;;
      let thisSig := GenSignature H MD (Some data) (len data) in
      (if negb (Equal currentSig thisSig) then
         (if negb (len currentSig =? 0)%Z then
            let delta := GenDelta H currentSig data (len data) in
            lift (logf (LChanged srcPath)) ;;
            guard (w_genDeltaOk e) ErrGenDelta ;;
            snapAdd (w_snapAddOk e) MD KDelta RBuffer delta (len delta)
          else
            lift (logf (LNewFile srcPath)) ;;
            snapAdd (w_snapAddOk e) MD KFull RBuffer data (len data)) ;;
         scAdd (w_scAddOk e) srcPath thisSig
       else
         lift (logf (LNoChange srcPath)) ;;
         scAdd (w_scAddOk e) srcPath currentSig) ;;
      lift (deletePath srcPath)
  end.

(** [tmpFile.Close(); os.Remove(tmpFile.Name())] *)
Definition dropTemp (tmp : string) : Act :=
  lift (emit (EvClose tmp true)) ;; doRemove (env_rmFails env) tmp.

(** [os.CreateTemp(cfg.BackupPath, "delta")]: the file is opened with
    [O_EXCL], so a name already in the directory is never handed out. *)
Definition createTemp (tmp : string) : Act :=
  fun s =>
    match dir s !! tmp with
    | Some _ => (s, Some ErrCreateTemp)
    | None => (emit (EvWrite tmp (FBlob [])) s, None)
    end.

(** The branch [info.Size() > memoryLimit*10] of a changed regular file:
    the delta goes through a temporary file of the backup directory. *)
Definition stageDelta (e : WalkEntry) (MD : Metadata) (delta : bytes) : Act :=
  match w_createTemp e with
  | None => fail ErrCreateTemp
  | Some rnd =>
      let tmp := "delta" +:+ rnd in
      createTemp tmp ;;
      if negb (w_genDeltaOk e) then dropTemp tmp ;; fail ErrGenDelta else
      lift (emit (EvWrite tmp (FBlob delta))) ;;
      if negb (w_seekOk e) then dropTemp tmp ;; fail ErrSeek else
      if negb (w_tmpStatOk e) then dropTemp tmp ;; fail ErrStat else
      attempt (snapAdd (w_snapAddOk e) MD KDelta (RTemp tmp) delta (len delta))
        (dropTemp tmp) ;;
      dropTemp tmp
  end.

(** [default:] a regular file, or a mode none of the tests recognises.
    Opening and closing [srcFD] leaves the state of the model as it is. *)
Definition visitRegular (e : WalkEntry) (srcPath : string) (MD : Metadata)
    (currentSig : bytes) : Act :=
  match w_open e with
  | None => lift (logf (LOpenErr srcPath))
  | Some content =>
      guard (w_genSigOk e) ErrGenSignature ;;
      let thisSig := GenSignature H MD (Some content) (w_size e) in
      (if negb (Equal currentSig thisSig) then
         (if negb (len currentSig =? 0)%Z then
            let delta := GenDelta H currentSig content (w_size e) in
            lift (logf (LChanged srcPath)) ;;
            if (w_size e >? memoryLimit * 10)%Z then
              stageDelta e MD delta
            else
              guard (w_genDeltaOk e) ErrGenDelta ;;
              snapAdd (w_snapAddOk e) MD KDelta RBuffer delta (len delta)
          else
            lift (logf (LNewFile srcPath)) ;;
            match w_fdStat e with
            | None => fail ErrStat
            | Some size => snapAdd (w_snapAddOk e) MD KFull RSource content size
            end) ;;
         scAdd (w_scAddOk e) srcPath thisSig
       else
         lift (logf (LNoChange srcPath)) ;;
         scAdd (w_scAddOk e) srcPath currentSig) ;;
      lift (deletePath srcPath)
  end.

(** [for _, exclude := range cfg.Backup.rExcludes] *)
Definition isExcluded (srcPath : string) : bool :=
  existsb (fun exclude => MatchString H exclude srcPath) (Backup_rExcludes cfg).

(** Modelled from the spec: [NewMetadata(srcPath)], absent from the
    source; on success it yields the record of [srcPath] with the
    attributes read from the file system. *)
Definition NewMetadata (srcPath : string) (attribs : FileAttributes)
  : Metadata :=
  mkMetadata srcPath attribs.

(** The function handed to [filepath.Walk].  The three reusable buffers
    are reset before each use, so they are values local to one call. *)
Definition callback (e : WalkEntry) : Act :=
  if w_err e then lift (logf LWalkErr) else
  if w_ctxErr e then fail ErrCanceled else
  match w_abs e with
  | None => fail ErrAbs
  | Some srcPath =>
      if HasPrefix srcPath (destDirAbs run) then ret else
      if isExcluded srcPath then
        lift (fun s => logf (LExcluding srcPath) (countExcluded s))
      else
        match w_metadata e with
        | None => fail ErrMetadata
        | Some attribs =>
            let MD := NewMetadata srcPath attribs in
            guard (w_getOk e) ErrGet ;;
            let currentSig := Get (existingSC run) srcPath in
            let fileMode := Mode attribs in
            if isSocket H fileMode then lift (logf (LSkipSocket srcPath))
            else if isCharDevice H fileMode || isDevice H fileMode
                    || isNamedPipe H fileMode || isDir H fileMode
            then visitNode e srcPath MD currentSig
            else if isSymlink H fileMode
            then visitSymlink e srcPath MD currentSig
            else visitRegular e srcPath MD currentSig
        end
  end.

(** [filepath.Walk(sourceDir, callback)]: the callback never asks to skip
    a directory, so the walk is the list of its invocations, cut short by
    the first error. *)
Fixpoint walk (es : list WalkEntry) : Act :=
  match es with
  | [] => ret
  | e :: es => callback e ;; walk es
  end.

(** [for deletedFilePath := range pathsToCheck] *)
Fixpoint tombstones (ps : list string) : Act :=
  match ps with
  | [] => ret
  | p :: ps =>
      lift (logf (LDeleted p)) ;;
      snapAdd (env_tombAddOk env p) (mkMetadata p zeroAttribs) KTombstone
        RNil [] 0 ;;
      tombstones ps
  end.

End Callback.

(** ** [removeOld] and [backup] *)

Inductive Error :=
| EAbs | EGroup | EMkdirAll | EChownDir | ENewSignatureCache | ENewSnapshot
| EWalk (sourceDir : string) (e : CbError)
| ETombstone | ESnapClose | EScClose | EExistingClose | ERename.

Inductive Outcome := Done | Failed (e : Error) | Panicked.

Section Backup.
Context (H : Helpers) (cfg : Config) (env : Env).

(** [ioutil.ReadDir]: the names of the directory, sorted. *)
Definition ReadDir (d : Dir) : list string :=
  merge_sort (fun a b => Is_true (String.leb a b)) (elements (dom d)).

(** The body of the loop of [removeOld]. *)
Definition removeOne (s : State) (name : string) : State :=
  if negb (HasSuffix name ".gz.enc") then s
  else if DryRun cfg then logf (LDeleting name true) s
  else
    let s1 := logf (LDeleting name false) s in
    if env_rmFails env name
    then logf (LDeleteFailed name) (emit (EvRemove name false) s1)
    else emit (EvRemove name true) s1.

(** [removeOld(destDir, dryRun)]; [None] is the panic on a failed
    [ReadDir]. *)
Definition removeOld (s : State) : option State :=
  if env_readDirOk env then Some (fold_left removeOne (ReadDir (dir s)) s)
  else None.

(** Modelled from the spec: [LoadSignatureCache], absent from the source;
    a missing file is a distinct outcome, anything else that is not a
    readable cache is an error.  The flag tells [os.IsNotExist(err)]. *)
Definition LoadSignatureCache (d : Dir) : option SignatureCache * option bool :=
  match d !! sigCache with
  | None => (None, Some true)
  | Some (FCache c) =>
      if env_loadOk env then (Some c, None) else (None, Some false)
  | Some _ => (None, Some false)
  end.

(** [for _, sourceDir := range cfg.Backup.Paths] *)
Fixpoint walkRoots (run : Run) (i : nat) (roots : list string) (s : State)
  : State * option (string * CbError) :=
  match roots with
  | [] => (s, None)
  | sourceDir :: roots =>
      match walk H cfg env run (env_walk env i) s with
      | (s', None) => walkRoots run (S i) roots s'
      | (s', Some e) => (s', Some (sourceDir, e))
      end
  end.

(** [snap.Close(); os.Remove(snap.Name())] on the way out of a failed run. *)
Definition dropSnapshot (run : Run) (s : State) : State :=
  emit (EvRemove (snapName run) (negb (env_rmFails env (snapName run))))
    (emit (EvClose (snapName run) (env_snapCloseOk env)) s).

(** Lines 379-400: close the snapshot and both caches, then commit. *)
Definition finish (run : Run) (s : State) : State * Outcome :=
  if negb (env_snapCloseOk env) then
    (emit (EvRemove (snapName run) (negb (env_rmFails env (snapName run))))
       (emit (EvClose (snapName run) false) s), Failed ESnapClose)
  else
    let s := emit (EvClose (snapName run) true) s in
    if negb (env_scCloseOk env) then
      (emit (EvClose inprogress false) s, Failed EScClose)
    else
      let s := emit (EvClose inprogress true) s in
      if bool_decide (existingSC run <> None) && negb (env_existingCloseOk env)
      then (s, Failed EExistingClose)
      else if negb (env_renameOk env) then (s, Failed ERename)
      else
        let s := emit (EvRename inprogress sigCache) s in
        let s := emit (EvChown sigCache (env_chownSigOk env)) s in
        let s := if env_chownSigOk env then s else logf LChownSigFailed s in
        (logf (LCompleted (filesExcluded s)) s, Done).

(** Lines 120-400: the walk, the tombstones and the commit. *)
Definition body (run : Run) (s : State) : State * Outcome :=
  match walkRoots run 0 (Backup_Paths cfg) s with
  | (s, Some (sourceDir, e)) => (dropSnapshot run s, Failed (EWalk sourceDir e))
  | (s, None) =>
      match tombstones env run (elements (pathsToCheck s)) s with
      | (s, Some _) => (dropSnapshot run s, Failed ETombstone)
      | (s, None) => finish run s
      end
  end.

(** Lines 96-102: a fresh generation, or the next increment of the
    current one. *)
Definition isFresh (existing : option SignatureCache) : bool :=
  match existing with
  | None => true
  | Some c => (wrap16 (instance c + 1) >? Backup_MaxIntervals cfg)%Z
  end.

(** Modelled from the spec: [NewSignatureCache(path, timeStamp, instance)],
    absent from the source; an empty cache of the current format for this
    host, whose file is created by the caller's next step in the model. *)
Definition NewSignatureCache (timeStamp instance : Z) : SignatureCache :=
  mkSC (env_hostname env) timeStamp instance FormatVersion [].

Definition newCache (existing : option SignatureCache) : SignatureCache :=
  match existing with
  | Some c =>
      if isFresh existing
      then NewSignatureCache (env_now env) 0
      else NewSignatureCache (timeStamp c) (wrap16 (instance c + 1))
  | None => NewSignatureCache (env_now env) 0
  end.

Definition initState (d : Dir) : State := mkState d [] [] [] [] ∅ 0.

(** Modelled from the spec: the name [NewSnapshot], absent from the
    source, gives to the file of the snapshot:
    [<YYYYMMDDhhmm>-<hostname>-<increment>.gz.enc]. *)
Definition snapshotName (c : SignatureCache) : string :=
  snapshotStem H (hostname c) (timeStamp c) (instance c) +:+ ".gz.enc".

(** The objects of the run, from the cache that was loaded. *)
Definition mkRunOf (loaded : option SignatureCache) (destDirAbs : string)
  : Run :=
  let c := newCache loaded in
  mkRun (if isFresh loaded then None else loaded) c
    (mkSnapHeader (hostname c) (timeStamp c) (instance c) (version c))
    (snapshotName c) destDirAbs.

(** Modelled from the spec: a failing [NewSnapshot], absent from the
    source.  The writer opens the file before it wraps it and writes the
    header, and never cleans up on its own: a call that fails after the
    open leaves the file behind with what was written so far, and one
    that fails at the open leaves nothing. *)
Definition NewSnapshotFailed (run : Run) (s : State) : State :=
  match env_newSnapLeft env with
  | Some b => emit (EvWrite (snapName run) (FBlob b)) s
  | None => s
  end.

(** Lines 107-118: seed the deletion set, discard the old snapshots of a
    fresh generation, open the snapshot.  When [NewSnapshot] fails the
    error is returned and nothing is removed. *)
Definition openRun (run : Run) (s : State) : State * option Outcome :=
  let s := setPaths (Paths (existingSC run)) s in
  match (if (instance (sc run) =? 0)%Z then removeOld s else Some s) with
  | None => (s, Some Panicked)
  | Some s =>
      let s := logf (LRunningLevel (instance (sc run)) (timeStamp (sc run))) s in
      if negb (env_newSnapOk env)
      then (NewSnapshotFailed run s, Some (Failed ENewSnapshot))
      else (emit (EvWrite (snapName run) (FSnapshot (snapHdr run) [])) s, None)
  end.

(** Lines 67-118: everything up to the open snapshot.  The result is the
    outcome of a run that ends here, or the objects of the run. *)
Definition setup (d : Dir) : State * (Outcome + Run) :=
  let s := logf LStarting (initState d) in
  let destDir := Clean H (BackupPath cfg) in
  match env_abs env destDir with
  | None => (s, inl (Failed EAbs))
  | Some destDirAbs =>
      match env_gid env with
      | None => (s, inl (Failed EGroup))
      | Some gid =>
          if negb (env_mkdirAllOk env) then (s, inl (Failed EMkdirAll)) else
          let s := emit EvMkdirAll s in
          if negb (env_chownDirOk env) then (s, inl (Failed EChownDir)) else
          let s := emit EvChownDir s in
          let '(loaded, err) := LoadSignatureCache (dir s) in
          let s := if bool_decide (err = Some false)
                   then logf LLoadFailed s else s in
          let run := mkRunOf loaded destDirAbs in
          if negb (env_newSCOk env)
          then (s, inl (Failed ENewSignatureCache)) else
          let s := emit (EvWrite inprogress (FCache (sc run))) s in
          match openRun run s with
          | (s, Some o) => (s, inl o)
          | (s, None) => (s, inr run)
          end
      end
  end.

(** [func backup(ctx, pubKey, cfg) error] on the directory [d]. *)
Definition backup (d : Dir) : State * Outcome :=
  match setup d with
  | (s, inl o) => (s, o)
  | (s, inr run) => body run s
  end.

End Backup.

(** ** A concrete instance of the collaborators

    Used to run the engine on examples: expressions without
    metacharacters (they match a path that contains them), clean paths,
    the file-mode bits of package [os], and a codec whose signature keeps
    the content and whose delta is one literal run. *)
Module Demo.

Fixpoint contains (re s : string) : bool :=
  String.prefix re s ||
  match s with
  | EmptyString => false
  | String _ s' => contains re s'
  end.

(** The first [n] bytes of [l]. *)
Fixpoint takeZ (n : Z) (l : bytes) : bytes :=
  match l with
  | [] => []
  | x :: l' => if (n <=? 0)%Z then [] else x :: takeZ (n - 1) l'
  end.

Definition byteOfZ (z : Z) : byte :=
  default Byte.x00 (Byte.of_N (Z.to_N (z mod 256)%Z)).

Definition signature (md : Metadata) (r : option bytes) (size : Z) : bytes :=
  Byte.x01
    :: map byteOfZ [Mode (Attribs md); Uid (Attribs md); Gid (Attribs md);
                    Mtime (Attribs md); Size (Attribs md)]
    ++ match r with
       | None => []
       | Some b => takeZ size b
       end.

Definition helpers : Helpers := {|
  MatchString := contains;
  Clean := fun p => p;
  GenSignature := signature;
  GenDelta := fun _ src size => takeZ size src;
  ApplyDelta := fun _ delta => delta;
  isSocket := fun m => Z.testbit m 24;
  isCharDevice := fun m => Z.testbit m 21;
  isDevice := fun m => Z.testbit m 26;
  isNamedPipe := fun m => Z.testbit m 25;
  isDir := fun m => Z.testbit m 31;
  isSymlink := fun m => Z.testbit m 27;
  snapshotStem := fun host ts inc => pretty ts +:+ "-" +:+ host +:+ "-" +:+ pretty inc
|}.

(** An environment in which every call succeeds. *)
Definition env (walks : nat -> list WalkEntry) : Env := {|
  env_abs := Some;
  env_gid := Some 100%Z;
  env_uid := 0%Z;
  env_mkdirAllOk := true;
  env_chownDirOk := true;
  env_loadOk := true;
  env_now := 1700000000%Z;
  env_hostname := "host";
  env_newSCOk := true;
  env_readDirOk := true;
  env_rmFails := fun _ => false;
  env_newSnapOk := true;
  env_newSnapLeft := None;
  env_tombAddOk := fun _ => true;
  env_snapCloseOk := true;
  env_scCloseOk := true;
  env_existingCloseOk := true;
  env_renameOk := true;
  env_chownSigOk := true;
  env_walk := walks
|}.

Definition cfg (excludes : list string) (dry : bool) : Config := {|
  BackupPath := "/backup";
  Backup_Group := "backup";
  Backup_MaxIntervals := 7%Z;
  Backup_GZLevel := 6%Z;
  Backup_Paths := ["/src"];
  Backup_rExcludes := excludes;
  DryRun := dry
|}.

Definition modeDir : Z := (Z.shiftl 1 31 + 493)%Z.
Definition modeFile : Z := 420%Z.
Definition modeSymlink : Z := (Z.shiftl 1 27 + 511)%Z.

(** An entry for which every call succeeds. *)
Definition entry (p : string) (mode : Z) (content : bytes) : WalkEntry := {|
  w_err := false;
  w_ctxErr := false;
  w_abs := Some p;
  w_size := len content;
  w_metadata := Some (mkAttribs mode 0 0 1700000000 (len content))%Z;
  w_getOk := true;
  w_genSigOk := true;
  w_readlink := Some "target";
  w_open := Some content;
  w_genDeltaOk := true;
  w_createTemp := Some "123";
  w_seekOk := true;
  w_tmpStatOk := true;
  w_fdStat := Some (len content);
  w_snapAddOk := true;
  w_scAddOk := true
|}.

Definition oneRoot (es : list WalkEntry) (i : nat) : list WalkEntry :=
  match i with O => es | _ => [] end.

(** *** A first run and an incremental run

    The first run finds an empty backup directory and a tree of one
    directory, three files and a symlink.  Before the second run
    [a.txt] grows by one byte, the symlink is retargeted, [b.txt] stays
    as it is, and [/tmp/] is configured as an exclude. *)

Definition symlinkEntry (p : string) (target : option string) : WalkEntry := {|
  w_err := false;
  w_ctxErr := false;
  w_abs := Some p;
  w_size := 6%Z;
  w_metadata := Some (mkAttribs modeSymlink 0 0 1700000000 6)%Z;
  w_getOk := true;
  w_genSigOk := true;
  w_readlink := target;
  w_open := None;
  w_genDeltaOk := true;
  w_createTemp := None;
  w_seekOk := true;
  w_tmpStatOk := true;
  w_fdStat := None;
  w_snapAddOk := true;
  w_scAddOk := true
|}.

Definition walk1 : list WalkEntry :=
  [ entry "/src" modeDir [];
    entry "/src/a.txt" modeFile (bytesOf "hello");
    entry "/src/b.txt" modeFile (bytesOf "world");
    symlinkEntry "/src/link" (Some "a.txt");
    entry "/src/tmp/secret" modeFile (bytesOf "s3cret") ].

Definition cfg1 : Config := cfg [] false.
Definition env1 : Env := env (oneRoot walk1).
Definition first : State * Outcome := backup helpers cfg1 env1 ∅.
Definition dir1 : Dir := dir first.1.

Definition unchangedEntry : WalkEntry :=
  entry "/src/b.txt" modeFile (bytesOf "world").
Definition relinked : WalkEntry := symlinkEntry "/src/link" (Some "b.txt").
Definition excludedEntry : WalkEntry :=
  entry "/src/tmp/secret" modeFile (bytesOf "s3cret").
Definition insideEntry : WalkEntry :=
  entry "/backup/sig.cache" modeFile (bytesOf "x").

Definition walk2 : list WalkEntry :=
  [ entry "/src" modeDir [];
    entry "/src/a.txt" modeFile (bytesOf "hello!");
    unchangedEntry;
    relinked;
    excludedEntry;
    insideEntry ].

Definition cfg2 : Config := cfg ["/tmp/"] false.
Definition env2 : Env := env (oneRoot walk2).
Definition second : State * Outcome := backup helpers cfg2 env2 dir1.

(** The cache the first run committed and the objects of the second. *)
Definition cache1 : option SignatureCache :=
  match dir1 !! sigCache with
  | Some (FCache c) => Some c
  | _ => None
  end.
Definition run2 : Run := mkRunOf helpers cfg2 env2 cache1 "/backup".
Definition opened2 : State := (setup helpers cfg2 env2 dir1).1.


(** A symlink that cannot be read, and the run that meets it. *)
Definition brokenLink : WalkEntry := symlinkEntry "/src/link" None.
Definition env4 : Env :=
  env (oneRoot [brokenLink; entry "/src/a.txt" modeFile (bytesOf "hello")]).

(** A regular file that cannot be opened. *)
Definition unreadable : WalkEntry := {|
  w_err := false;
  w_ctxErr := false;
  w_abs := Some "/src/a.txt";
  w_size := 5%Z;
  w_metadata := Some (mkAttribs modeFile 0 0 1700000000 5)%Z;
  w_getOk := true;
  w_genSigOk := true;
  w_readlink := None;
  w_open := None;
  w_genDeltaOk := true;
  w_createTemp := None;
  w_seekOk := true;
  w_tmpStatOk := true;
  w_fdStat := None;
  w_snapAddOk := true;
  w_scAddOk := true
|}.

(** A changed file of 200 MB, by the size the walk reports. *)
Definition largeEntry : WalkEntry := {|
  w_err := false;
  w_ctxErr := false;
  w_abs := Some "/src/a.txt";
  w_size := 200000000%Z;
  w_metadata := Some (mkAttribs modeFile 0 0 1700000001 200000000)%Z;
  w_getOk := true;
  w_genSigOk := true;
  w_readlink := None;
  w_open := Some (bytesOf "hello, again");
  w_genDeltaOk := true;
  w_createTemp := Some "4071";
  w_seekOk := true;
  w_tmpStatOk := true;
  w_fdStat := Some 200000000%Z;
  w_snapAddOk := true;
  w_scAddOk := true
|}.

(** A first run with dry-run set, on a directory that holds a snapshot
    of an earlier generation. *)
Definition cfgDry : Config := cfg [] true.
Definition dirOld : Dir := {[ "old.gz.enc" := FBlob [] ]}.
Definition envEmpty : Env := env (fun _ => []).
Definition dry : State * Outcome := backup helpers cfgDry envEmpty dirOld.

End Demo.

(** * The agent: eviction of old snapshot groups
    ([src/multus-agent/cleanup.go]) *)

Module Agent.

(** [type File struct].  A [time.Time] built by [time.Date] in the one
    location [time.Local] is determined by its instant, so [Before] and
    [!=] both compare the instant, kept here as a number. *)
Record File := mkFile {
  Path : string;
  Timestamp : Z;
  Size : Z;
}.

(** int64 arithmetic *)
Definition wrap64 (z : Z) : Z := ((z + 2 ^ 63) mod 2 ^ 64 - 2 ^ 63)%Z.

(** [Files.Less] *)
Definition Less (a b : File) : bool := (Timestamp a <? Timestamp b)%Z.

(** What the agent takes from libraries: [time.Date(y, m, d, h, min, 0, 0,
    time.Local)] as an instant, [filepath.Base], and [sort.Sort] over
    [Files], which is not stable. *)
Record Lib := mkLib {
  Date : Z -> Z -> Z -> Z -> Z -> Z;
  Base : string -> string;
  Sort : list File -> list File;
}.

(** The contract of [sort.Sort] with [Files.Less]: a rearrangement in which
    no element is [Less] than an earlier one. *)
Definition sorts (sort : list File -> list File) : Prop :=
  forall fs, sort fs ≡ₚ fs /\
    StronglySorted (fun a b => Less b a = false) (sort fs).

(** [strconv.ParseUint(s, 10, 64)] and [strconv.ParseInt(s, 10, 64)], as far
    as the callers look: the value, or that there was an error. *)
Definition digitOf (c : Ascii.ascii) : option Z :=
  let n := Z.of_N (Ascii.N_of_ascii c) in
  if ((48 <=? n) && (n <=? 57))%Z then Some (n - 48)%Z else None.

Fixpoint digits (acc : Z) (s : string) : option Z :=
  match s with
  | EmptyString => Some acc
  | String c s' =>
      match digitOf c with
      | Some d => digits (acc * 10 + d)%Z s'
      | None => None
      end
  end.

Definition ParseUint (s : string) : option Z :=
  match s with
  | EmptyString => None
  | _ =>
      match digits 0 s with
      | Some n => if (n <? 2 ^ 64)%Z then Some n else None
      | None => None
      end
  end.

Definition ParseInt (s : string) : option Z :=
  match s with
  | EmptyString => None
  | String c s' =>
      let '(neg, rest) :=
        if String.eqb (String c "") "+" then (false, s')
        else if String.eqb (String c "") "-" then (true, s')
        else (false, s) in
      match ParseUint rest with
      | None => None
      | Some un =>
          if negb neg && (2 ^ 63 <=? un)%Z then None
          else if neg && (2 ^ 63 <? un)%Z then None
          else Some (if neg then (- un)%Z else un)
      end
  end.

(** [genTimestamp] *)
Definition genTimestamp (L : Lib) (name : string) : option Z :=
  if (String.length name <? 12)%nat then None else
  match ParseInt (String.substring 0 4 name) with None => None | Some year =>
  match ParseInt (String.substring 4 2 name) with None => None | Some month =>
  match ParseInt (String.substring 6 2 name) with None => None | Some day =>
  match ParseInt (String.substring 8 2 name) with None => None | Some hour =>
  match ParseInt (String.substring 10 2 name) with None => None | Some min =>
  Some (Date L year month day hour min)
  end end end end end.

(** What [filepath.Walk] hands to the callback of [cleanup] for one node,
    and what the callback's own calls return there: the walk's error, the
    state of the context, and [os.Stat] with the two mode tests and the
    size. *)
Inductive NodeMode := IsDir | IsRegular | IsOther.

Record Node := mkNode {
  srcPath : string;
  walkErr : bool;
  ctxErr : bool;
  stat : option (NodeMode * Z);
}.

(** The errors the callback hands back to the walk: the walk's own, the
    context's, and that of [os.Stat]. *)
Inductive Abort := WalkFailed | Canceled | StatFailed.

Inductive Msg :=
  | MUnknown (p : string)
  | MInvalid (p : string)
  | MGenTimestamp (p : string)
  | MTotal (total max : Z)
  | MDeleting (p : string) (size : Z) (dry : bool)
  | MRemoveFailed (p : string)
  | MDeleted (n : Z).

(** The variables of [cleanup], the calls of [os.Remove] with their
    results, and the log. *)
Record St := mkSt {
  totalSize : Z;
  deletedSize : Z;
  files : list File;
  removes : list (string * bool);
  msgs : list Msg;
}.

Definition start : St := mkSt 0 0 [] [] [].

Definition logm (m : Msg) (s : St) : St :=
  mkSt (totalSize s) (deletedSize s) (files s) (removes s) (msgs s ++ [m]).

(** The callback handed to [filepath.Walk]. *)
Definition visit (L : Lib) (e : Node) (s : St) : St * option Abort :=
  if walkErr e then (s, Some WalkFailed) else
  if ctxErr e then (s, Some Canceled) else
  match stat e with
  | None => (s, Some StatFailed)
  | Some (IsOther, _) => (logm (MUnknown (srcPath e)) s, None)
  | Some (IsDir, _) => (s, None)
  | Some (IsRegular, size) =>
      let s := mkSt (wrap64 (totalSize s + size)) (deletedSize s) (files s)
                    (removes s) (msgs s) in
      let fileName := Base L (srcPath e) in
      if negb (HasSuffix fileName ".gz.enc") then
        (if negb (String.eqb fileName "sig.cache")
         then logm (MUnknown (srcPath e)) s else s, None)
      else if (String.length fileName <? 21)%nat then
        (logm (MInvalid (srcPath e)) s, None)
      else
        match genTimestamp L fileName with
        | None => (logm (MGenTimestamp (srcPath e)) s, None)
        | Some timestamp =>
            (mkSt (totalSize s) (deletedSize s)
                  (files s ++ [mkFile (srcPath e) timestamp size])
                  (removes s) (msgs s), None)
        end
  end.

(** [filepath.Walk] stops at the first error of the callback. *)
Fixpoint scan (L : Lib) (es : list Node) (s : St) : St * option Abort :=
  match es with
  | [] => (s, None)
  | e :: es' =>
      match visit L e s with
      | (s', None) => scan L es' s'
      | r => r
      end
  end.

(** What the deletion loop meets: the context at each iteration and the
    paths [os.Remove] fails on. *)
Record Oracle := mkOracle {
  ctxAt : nat -> bool;
  rmFails : string -> bool;
}.

Definition account (file : File) (s : St) : St :=
  mkSt (wrap64 (totalSize s - Size file)) (wrap64 (deletedSize s + Size file))
       (files s) (removes s) (msgs s).

Definition remove (p : string) (ok : bool) (s : St) : St :=
  mkSt (totalSize s) (deletedSize s) (files s) (removes s ++ [(p, ok)])
       (msgs s).

(** The loop [for _, file := range files], from iteration [i] on. *)
Fixpoint sweep (env : Oracle) (maxSize : Z) (dryRun : bool) (i : nat)
    (fs : list File) (curTime : Z) (s : St) : St :=
  match fs with
  | [] => s
  | file :: fs' =>
      if ctxAt env i then s else
      match (if negb (curTime =? Timestamp file)%Z
             then if (totalSize s <=? maxSize)%Z then None
                  else Some (Timestamp file)
             else Some curTime) with
      | None => s
      | Some curTime =>
          if dryRun then
            sweep env maxSize dryRun (S i) fs' curTime
              (account file (logm (MDeleting (Path file) (Size file) true) s))
          else
            let s := logm (MDeleting (Path file) (Size file) false) s in
            if rmFails env (Path file) then
              sweep env maxSize dryRun (S i) fs' curTime
                (logm (MRemoveFailed (Path file)) (remove (Path file) false s))
            else
              sweep env maxSize dryRun (S i) fs' curTime
                (account file (remove (Path file) true s))
      end
  end.

(** How [cleanup] ends: it returns an error or nil, or the index
    expression panics. *)
Inductive Ending := Returned (err : option Abort) | IndexPanic.

(** [cleanup]: [es] is the walk of [storagePath].  [files[0]] of an empty
    slice is a run-time panic. *)
Definition cleanup (L : Lib) (env : Oracle) (es : list Node) (maxSize : Z)
    (dryRun : bool) : St * Ending :=
  match scan L es start with
  | (s, Some err) => (s, Returned (Some err))
  | (s, None) =>
      let s := logm (MTotal (totalSize s) maxSize) s in
      if (totalSize s <=? maxSize)%Z then (s, Returned None) else
      let sorted := Sort L (files s) in
      let s := mkSt (totalSize s) 0 sorted (removes s) (msgs s) in
      match sorted with
      | [] => (s, IndexPanic)
      | first :: _ =>
          let s := sweep env maxSize dryRun 0 sorted (Timestamp first) s in
          (logm (MDeleted (deletedSize s)) s, Returned None)
      end
  end.

(** Vocabulary of the statements about [cleanup]: the bytes of a list of
    files, and those of the files older than an instant. *)
Definition sizes (fs : list File) : Z := foldr (fun f a => (Size f + a)%Z) 0%Z fs.

Definition older (fs : list File) (t : Z) : Z :=
  sizes (filter (fun f => (Timestamp f < t)%Z) fs).

(** The paths [os.Remove] succeeded on, and the paths the loop announced,
    in order. *)
Definition removedPaths (s : St) : list string :=
  omap (fun r : string * bool => if r.2 then Some r.1 else None) (removes s).

Definition announced (s : St) : list string :=
  omap (fun m => match m with MDeleting p _ _ => Some p | _ => None end) (msgs s).

(** What a node adds to [totalSize], and the file the callback appends
    for it, if any. *)
Definition regularSize (e : Node) : Z :=
  match stat e with Some (IsRegular, size) => size | _ => 0%Z end.

Definition regularSizes (es : list Node) : Z :=
  foldr (fun e a => (regularSize e + a)%Z) 0%Z es.

Definition collect (L : Lib) (e : Node) : option File :=
  match stat e with
  | Some (IsRegular, size) =>
      let fileName := Base L (srcPath e) in
      if HasSuffix fileName ".gz.enc" && negb (String.length fileName <? 21)%nat
      then t ← genTimestamp L fileName; Some (mkFile (srcPath e) t size)
      else None
  | _ => None
  end.

(** A node at which the callback finds no error, and the error it returns
    at one that is not. *)
Definition clean (e : Node) : Prop :=
  walkErr e = false /\ ctxErr e = false /\ is_Some (stat e).

Definition firstError (e : Node) : Abort :=
  if walkErr e then WalkFailed else if ctxErr e then Canceled else StatFailed.

(** The context stays live and every removal succeeds. *)
Definition calm (env : Oracle) : Prop :=
  (forall i, ctxAt env i = false) /\ (forall p, rmFails env p = false).

(** The name of a snapshot file begins with twelve decimal digits. *)
Definition digit (d : Z) : Ascii.ascii := Ascii.ascii_of_N (Z.to_N (48 + d)).

Fixpoint stamp (ds : list Z) (rest : string) : string :=
  match ds with
  | [] => rest
  | d :: ds => String (digit d) (stamp ds rest)
  end.

(** The group of [f] starts above the limit: the total, less the bytes of
    the files older than [f], exceeds [maxSize]. *)
Definition over (total maxSize : Z) (fs : list File) (f : File) : bool :=
  (maxSize <? total - older fs (Timestamp f))%Z.

End Agent.

(** A storage tree of two hosts to run [cleanup] on: a stand-in calendar
    that keeps the order of well-formed dates, the last path element for
    [filepath.Base], and a merge sort for [sort.Sort]. *)
Module AgentDemo.
Import Agent.

Definition date (y m d h mi : Z) : Z :=
  ((((y * 12 + m) * 31 + d) * 24 + h) * 60 + mi)%Z.

Fixpoint base (acc s : string) : string :=
  match s with
  | EmptyString => acc
  | String c s' =>
      if String.eqb (String c "") "/" then base "" s'
      else base (acc +:+ String c "") s'
  end.

Definition sort : list File -> list File :=
  @merge_sort File (fun a b => (Timestamp a <= Timestamp b)%Z)
    (fun a b => decide (Timestamp a <= Timestamp b)%Z).

Definition lib : Lib := mkLib date (base "") sort.

Definition quiet : Oracle := mkOracle (fun _ => false) (fun _ => false).

Definition node (p : string) (m : NodeMode) (size : Z) : Node :=
  mkNode p false false (Some (m, size)).

Definition storage : list Node :=
  [ node "/srv" IsDir 4096;
    node "/srv/a" IsDir 4096;
    node "/srv/a/202402010000-a-0.gz.enc" IsRegular 80;
    node "/srv/a/202401010000-a-1.gz.enc" IsRegular 30;
    node "/srv/a/202401010000-a-0.gz.enc" IsRegular 100;
    node "/srv/a/sig.cache" IsRegular 50;
    node "/srv/b" IsDir 4096;
    node "/srv/b/202401010000-b-0.gz.enc" IsRegular 60;
    node "/srv/b/notes.txt" IsRegular 10;
    node "/srv/b/x.gz.enc" IsRegular 5;
    node "/srv/b/sock" IsOther 0 ].

(** Only what [cleanup] does not take for a snapshot. *)
Definition clutter : list Node :=
  [ node "/srv" IsDir 4096;
    node "/srv/a/sig.cache" IsRegular 500;
    node "/srv/a/core" IsRegular 700 ].

(** The same tree when the walk fails at a node. *)
Definition broken : list Node :=
  [ node "/srv" IsDir 4096;
    node "/srv/a/202401010000-a-0.gz.enc" IsRegular 100;
    mkNode "/srv/b" true false None;
    node "/srv/b/202401010000-b-0.gz.enc" IsRegular 60 ].

End AgentDemo.

(** Further runs of the engine: the second run on a directory that also
    holds a file of the operator, a run whose directory cannot be read,
    and a file the cache does not list. *)
Module MoreDemo.

Definition dirNotes : Dir :=
  <["notes.txt" := FBlob (bytesOf "keep")]> Demo.dir1.

Definition third : State * Outcome :=
  backup Demo.helpers Demo.cfg2 Demo.env2 dirNotes.

(** [e] with a directory that [ioutil.ReadDir] cannot read. *)
Definition unreadableDir (e : Env) : Env :=
  mkEnv (env_abs e) (env_gid e) (env_uid e) (env_mkdirAllOk e)
    (env_chownDirOk e) (env_loadOk e) (env_now e) (env_hostname e)
    (env_newSCOk e) false (env_rmFails e) (env_newSnapOk e)
    (env_newSnapLeft e) (env_tombAddOk e) (env_snapCloseOk e) (env_scCloseOk e)
    (env_existingCloseOk e) (env_renameOk e) (env_chownSigOk e) (env_walk e).

(** [e] with a rename that fails. *)
Definition renameFails (e : Env) : Env :=
  mkEnv (env_abs e) (env_gid e) (env_uid e) (env_mkdirAllOk e)
    (env_chownDirOk e) (env_loadOk e) (env_now e) (env_hostname e)
    (env_newSCOk e) (env_readDirOk e) (env_rmFails e) (env_newSnapOk e)
    (env_newSnapLeft e) (env_tombAddOk e) (env_snapCloseOk e) (env_scCloseOk e)
    (env_existingCloseOk e) false (env_chownSigOk e) (env_walk e).

(** [e] with a [NewSnapshot] that fails after it has written [b]. *)
Definition snapshotFails (b : bytes) (e : Env) : Env :=
  mkEnv (env_abs e) (env_gid e) (env_uid e) (env_mkdirAllOk e)
    (env_chownDirOk e) (env_loadOk e) (env_now e) (env_hostname e)
    (env_newSCOk e) (env_readDirOk e) (env_rmFails e) false (Some b)
    (env_tombAddOk e) (env_snapCloseOk e) (env_scCloseOk e)
    (env_existingCloseOk e) (env_renameOk e) (env_chownSigOk e) (env_walk e).

Definition halfOpened : State * Outcome :=
  backup Demo.helpers Demo.cfg2 (snapshotFails (bytesOf "hdr") Demo.env2)
    Demo.dir1.

Definition uncommitted : State * Outcome :=
  backup Demo.helpers Demo.cfg2 (renameFails Demo.env2) Demo.dir1.

Definition panicked : State * Outcome :=
  backup Demo.helpers Demo.cfg1 (unreadableDir Demo.env1) ∅.

(** The cache the first run committed. *)
Definition gen1 : SignatureCache := default (mkSC "" 0 0 0 []) Demo.cache1.

Definition newEntry : WalkEntry :=
  Demo.entry "/src/new.txt" Demo.modeFile (bytesOf "fresh").

Definition rootEntry : WalkEntry := Demo.entry "/src" Demo.modeDir [].

End MoreDemo.

(** ** Vocabulary of the statements *)

(** Pre- and postconditions of an action: [Q] after a normal return, [E]
    after an error. *)
Definition Hoare (P : State -> Prop) (a : Act) (Q E : State -> Prop) : Prop :=
  forall s, P s ->
    match a s with
    | (s', None) => Q s'
    | (s', Some _) => E s'
    end.

(** An invariant kept on every way out. *)
Definition Pres (I : State -> Prop) (a : Act) : Prop := Hoare I a I I.

(** A temporary file of [os.CreateTemp(_, "delta")]. *)
Definition isTemp (n : string) : Prop := HasPrefix n "delta" = true.

(** The paths the walk goes on to classify: outside the backup directory
    by the prefix test and matched by no exclude. *)
Definition admissible (H : Helpers) (cfg : Config) (run : Run) (p : string)
  : Prop :=
  HasPrefix p (destDirAbs run) = false /\ isExcluded H cfg p = false.

(** The directory operations a callback may issue. *)
Definition walkEvent (run : Run) (ev : Event) : Prop :=
  match ev with
  | EvWrite n _ => n = snapName run \/ n = inprogress \/ isTemp n
  | EvClose n _ | EvRemove n _ => isTemp n
  | _ => False
  end.

(** Records of kind 0, 1 or 2. *)
Definition live (r : SnapRecord) : Prop := rec_kind r <> KTombstone.

(** What separates the state after some callbacks from the state before. *)
Record WalkExt (H : Helpers) (cfg : Config) (run : Run) (s s' : State)
  : Prop := mkWalkExt {
  we_trace : exists evs, trace s' = trace s ++ evs
               /\ dir s' = replay evs (dir s)
               /\ Forall (walkEvent run) evs;
  we_log : exists l, log s' = log s ++ l
               /\ Forall (fun m => (forall p, m = LNoChange p ->
                                      admissible H cfg run p)
                                   /\ (forall p, m <> LDeleted p)) l;
  we_snap : exists rs, snapRecs s' = snapRecs s ++ rs
               /\ Forall (fun r => admissible H cfg run (Path (rec_md r))
                                   /\ live r) rs;
  we_sc : exists a, scRecs s' = scRecs s ++ a
               /\ Forall (fun x => admissible H cfg run x.1) a;
  we_paths : pathsToCheck s' ⊆ pathsToCheck s
               /\ forall p, p ∈ pathsToCheck s ->
                    ~ admissible H cfg run p -> p ∈ pathsToCheck s'
}.

(** Every [os.Remove] of the run succeeds. *)
Definition rmAlwaysOk (env : Env) : Prop := forall n, env_rmFails env n = false.

(** The two files of the run hold what their writers accepted, no path
    was added twice, and [D] is the set of names in the directory when
    removals succeed. *)
Definition FilesInv (env : Env) (run : Run) (D : gset string) (s : State)
  : Prop :=
  dir s !! inprogress = Some (FCache (withEntries (sc run) (scRecs s)))
  /\ dir s !! snapName run = Some (FSnapshot (snapHdr run) (snapRecs s))
  /\ NoDup (scRecs s).*1
  /\ (rmAlwaysOk env -> dom (dir s) = D).

#[global] Instance live_dec r : Decision (live r).
Proof. unfold live. apply _. Defined.

(** Paths of the records of kind 0, 1 or 2, in order. *)
Definition livePaths (rs : list SnapRecord) : list string :=
  map (fun r => Path (rec_md r)) (filter live rs).

(** Paths of the tombstones, in order. *)
Definition tombPaths (rs : list SnapRecord) : list string :=
  map (fun r => Path (rec_md r)) (filter (fun r => ~ live r) rs).

Definition noChangeOf (m : LogMsg) : option string :=
  match m with LNoChange p => Some p | _ => None end.

(** Paths found unchanged: the signature computed in this run is
    byte-equal to the one the cache in use returned. *)
Definition unchangedPaths (l : list LogMsg) : list string := omap noChangeOf l.

(** The cache is [owed] the paths [l]: once they are added, its paths
    are those recorded live in the snapshot and those found unchanged. *)
Definition Owed (l : list string) (s : State) : Prop :=
  (scRecs s).*1 ++ l ≡ₚ livePaths (snapRecs s) ++ unchangedPaths (log s).

Definition Anything (s : State) : Prop := True.

(** The directory operations between [s] and [s'] all satisfy [Q]. *)
Definition Grows (Q : Event -> Prop) (s s' : State) : Prop :=
  exists evs, trace s' = trace s ++ evs
    /\ dir s' = replay evs (dir s)
    /\ Forall Q evs.

(** Operations that leave the entry [sig.cache] as it is. *)
Definition benign (ev : Event) : Prop :=
  match ev with
  | EvWrite n _ | EvRemove n _ => n <> sigCache
  | EvRename _ _ => False
  | _ => True
  end.

(** The operations of the set-up of a run. *)
Definition setupEvent (run : Run) (ev : Event) : Prop :=
  match ev with
  | EvMkdirAll | EvChownDir => True
  | EvWrite n _ => n = inprogress \/ n = snapName run
  | EvRemove n _ => HasSuffix n ".gz.enc" = true
  | _ => False
  end.

(** Whether [removeOld] takes the entry [n] out of the directory. *)
Definition removed (cfg : Config) (env : Env) (n : string) : bool :=
  HasSuffix n ".gz.enc" && negb (DryRun cfg) && negb (env_rmFails env n).

(** The state [s0] in which [setup] hands the run over to the walk. *)
Record Opened (H : Helpers) (cfg : Config) (env : Env) (d : Dir) (run : Run)
    (s0 : State) : Prop := mkOpened {
  op_run : exists dAbs,
    env_abs env (Clean H (BackupPath cfg)) = Some dAbs
    /\ run = mkRunOf H cfg env (LoadSignatureCache env d).1 dAbs;
  op_snap : snapRecs s0 = [];
  op_sc : scRecs s0 = [];
  op_paths : pathsToCheck s0 = Paths (existingSC run);
  op_log : Forall (fun m => noChangeOf m = None /\ forall p, m <> LDeleted p)
             (log s0);
  op_grows : Grows (setupEvent run) (initState d) s0;
  op_inprogress : dir s0 !! inprogress = Some (FCache (sc run));
  op_snapshot : dir s0 !! snapName run = Some (FSnapshot (snapHdr run) []);
  op_others : forall n, n <> inprogress -> n <> snapName run ->
    dir s0 !! n =
      if (instance (sc run) =? 0)%Z && removed cfg env n then None else d !! n
}.

Definition gzRemoval (ev : Event) : Prop :=
  match ev with
  | EvRemove n _ => HasSuffix n ".gz.enc" = true
  | _ => False
  end.

Definition removalLog (m : LogMsg) : Prop :=
  noChangeOf m = None /\ forall p, m <> LDeleted p.

(** What a pass of [removeOld] over the names [l] leaves of a state. *)
Record Swept (cfg : Config) (env : Env) (l : list string) (s s' : State)
  : Prop := mkSwept {
  sw_grows : Grows gzRemoval s s';
  sw_log : exists ms, log s' = log s ++ ms /\ Forall removalLog ms;
  sw_snap : snapRecs s' = snapRecs s;
  sw_sc : scRecs s' = scRecs s;
  sw_paths : pathsToCheck s' = pathsToCheck s;
  sw_dir : forall n,
    dir s' !! n =
      if bool_decide (n ∈ l) && removed cfg env n then None else dir s !! n
}.

(** The tombstone of a path. *)
Definition tombOf (p : string) : SnapRecord :=
  mkRecord (mkMetadata p zeroAttribs) KTombstone RNil 0 [].

(** What a run that returns [nil] leaves, from the state [s0] in which
    the walk started. *)
Record Committed (H : Helpers) (cfg : Config) (env : Env) (run : Run)
    (s0 s : State) : Prop := mkCommitted {
  cm_walk : exists s1,
    walkRoots H cfg env run 0 (Backup_Paths cfg) s0 = (s1, None)
    /\ snapRecs s = snapRecs s1 ++ map tombOf (elements (pathsToCheck s1))
    /\ scRecs s = scRecs s1
    /\ unchangedPaths (log s) = unchangedPaths (log s1);
  cm_nodup : NoDup (scRecs s).*1;
  cm_cache : dir s !! sigCache = Some (FCache (withEntries (sc run) (scRecs s)));
  cm_snapshot :
    dir s !! snapName run = Some (FSnapshot (snapHdr run) (snapRecs s));
  cm_names : rmAlwaysOk env -> forall n, n <> sigCache -> n <> inprogress ->
    (is_Some (dir s !! n) <-> is_Some (dir s0 !! n));
  cm_trace : exists evs ok,
    trace s = trace s0 ++ evs ++ [EvRename inprogress sigCache;
                                  EvChown sigCache ok]
    /\ dir s = replay (evs ++ [EvRename inprogress sigCache;
                               EvChown sigCache ok]) (dir s0)
    /\ Forall benign evs
    /\ EvClose (snapName run) true ∈ evs
    /\ EvClose inprogress true ∈ evs
    /\ replay evs (dir s0) !! inprogress =
         Some (FCache (withEntries (sc run) (scRecs s)))
}.

(** The entry comes through every test that precedes the switch on the
    file mode, with absolute path [p] and attributes [a]. *)
Definition classified (H : Helpers) (cfg : Config) (run : Run)
    (e : WalkEntry) (p : string) (a : FileAttributes) : Prop :=
  w_err e = false /\ w_ctxErr e = false /\ w_abs e = Some p
  /\ HasPrefix p (destDirAbs run) = false /\ isExcluded H cfg p = false
  /\ w_metadata e = Some a /\ w_getOk e = true.

(** The mode is none of socket, device, pipe or directory. *)
Definition plainMode (H : Helpers) (m : Z) : Prop :=
  isSocket H m = false /\ isCharDevice H m = false /\ isDevice H m = false
  /\ isNamedPipe H m = false /\ isDir H m = false.

(** The round-trip law of the delta codec. *)
Definition deltaLaw (H : Helpers) : Prop :=
  forall md prev new,
    ApplyDelta H prev
      (GenDelta H (GenSignature H md (Some prev) (len prev)) new (len new))
    = new.

(** What goes to the directory while a delta is staged in [tmp]. *)
Definition stagingEvent (run : Run) (tmp : string) (ev : Event) : Prop :=
  exists f, ev = EvWrite tmp f \/ ev = EvWrite (snapName run) f.

(** Writes to the two files of the run. *)
Definition runWrite (run : Run) (ev : Event) : Prop :=
  exists f, ev = EvWrite (snapName run) f \/ ev = EvWrite inprogress f.

(** The deletion set is what the cache in use lists and the new cache
    does not, once the paths [l], already added, are taken out of it. *)
Definition Pending (run : Run) (l : list string) (s : State) : Prop :=
  pathsToCheck s ∖ list_to_set l
  = Paths (existingSC run) ∖ list_to_set (scRecs s).*1.

(** What a run does to the directory before it calls [NewSnapshot]: it
    writes no file but [sig.cache.inprogress]. *)
Definition beforeSnapshot (ev : Event) : Prop :=
  forall n f, ev = EvWrite n f -> n = inprogress.

(** The entry [n] of the directory holds [f]. *)
Definition Keeps (n : string) (f : File) (s : State) : Prop :=
  dir s !! n = Some f.

(** The signature the callback computes for an entry of path [p] and
    attributes [a], by the switch on the file mode: none for a socket,
    the signature of the metadata alone for a device, a pipe or a
    directory, that of the target for a symlink, that of the content for
    any other entry; none when the link or the file cannot be read. *)
Definition signatureOf (H : Helpers) (e : WalkEntry) (p : string)
    (a : FileAttributes) : option bytes :=
  let MD := mkMetadata p a in
  if isSocket H (Mode a) then None
  else if isCharDevice H (Mode a) || isDevice H (Mode a)
          || isNamedPipe H (Mode a) || isDir H (Mode a)
  then Some (GenSignature H MD None 0)
  else if isSymlink H (Mode a)
  then match w_readlink e with
       | Some dest =>
           Some (GenSignature H MD (Some (bytesOf dest)) (len (bytesOf dest)))
       | None => None
       end
  else match w_open e with
       | Some content => Some (GenSignature H MD (Some content) (w_size e))
       | None => None
       end.

(** The entries that [filepath.Walk] hands to the callback for the first
    [n] roots, in order. *)
Definition walked (env : Env) (n : nat) : list WalkEntry :=
  flat_map (env_walk env) (List.seq 0 n).

(** What the run did with the path [p] of signature [sig]: a line "no
    change" when [sig] is byte-equal to what the cache in use returns
    for [p], a live record in the snapshot otherwise. *)
Definition Marked (run : Run) (p : string) (sig : bytes) (s : State) : Prop :=
  if Equal (Get (existingSC run) p) sig
  then p ∈ unchangedPaths (log s)
  else p ∈ livePaths (snapRecs s).

(** The new cache agrees with the entries [es] that the callback was
    given: each of its records is the path of one of them, with the
    signature computed for it, and the path is marked; and each entry
    that comes to the switch on the mode and gets a signature is in it. *)
Definition Agrees (H : Helpers) (cfg : Config) (run : Run)
    (es : list WalkEntry) (s : State) : Prop :=
  (forall p sig, (p, sig) ∈ scRecs s ->
     exists e a, e ∈ es /\ classified H cfg run e p a
       /\ signatureOf H e p a = Some sig /\ Marked run p sig s)
  /\ (forall e p a sig, e ∈ es -> classified H cfg run e p a ->
        signatureOf H e p a = Some sig -> (p, sig) ∈ scRecs s).

(** The stages of a callback that started in [s] and adds the path [p]
    with the signature [sig]: nothing added yet; the path marked and the
    record of the cache due; the record added. *)
Definition NotYet (s x : State) : Prop := scRecs x = scRecs s.

Definition Due (run : Run) (s : State) (p : string) (sig : bytes) (x : State)
  : Prop :=
  scRecs x = scRecs s /\ Marked run p sig x.

Definition Listed (run : Run) (s : State) (p : string) (sig : bytes)
    (x : State) : Prop :=
  scRecs x = scRecs s ++ [(p, sig)] /\ Marked run p sig x.

(** Where a callback that returns nil leaves the cache, for an entry
    that came to the switch on the mode. *)
Definition Settled (H : Helpers) (run : Run) (s : State) (e : WalkEntry)
    (p : string) (a : FileAttributes) (x : State) : Prop :=
  match signatureOf H e p a with
  | Some sig => Listed run s p sig x
  | None => NotYet s x
  end.

(** The metadata that [NewMetadata] yields for an entry that has an
    absolute path and attributes. *)
Definition entryMD (e : WalkEntry) : option Metadata :=
  match w_abs e, w_metadata e with
  | Some p, Some a => Some (mkMetadata p a)
  | _, _ => None
  end.

(** The stages of a callback that started in [s], as to the snapshot:
    no record added; at most one record added, live and with the
    metadata [md]. *)
Definition Unrecorded (s x : State) : Prop := snapRecs x = snapRecs s.

Definition Recorded (s : State) (md : option Metadata) (x : State) : Prop :=
  snapRecs x = snapRecs s
  \/ exists r, snapRecs x = snapRecs s ++ [r] /\ live r /\ md = Some (rec_md r).

(** The live records added since [s0] carry the metadata of entries among
    [es], in the order of [es]. *)
Definition InOrder (s0 : State) (es : list WalkEntry) (x : State) : Prop :=
  exists l,
    map rec_md (filter live (snapRecs x))
    = map rec_md (filter live (snapRecs s0)) ++ l
    /\ l `sublist_of` omap entryMD es.

(** ** Rules for actions *)

Section Rules.
Context (I : State -> Prop).

Lemma pres_ret : Pres I ret.
Proof. intros s Hs. exact Hs. Qed.

Lemma pres_fail e : Pres I (fail e).
Proof. intros s Hs. exact Hs. Qed.

Lemma pres_lift f : (forall s, I s -> I (f s)) -> Pres I (lift f).
Proof. intros Hf s Hs. apply Hf, Hs. Qed.

Lemma pres_guard ok e : Pres I (guard ok e).
Proof. destruct ok; [apply pres_ret | apply pres_fail]. Qed.

Lemma pres_seq a k : Pres I a -> Pres I k -> Pres I (a ;; k)%act.
Proof.
  intros Ha Hk s Hs. unfold seq. specialize (Ha s Hs).
  destruct (a s) as [s' [e|]]; [exact Ha | apply Hk, Ha].
Qed.

Lemma pres_attempt a c : Pres I a -> Pres I c -> Pres I (attempt a c).
Proof.
  intros Ha Hc s Hs. unfold attempt. specialize (Ha s Hs).
  destruct (a s) as [s' [e|]]; [| exact Ha].
  specialize (Hc s' Ha). simpl. destruct (c s') as [s'' [e'|]]; exact Hc.
Qed.

Lemma pres_state a s : Pres I a -> I s -> I (a s).1.
Proof.
  intros Ha Hs. specialize (Ha s Hs). destruct (a s) as [s' [e|]]; exact Ha.
Qed.

End Rules.

Lemma hoare_seq P R Q E a k :
  Hoare P a R E -> Hoare R k Q E -> Hoare P (a ;; k)%act Q E.
Proof.
  intros Ha Hk s Hs. unfold seq. specialize (Ha s Hs).
  destruct (a s) as [s' [e|]]; [exact Ha | apply Hk, Ha].
Qed.

Lemma hoare_conseq (P P' Q Q' E E' : State -> Prop) a :
  Hoare P' a Q' E' ->
  (forall s, P s -> P' s) -> (forall s, Q' s -> Q s) ->
  (forall s, E' s -> E s) -> Hoare P a Q E.
Proof.
  intros Ha HP HQ HE s Hs. specialize (Ha s (HP s Hs)).
  destruct (a s) as [s' [e|]]; auto.
Qed.

Lemma hoare_ret (P E : State -> Prop) : Hoare P ret P E.
Proof. intros s Hs. exact Hs. Qed.

Lemma hoare_fail (P Q : State -> Prop) e : Hoare P (fail e) Q P.
Proof. intros s Hs. exact Hs. Qed.

Lemma hoare_lift (P Q E : State -> Prop) f :
  (forall s, P s -> Q (f s)) -> Hoare P (lift f) Q E.
Proof. intros Hf s Hs. apply Hf, Hs. Qed.

Lemma hoare_guard (P : State -> Prop) ok e : Hoare P (guard ok e) P P.
Proof. destruct ok; intros s Hs; exact Hs. Qed.

Lemma hoare_state (P E : State -> Prop) a s :
  Hoare P a E E -> P s -> E (a s).1.
Proof.
  intros Ha Hs. specialize (Ha s Hs). destruct (a s) as [s' [e|]]; exact Ha.
Qed.

Lemma hoare_attempt (P Q R E : State -> Prop) a c :
  Hoare P a Q R -> Hoare R c E E -> Hoare P (attempt a c) Q E.
Proof.
  intros Ha Hc s Hs. unfold attempt. specialize (Ha s Hs).
  destruct (a s) as [s' [e|]]; [| exact Ha]. by apply hoare_state with R.
Qed.

Lemma hoare_pure (P Q E : State -> Prop) (phi : Prop) a :
  (phi -> Hoare P a Q E) -> Hoare (fun s => P s /\ phi) a Q E.
Proof. intros Ha s [Hs Hphi]. by apply Ha. Qed.

(** Breaks an action down to its primitive steps. *)
Ltac pres_step :=
  lazymatch goal with
  | |- Pres _ (seq _ _) => apply pres_seq
  | |- Pres _ ret => apply pres_ret
  | |- Pres _ (fail _) => apply pres_fail
  | |- Pres _ (guard _ _) => apply pres_guard
  | |- Pres _ (attempt _ _) => apply pres_attempt
  | |- Pres _ (if ?b then _ else _) => destruct b eqn:?
  | |- Pres _ (match ?o with _ => _ end) => destruct o eqn:?
  end.

Lemma replay_app a b (d : Dir) : replay (a ++ b) d = replay b (replay a d).
Proof. apply fold_left_app. Qed.

Lemma isTemp_delta rnd : isTemp ("delta" +:+ rnd).
Proof. destruct rnd; reflexivity. Qed.

(** ** The footprint of the walk *)

Section WalkExtension.
Context (H : Helpers) (cfg : Config) (env : Env) (run : Run).

Local Abbreviation Ext := (WalkExt H cfg run).
Local Abbreviation adm := (admissible H cfg run).

Lemma ext_refl s : Ext s s.
Proof.
  split.
  - exists []. rewrite app_nil_r. auto.
  - exists []. rewrite app_nil_r. auto.
  - exists []. rewrite app_nil_r. auto.
  - exists []. rewrite app_nil_r. auto.
  - auto.
Qed.

Lemma ext_trans s1 s2 s3 : Ext s1 s2 -> Ext s2 s3 -> Ext s1 s3.
Proof.
  intros [[e1 [T1 [D1 F1]]] [l1 [L1 G1]] [r1 [R1 K1]] [a1 [A1 M1]] [P1 P1']]
         [[e2 [T2 [D2 F2]]] [l2 [L2 G2]] [r2 [R2 K2]] [a2 [A2 M2]] [P2 P2']].
  split.
  - exists (e1 ++ e2). rewrite T2, T1, D2, D1, replay_app, app_assoc.
    split_and!; auto using Forall_app_2.
  - exists (l1 ++ l2). rewrite L2, L1, app_assoc. auto using Forall_app_2.
  - exists (r1 ++ r2). rewrite R2, R1, app_assoc. auto using Forall_app_2.
  - exists (a1 ++ a2). rewrite A2, A1, app_assoc. auto using Forall_app_2.
  - split; [set_solver | auto].
Qed.

Lemma ext_logf m s :
  (forall p, m = LNoChange p -> adm p) -> (forall p, m <> LDeleted p) ->
  Ext s (logf m s).
Proof.
  intros Hm Hd. destruct (ext_refl s) as [T _ R A P].
  split; [exact T | | exact R | exact A | exact P].
  exists [m]. split; [reflexivity | apply Forall_singleton; split; assumption].
Qed.

Lemma ext_emit ev s : walkEvent run ev -> Ext s (emit ev s).
Proof.
  intros Hev. destruct (ext_refl s) as [_ L R A P].
  split; [| exact L | exact R | exact A | exact P].
  exists [ev]. split_and!; [reflexivity | reflexivity | by apply Forall_singleton].
Qed.

Lemma ext_count s : Ext s (countExcluded s).
Proof. destruct (ext_refl s) as [T L R A P]. split; assumption. Qed.

Lemma ext_pushSnap r s : adm (Path (rec_md r)) -> live r -> Ext s (pushSnap r s).
Proof.
  intros Hp Hl. destruct (ext_refl s) as [T L _ A P].
  split; [exact T | exact L | | exact A | exact P].
  exists [r]. split; [reflexivity | by apply Forall_singleton].
Qed.

Lemma ext_pushSc p sig s : adm p -> Ext s (pushSc p sig s).
Proof.
  intros Hp. destruct (ext_refl s) as [T L R _ P].
  split; [exact T | exact L | exact R | | exact P].
  exists [(p, sig)]. split; [reflexivity | by apply Forall_singleton].
Qed.

Lemma ext_delete p s : adm p -> Ext s (deletePath p s).
Proof.
  intros Hp. destruct (ext_refl s) as [T L R A _].
  split; [exact T | exact L | exact R | exact A |].
  simpl. split; [apply subseteq_difference_l; reflexivity |].
  intros q Hq Hn. apply elem_of_difference. split; [done |].
  intros ->%elem_of_singleton. auto.
Qed.

Lemma ext_lift s0 f : (forall s, Ext s (f s)) -> Pres (Ext s0) (lift f).
Proof. intros Hf. apply pres_lift. intros s Hs. eapply ext_trans; eauto. Qed.

Lemma ext_snapAdd s0 ok md k from content size :
  adm (Path md) -> k <> KTombstone ->
  Pres (Ext s0) (snapAdd run ok md k from content size).
Proof.
  intros Hp Hk. unfold snapAdd. apply pres_seq; [apply pres_guard |].
  apply ext_lift. intros s. eapply ext_trans; [| apply ext_emit; simpl; auto].
  apply ext_pushSnap; [exact Hp | exact Hk].
Qed.

Lemma ext_scAdd s0 ok p sig : adm p -> Pres (Ext s0) (scAdd run ok p sig).
Proof.
  intros Hp s Hs. unfold scAdd. case_bool_decide; [exact Hs |].
  destruct ok; [| exact Hs]. eapply ext_trans; [exact Hs |].
  eapply ext_trans; [| apply ext_emit; simpl; auto]. apply ext_pushSc, Hp.
Qed.

Lemma ext_createTemp s0 tmp : isTemp tmp -> Pres (Ext s0) (createTemp tmp).
Proof.
  intros Ht s Hs. unfold createTemp. destruct (dir s !! tmp); [exact Hs |].
  eapply ext_trans; [exact Hs |]. apply ext_emit. simpl. auto.
Qed.

Lemma ext_dropTemp s0 tmp : isTemp tmp -> Pres (Ext s0) (dropTemp env tmp).
Proof.
  intros Ht. unfold dropTemp, doRemove.
  apply pres_seq; apply ext_lift; intros s; apply ext_emit; exact Ht.
Qed.

Lemma ext_log_plain s0 m :
  (forall p, m <> LNoChange p) -> (forall p, m <> LDeleted p) ->
  Pres (Ext s0) (lift (logf m)).
Proof.
  intros Hm Hd. apply ext_lift. intros s. apply ext_logf; [| exact Hd].
  intros p ->. destruct (Hm p eq_refl).
Qed.

Lemma ext_log_noChange s0 p : adm p -> Pres (Ext s0) (lift (logf (LNoChange p))).
Proof.
  intros Hp. apply ext_lift. intros s. apply ext_logf; [| discriminate].
  intros q [= <-]. exact Hp.
Qed.

Lemma ext_log_changedOrNew s0 sig p :
  Pres (Ext s0) (lift (logf (changedOrNew sig p))).
Proof.
  apply ext_log_plain; intros q; unfold changedOrNew;
    destruct (negb _); discriminate.
Qed.

Lemma ext_deletePath s0 p : adm p -> Pres (Ext s0) (lift (deletePath p)).
Proof. intros Hp. apply ext_lift. intros s. apply ext_delete, Hp. Qed.

(** Closes the goals left by [pres_step] on a callback. *)
Ltac ext_prim :=
  first
    [ apply ext_snapAdd; [assumption | discriminate]
    | apply ext_scAdd; assumption
    | apply ext_log_noChange; assumption
    | apply ext_log_changedOrNew
    | apply ext_log_plain; discriminate
    | apply ext_deletePath; assumption
    | apply ext_createTemp, isTemp_delta
    | apply ext_dropTemp, isTemp_delta
    | apply ext_lift; intros ?; apply ext_emit; simpl;
        auto using isTemp_delta ].

Lemma ext_stageDelta s0 e md delta :
  adm (Path md) -> Pres (Ext s0) (stageDelta env run e md delta).
Proof.
  intros Hp. unfold stageDelta. repeat (cbv zeta; first [pres_step | ext_prim]).
Qed.

Lemma ext_visitNode s0 e p md sig :
  adm p -> Path md = p -> Pres (Ext s0) (visitNode H run e p md sig).
Proof.
  intros Hp <-. unfold visitNode. repeat (cbv zeta; first [pres_step | ext_prim]).
Qed.

Lemma ext_visitSymlink s0 e p md sig :
  adm p -> Path md = p -> Pres (Ext s0) (visitSymlink H run e p md sig).
Proof.
  intros Hp <-. unfold visitSymlink.
  repeat (cbv zeta; first [pres_step | ext_prim]).
Qed.

Lemma ext_visitRegular s0 e p md sig :
  adm p -> Path md = p -> Pres (Ext s0) (visitRegular H env run e p md sig).
Proof.
  intros Hp <-. unfold visitRegular.
  repeat (cbv zeta; first [pres_step | ext_prim | apply ext_stageDelta, Hp]).
Qed.

Lemma ext_callback s0 e : Pres (Ext s0) (callback H cfg env run e).
Proof.
  unfold callback.
  repeat (cbv zeta;
    first [ pres_step | ext_prim
          | apply ext_lift; intros ?; eapply ext_trans;
              [apply ext_count | apply ext_logf; discriminate] ]);
    first [ apply ext_visitNode | apply ext_visitSymlink
          | apply ext_visitRegular ]; (split || reflexivity); assumption.
Qed.

Lemma pres_walk (I : State -> Prop) es :
  (forall e, Pres I (callback H cfg env run e)) ->
  Pres I (walk H cfg env run es).
Proof.
  intros Hc. induction es as [|e es IH]; simpl;
    [apply pres_ret | apply pres_seq; auto].
Qed.

Lemma pres_walkRoots (I : State -> Prop) roots i s :
  (forall e, Pres I (callback H cfg env run e)) ->
  I s -> I (walkRoots H cfg env run i roots s).1.
Proof.
  intros Hc. revert i s. induction roots as [|r roots IH]; intros i s Hs;
    simpl; [exact Hs |].
  pose proof (pres_walk I (env_walk env i) Hc s Hs) as Hw.
  destruct (walk H cfg env run (env_walk env i) s) as [s' [err|]];
    [exact Hw | apply IH, Hw].
Qed.

Lemma ext_walkRoots roots i s :
  Ext s (walkRoots H cfg env run i roots s).1.
Proof.
  apply (pres_walkRoots (Ext s)); [intros e; apply ext_callback | apply ext_refl].
Qed.

End WalkExtension.

(** ** Strings *)

Lemma length_append a b :
  String.length (a +:+ b) = String.length a + String.length b.
Proof.
  induction a as [|c a IH]; [reflexivity |].
  change (String c a +:+ b) with (String c (a +:+ b)). simpl. by rewrite IH.
Qed.

Lemma substring_all s : String.substring 0 (String.length s) s = s.
Proof. induction s; simpl; congruence. Qed.

Lemma substring_app a suf :
  String.substring (String.length a) (String.length suf) (a +:+ suf) = suf.
Proof.
  induction a as [|c a IH]; [apply substring_all |].
  change (String c a +:+ suf) with (String c (a +:+ suf)). exact IH.
Qed.

Lemma HasSuffix_app a suf : HasSuffix (a +:+ suf) suf = true.
Proof.
  unfold HasSuffix. rewrite length_append.
  replace (String.length a + String.length suf - String.length suf)
    with (String.length a) by lia.
  rewrite substring_app, String.eqb_refl, andb_true_r.
  apply Nat.leb_le. lia.
Qed.

Lemma isTemp_not_sigCache n : isTemp n -> n <> sigCache.
Proof. intros Ht ->. discriminate Ht. Qed.

Lemma isTemp_not_inprogress n : isTemp n -> n <> inprogress.
Proof. intros Ht ->. discriminate Ht. Qed.

Lemma gz_not_sigCache n : HasSuffix n ".gz.enc" = true -> n <> sigCache.
Proof. intros Hs ->. discriminate Hs. Qed.

Lemma gz_not_inprogress n : HasSuffix n ".gz.enc" = true -> n <> inprogress.
Proof. intros Hs ->. discriminate Hs. Qed.

(** ** The files of the run during the walk *)

Section Files.
Context (H : Helpers) (cfg : Config) (env : Env) (run : Run).
Hypothesis snap_gz : HasSuffix (snapName run) ".gz.enc" = true.

Local Abbreviation Inv := (FilesInv env run).

Lemma files_frame D f :
  (forall s, dir (f s) = dir s /\ scRecs (f s) = scRecs s
             /\ snapRecs (f s) = snapRecs s) ->
  Pres (Inv D) (lift f).
Proof.
  intros Hf. apply pres_lift. intros s (Hi & Hs & Hn & Hd).
  destruct (Hf s) as (E1 & E2 & E3). unfold FilesInv.
  rewrite E1, E2, E3. done.
Qed.

Lemma files_snapAdd D ok md k from content size :
  Pres (Inv D) (snapAdd run ok md k from content size).
Proof.
  unfold snapAdd. apply pres_seq; [apply pres_guard |].
  apply pres_lift. intros s (Hi & Hs & Hn & Hd). split_and!; simpl.
  - rewrite lookup_insert_ne; [done | by apply gz_not_inprogress].
  - by rewrite lookup_insert_eq.
  - done.
  - intros Hr. rewrite dom_insert_lookup_L; [by apply Hd | by eexists].
Qed.

Lemma files_scAdd D ok p sig : Pres (Inv D) (scAdd run ok p sig).
Proof.
  intros s (Hi & Hs & Hn & Hd). unfold scAdd.
  case_bool_decide as Hin; [done |]. destruct ok; [| done].
  split_and!; simpl.
  - by rewrite lookup_insert_eq.
  - rewrite lookup_insert_ne; [done |].
    intros Heq. symmetry in Heq. by apply gz_not_inprogress in Heq.
  - rewrite fmap_app. apply NoDup_app. split_and!; [done | | apply NoDup_singleton].
    intros q Hq ->%list_elem_of_singleton. done.
  - intros Hr. rewrite dom_insert_lookup_L; [by apply Hd | by eexists].
Qed.

Lemma files_writeTemp D tmp f :
  tmp <> inprogress -> tmp <> snapName run -> tmp ∈ D ->
  Pres (Inv D) (lift (emit (EvWrite tmp f))).
Proof.
  intros H1 H2 Hin. apply pres_lift. intros s (Hi & Hs & Hn & Hd).
  split_and!; simpl.
  - by rewrite lookup_insert_ne.
  - by rewrite lookup_insert_ne.
  - done.
  - intros Hr. rewrite dom_insert_L, (Hd Hr). set_solver.
Qed.

Lemma files_createTemp D tmp :
  Hoare (Inv D) (createTemp tmp)
    (fun s => Inv ({[tmp]} ∪ D) s /\ tmp <> inprogress /\ tmp <> snapName run
              /\ (rmAlwaysOk env -> tmp ∉ D))
    (Inv D).
Proof.
  intros s (Hi & Hs & Hn & Hd). unfold createTemp.
  destruct (dir s !! tmp) eqn:Ht; [done |].
  assert (tmp <> inprogress) by (intros ->; congruence).
  assert (tmp <> snapName run) by (intros ->; congruence).
  unfold FilesInv. split_and!; simpl; try done.
  - by rewrite lookup_insert_ne.
  - by rewrite lookup_insert_ne.
  - intros Hr. by rewrite dom_insert_L, (Hd Hr).
  - intros Hr. rewrite <- (Hd Hr). by apply not_elem_of_dom.
Qed.

Lemma files_dropTemp D tmp :
  tmp <> inprogress -> tmp <> snapName run -> (rmAlwaysOk env -> tmp ∉ D) ->
  Hoare (Inv ({[tmp]} ∪ D)) (dropTemp env tmp) (Inv D) (Inv D).
Proof.
  intros H1 H2 Hfresh s (Hi & Hs & Hn & Hd).
  unfold dropTemp, doRemove, seq, lift. simpl.
  split_and!; simpl; try done.
  - destruct (env_rmFails env tmp); simpl; [done | by rewrite lookup_delete_ne].
  - destruct (env_rmFails env tmp); simpl; [done | by rewrite lookup_delete_ne].
  - intros Hr. rewrite (Hr tmp). simpl. rewrite dom_delete_L, (Hd Hr).
    specialize (Hfresh Hr). set_solver.
Qed.

Lemma files_stageDelta D e md delta :
  Pres (Inv D) (stageDelta env run e md delta).
Proof.
  unfold stageDelta. destruct (w_createTemp e) as [rnd|]; [| apply pres_fail].
  cbv zeta. set (tmp := "delta" +:+ rnd).
  eapply hoare_seq; [apply files_createTemp |].
  eapply hoare_conseq with
    (P' := fun s => Inv ({[tmp]} ∪ D) s
             /\ (tmp <> inprogress /\ tmp <> snapName run
                 /\ (rmAlwaysOk env -> tmp ∉ D)))
         (Q' := Inv D) (E' := Inv D);
    [| intros s Hs; exact Hs ..].
  apply hoare_pure. intros (H1 & H2 & Hf).
  assert (Hdrop : forall e',
    Hoare (Inv ({[tmp]} ∪ D)) (dropTemp env tmp ;; fail e')%act (Inv D) (Inv D)).
  { intros e'. eapply hoare_seq; [by apply files_dropTemp | apply hoare_fail]. }
  destruct (w_genDeltaOk e); simpl; [| apply Hdrop].
  eapply hoare_seq.
  { apply hoare_lift. intros s Hs.
    assert (Hin : tmp ∈ ({[tmp]} ∪ D : gset string)) by set_solver.
    apply (pres_state _ _ s (files_writeTemp _ tmp (FBlob delta) H1 H2 Hin) Hs). }
  destruct (w_seekOk e); simpl; [| apply Hdrop].
  destruct (w_tmpStatOk e); simpl; [| apply Hdrop].
  eapply hoare_seq; [| by apply files_dropTemp].
  eapply hoare_attempt; [apply files_snapAdd |].
  by apply files_dropTemp.
Qed.

Lemma files_callback D e : Pres (Inv D) (callback H cfg env run e).
Proof.
  unfold callback, visitNode, visitSymlink, visitRegular.
  repeat (cbv zeta;
    first [ pres_step | apply files_snapAdd | apply files_scAdd
          | apply files_stageDelta
          | apply files_frame; intros ?; done ]).
Qed.

End Files.

(** ** What the cache is owed *)

Lemma hoare_fail_any (P Q : State -> Prop) e : Hoare P (fail e) Q Anything.
Proof. intros s Hs. exact Logic.I. Qed.

Lemma hoare_guard_any (P : State -> Prop) ok e : Hoare P (guard ok e) P Anything.
Proof. destruct ok; intros s Hs; [exact Hs | exact Logic.I]. Qed.

Lemma hoare_attempt_any (P Q : State -> Prop) a c :
  Hoare P a Q Anything -> Hoare P (attempt a c) Q Anything.
Proof.
  intros Ha s Hs. unfold attempt. specialize (Ha s Hs).
  destruct (a s) as [s' [e|]]; [exact Logic.I | exact Ha].
Qed.

Lemma livePaths_app a b : livePaths (a ++ b) = livePaths a ++ livePaths b.
Proof. unfold livePaths. by rewrite filter_app, map_app. Qed.

Lemma livePaths_live r : live r -> livePaths [r] = [Path (rec_md r)].
Proof. intros Hl. unfold livePaths. by rewrite filter_cons_True. Qed.

Lemma livePaths_tomb r : ~ live r -> livePaths [r] = [].
Proof. intros Hl. unfold livePaths. by rewrite filter_cons_False. Qed.

Lemma tombPaths_app a b : tombPaths (a ++ b) = tombPaths a ++ tombPaths b.
Proof. unfold tombPaths. by rewrite filter_app, map_app. Qed.

Lemma unchangedPaths_app a b :
  unchangedPaths (a ++ b) = unchangedPaths a ++ unchangedPaths b.
Proof. apply omap_app. Qed.

Section Balance.
Context (H : Helpers) (cfg : Config) (env : Env) (run : Run).

Lemma owed_frame l E f :
  (forall s, scRecs (f s) = scRecs s /\ snapRecs (f s) = snapRecs s
             /\ unchangedPaths (log (f s)) = unchangedPaths (log s)) ->
  Hoare (Owed l) (lift f) (Owed l) E.
Proof.
  intros Hf. apply hoare_lift. intros s Hs. unfold Owed in *.
  destruct (Hf s) as (-> & -> & ->). exact Hs.
Qed.

Lemma owed_log l E m :
  noChangeOf m = None -> Hoare (Owed l) (lift (logf m)) (Owed l) E.
Proof.
  intros Hm. apply owed_frame. intros s. split_and!; [done | done |].
  simpl. rewrite unchangedPaths_app. simpl. rewrite Hm. apply app_nil_r.
Qed.

Lemma owed_changedOrNew l E sig p :
  Hoare (Owed l) (lift (logf (changedOrNew sig p))) (Owed l) E.
Proof. apply owed_log. unfold changedOrNew. by destruct (negb _). Qed.

Lemma owed_noChange E p :
  Hoare (Owed []) (lift (logf (LNoChange p))) (Owed [p]) E.
Proof.
  apply hoare_lift. intros s Hs. unfold Owed in *. simpl.
  rewrite app_nil_r in Hs. rewrite unchangedPaths_app, Hs. simpl.
  by rewrite app_assoc.
Qed.

Lemma owed_snapAdd ok md k from content size :
  k <> KTombstone ->
  Hoare (Owed []) (snapAdd run ok md k from content size) (Owed [Path md])
    Anything.
Proof.
  intros Hk. unfold snapAdd.
  eapply hoare_seq; [apply hoare_guard_any |].
  apply hoare_lift. intros s Hs. unfold Owed in *. simpl.
  rewrite app_nil_r in Hs. rewrite livePaths_app, Hs.
  rewrite livePaths_live by exact Hk. simpl.
  rewrite <- !app_assoc. apply Permutation_app_head, Permutation_app_comm.
Qed.

Lemma owed_tombstone l ok md from content size :
  Hoare (Owed l) (snapAdd run ok md KTombstone from content size) (Owed l)
    Anything.
Proof.
  unfold snapAdd. eapply hoare_seq; [apply hoare_guard_any |].
  apply hoare_lift. intros s Hs. unfold Owed in *. simpl.
  rewrite livePaths_app, livePaths_tomb by (intros Hl; by apply Hl).
  by rewrite app_nil_r.
Qed.

Lemma owed_scAdd ok p sig :
  Hoare (Owed [p]) (scAdd run ok p sig) (Owed []) Anything.
Proof.
  intros s Hs. unfold scAdd. case_bool_decide; [exact Logic.I |].
  destruct ok; [| exact Logic.I]. unfold Owed in *. simpl.
  by rewrite fmap_app, app_nil_r.
Qed.

Lemma owed_createTemp l tmp :
  Hoare (Owed l) (createTemp tmp) (Owed l) Anything.
Proof.
  intros s Hs. unfold createTemp. destruct (dir s !! tmp);
    [exact Logic.I | exact Hs].
Qed.

Lemma owed_dropTemp l E tmp :
  Hoare (Owed l) (dropTemp env tmp) (Owed l) E.
Proof. intros s Hs. exact Hs. Qed.

(** Follows an action on its normal returns. *)
Ltac owed_step :=
  lazymatch goal with
  | |- Hoare _ (seq _ _) _ _ => eapply hoare_seq
  | |- Hoare _ ret _ _ => apply hoare_ret
  | |- Hoare _ (fail _) _ _ => apply hoare_fail_any
  | |- Hoare _ (guard _ _) _ _ => apply hoare_guard_any
  | |- Hoare _ (attempt _ _) _ _ => apply hoare_attempt_any
  | |- Hoare _ (if ?b then _ else _) _ _ => destruct b eqn:?
  | |- Hoare _ (match ?o with _ => _ end) _ _ => destruct o eqn:?
  | |- Hoare _ (snapAdd _ _ _ _ _ _ _) _ _ => apply owed_snapAdd; discriminate
  | |- Hoare _ (scAdd _ _ _ _) _ _ => apply owed_scAdd
  | |- Hoare _ (createTemp _) _ _ => apply owed_createTemp
  | |- Hoare _ (dropTemp _ _) _ _ => apply owed_dropTemp
  | |- Hoare _ (lift (logf (LNoChange _))) _ _ => apply owed_noChange
  | |- Hoare _ (lift (logf (changedOrNew _ _))) _ _ => apply owed_changedOrNew
  | |- Hoare _ (lift (logf _)) _ _ => apply owed_log; reflexivity
  | |- Hoare _ (lift _) _ _ =>
      apply owed_frame; intros ?; split_and!; [done | done |];
      first [done | simpl; rewrite unchangedPaths_app; apply app_nil_r]
  end.

Lemma owed_callback e :
  Hoare (Owed []) (callback H cfg env run e) (Owed []) Anything.
Proof.
  unfold callback, visitNode, visitSymlink, visitRegular, stageDelta.
  repeat (cbv zeta; owed_step).
Qed.

Lemma owed_walk es :
  Hoare (Owed []) (walk H cfg env run es) (Owed []) Anything.
Proof.
  induction es as [|e es IH]; simpl; [apply hoare_ret |].
  eapply hoare_seq; [apply owed_callback | exact IH].
Qed.

Lemma owed_tombstones ps :
  Hoare (Owed []) (tombstones env run ps) (Owed []) Anything.
Proof.
  induction ps as [|p ps IH]; simpl; [apply hoare_ret |].
  eapply hoare_seq; [apply owed_log; reflexivity |].
  eapply hoare_seq; [apply owed_tombstone | exact IH].
Qed.

End Balance.

(** ** Growth of the trace *)

Lemma grows_refl Q s : Grows Q s s.
Proof. exists []. by rewrite app_nil_r. Qed.

Lemma grows_trans Q s1 s2 s3 : Grows Q s1 s2 -> Grows Q s2 s3 -> Grows Q s1 s3.
Proof.
  intros (e1 & T1 & D1 & F1) (e2 & T2 & D2 & F2). exists (e1 ++ e2).
  rewrite T2, T1, D2, D1, replay_app, app_assoc. auto using Forall_app_2.
Qed.

Lemma grows_impl (Q Q' : Event -> Prop) s s' :
  (forall ev, Q ev -> Q' ev) -> Grows Q s s' -> Grows Q' s s'.
Proof.
  intros HQ (evs & T & D & F). exists evs. split_and!; [done | done |].
  eapply Forall_impl; eauto.
Qed.

Lemma grows_emit (Q : Event -> Prop) ev s : Q ev -> Grows Q s (emit ev s).
Proof. intros Hq. exists [ev]. split_and!; [done | done | by apply Forall_singleton]. Qed.

Lemma grows_logf Q m s : Grows Q s (logf m s).
Proof. exists []. simpl. by rewrite app_nil_r. Qed.

Lemma benign_sigCache ev (d : Dir) :
  benign ev -> apply_event d ev !! sigCache = d !! sigCache.
Proof.
  destruct ev as [| |n f|n ok|n [|]|a b|n ok]; simpl; intros Hb; try done.
  - by rewrite lookup_insert_ne.
  - by rewrite lookup_delete_ne.
Qed.

Lemma replay_benign evs (d : Dir) :
  Forall benign evs -> replay evs d !! sigCache = d !! sigCache.
Proof.
  revert d. induction evs as [|ev evs IH]; intros d Hb; [done |].
  inversion Hb; subst. simpl. rewrite IH by done. by apply benign_sigCache.
Qed.

(** ** [removeOld] *)

Section RemoveOld.
Context (cfg : Config) (env : Env).

Local Abbreviation Swept := (Swept cfg env).

Lemma swept_nil s : Swept [] s s.
Proof.
  split; try done.
  - apply grows_refl.
  - exists []. by rewrite app_nil_r.
Qed.

Lemma swept_one s name : Swept [name] s (removeOne cfg env s name).
Proof.
  unfold removeOne.
  destruct (HasSuffix name ".gz.enc") eqn:Hgz; simpl.
  2:{ split; try done.
      - apply grows_refl.
      - exists []. by rewrite app_nil_r.
      - intros n. unfold removed. case_bool_decide as Hin; [| done].
        apply list_elem_of_singleton in Hin as ->. by rewrite Hgz. }
  destruct (DryRun cfg) eqn:Hdry; simpl.
  { split; try done.
    - apply grows_logf.
    - exists [LDeleting name true]. split; [done |].
      apply Forall_singleton. by split.
    - intros n. unfold removed. rewrite Hdry. simpl.
      by rewrite !andb_false_r. }
  destruct (env_rmFails env name) eqn:Hrm; simpl.
  - split; try done.
    + exists [EvRemove name false]. split_and!; [done | done |].
      by apply Forall_singleton.
    + exists [LDeleting name false; LDeleteFailed name]. simpl.
      split; [by rewrite <- app_assoc |]. repeat constructor; done.
    + intros n. unfold removed. case_bool_decide as Hin; [| done].
      apply list_elem_of_singleton in Hin as ->.
      by rewrite Hrm, !andb_false_r.
  - split; try done.
    + exists [EvRemove name true]. split_and!; [done | done |].
      by apply Forall_singleton.
    + exists [LDeleting name false]. split; [done |].
      apply Forall_singleton. by split.
    + intros n. unfold removed. simpl. case_bool_decide as Hin.
      * apply list_elem_of_singleton in Hin as ->.
        rewrite Hgz, Hdry, Hrm. simpl. apply lookup_delete_eq.
      * simpl. rewrite lookup_delete_ne; [done |].
        intros ->. apply Hin. by apply list_elem_of_singleton.
Qed.

Lemma swept_app l1 l2 s1 s2 s3 :
  Swept l1 s1 s2 -> Swept l2 s2 s3 -> Swept (l1 ++ l2) s1 s3.
Proof.
  intros [G1 (m1 & L1 & F1) R1 A1 P1 D1] [G2 (m2 & L2 & F2) R2 A2 P2 D2].
  split; try congruence.
  - by eapply grows_trans.
  - exists (m1 ++ m2). rewrite L2, L1, app_assoc. auto using Forall_app_2.
  - intros n. rewrite D2, D1.
    destruct (removed cfg env n); rewrite ?andb_false_r, ?andb_true_r;
      [| done].
    repeat case_bool_decide; try done; exfalso; set_solver.
Qed.

Lemma swept_fold l s : Swept l s (fold_left (removeOne cfg env) l s).
Proof.
  revert s. induction l as [|n l IH]; intros s; [apply swept_nil |].
  simpl. change (n :: l) with ([n] ++ l).
  eapply swept_app; [apply swept_one | apply IH].
Qed.

Lemma elem_of_ReadDir (d : Dir) n : n ∈ ReadDir d <-> is_Some (d !! n).
Proof.
  unfold ReadDir. rewrite merge_sort_Permutation, elem_of_elements.
  apply elem_of_dom.
Qed.

Lemma removeOld_swept s s' :
  removeOld cfg env s = Some s' ->
  Swept (ReadDir (dir s)) s s'
  /\ forall n, dir s' !! n = if removed cfg env n then None else dir s !! n.
Proof.
  unfold removeOld. destruct (env_readDirOk env); [| done].
  intros [= <-]. pose proof (swept_fold (ReadDir (dir s)) s) as Hsw.
  split; [exact Hsw |]. intros n. rewrite (sw_dir _ _ _ _ _ Hsw).
  case_bool_decide as Hin; [done |]. simpl.
  destruct (removed cfg env n); [| done].
  apply eq_None_not_Some. by rewrite <- elem_of_ReadDir.

Qed.

End RemoveOld.

(** ** [setup] *)

(** A failing [NewSnapshot] touches at most the entry of the snapshot. *)
Lemma newSnapshotFailed_records env run s :
  scRecs (NewSnapshotFailed env run s) = scRecs s
  /\ snapRecs (NewSnapshotFailed env run s) = snapRecs s
  /\ log (NewSnapshotFailed env run s) = log s
  /\ pathsToCheck (NewSnapshotFailed env run s) = pathsToCheck s.
Proof. unfold NewSnapshotFailed. by destruct (env_newSnapLeft env). Qed.

Lemma newSnapshotFailed_dir env run s n :
  n <> snapName run ->
  dir (NewSnapshotFailed env run s) !! n = dir s !! n.
Proof.
  intros Hn. unfold NewSnapshotFailed.
  destruct (env_newSnapLeft env); [| done]. simpl.
  by rewrite lookup_insert_ne.
Qed.

Lemma newSnapshotFailed_grows env run s :
  HasSuffix (snapName run) ".gz.enc" = true ->
  Grows benign s (NewSnapshotFailed env run s).
Proof.
  intros Hgz. unfold NewSnapshotFailed.
  destruct (env_newSnapLeft env); [| apply grows_refl].
  apply grows_emit. simpl. by apply gz_not_sigCache.
Qed.

Section Setup.
Context (H : Helpers) (cfg : Config) (env : Env).

Lemma newCache_entries loaded : entries (newCache cfg env loaded) = [].
Proof.
  unfold newCache. destruct loaded as [c|]; [| done].
  by destruct (isFresh cfg (Some c)).
Qed.

Lemma mkRunOf_sc loaded dAbs :
  withEntries (sc (mkRunOf H cfg env loaded dAbs)) [] =
  sc (mkRunOf H cfg env loaded dAbs).
Proof.
  unfold mkRunOf, withEntries. simpl.
  pose proof (newCache_entries loaded) as He.
  destruct (newCache cfg env loaded); simpl in *. by rewrite He.
Qed.

Lemma mkRunOf_gz loaded dAbs :
  HasSuffix (snapName (mkRunOf H cfg env loaded dAbs)) ".gz.enc" = true.
Proof. apply HasSuffix_app. Qed.

Lemma setup_opened d s0 run :
  setup H cfg env d = (s0, inr run) -> Opened H cfg env d run s0.
Proof.
  unfold setup.
  destruct (env_abs env (Clean H (BackupPath cfg))) as [dAbs|] eqn:Habs;
    [| done].
  destruct (env_gid env) as [gid|]; [| done].
  destruct (env_mkdirAllOk env); [| done].
  destruct (env_chownDirOk env); [| done]. simpl.
  destruct (LoadSignatureCache env d) as [loaded err] eqn:Hload.
  destruct (env_newSCOk env); [| done]. simpl.
  set (run' := mkRunOf H cfg env loaded dAbs).
  set (s1 := if bool_decide (err = Some false) then _ else _).
  assert (Hs1 : dir s1 = d /\ trace s1 = [EvMkdirAll; EvChownDir]
                /\ snapRecs s1 = [] /\ scRecs s1 = []
                /\ Forall (removalLog) (log s1)).
  { subst s1. case_bool_decide; simpl; split_and!; try done;
      repeat constructor; done. }
  destruct Hs1 as (Hd1 & Ht1 & Hr1 & Ha1 & Hl1).
  pose proof (mkRunOf_gz loaded dAbs) as Hgz. fold run' in Hgz.
  unfold openRun.
  set (s2 := setPaths _ (emit _ s1)).
  assert (Hd2 : dir s2 = <[inprogress := FCache (sc run')]> d)
    by (subst s2; simpl; by rewrite Hd1).
  destruct (instance (sc run') =? 0)%Z eqn:Hinst.
  - destruct (removeOld cfg env s2) as [s3|] eqn:Hrm; [| done].
    apply removeOld_swept in Hrm as [Hsw Hdir].
    destruct (env_newSnapOk env); [| done]. simpl. intros [= <- <-].
    destruct Hsw as [(evs & T & D & F) (ms & L & FL) R A P _].
    simpl in T, D, L, R, A, P, Hdir, Hd2.
    rewrite Ht1 in T. rewrite Hd1 in D, Hdir.
    split; simpl.
    + exists dAbs. by rewrite Hload.
    + by rewrite R.
    + by rewrite A.
    + by rewrite P.
    + rewrite L. apply Forall_app_2; [| repeat constructor; done].
      apply Forall_app_2; done.
    + exists ([EvMkdirAll; EvChownDir; EvWrite inprogress (FCache (sc run'))]
              ++ evs ++ [EvWrite (snapName run') (FSnapshot (snapHdr run') [])]).
      split_and!.
      * simpl. rewrite T. reflexivity.
      * simpl. rewrite D. simpl. by rewrite replay_app.
      * apply Forall_cons; split; [done |].
        apply Forall_cons; split; [done |].
        apply Forall_cons; split; [by left |].
        apply Forall_app_2; [| apply Forall_singleton; by right].
        eapply Forall_impl; [exact F |]. by intros [].
    + rewrite lookup_insert_ne by (apply gz_not_inprogress; exact Hgz).
      rewrite Hdir, lookup_insert_eq. unfold removed.
      assert (HasSuffix inprogress ".gz.enc" = false) as -> by reflexivity.
      done.
    + by rewrite lookup_insert_eq.
    + intros n Hn1 Hn2. rewrite lookup_insert_ne by done.
      rewrite Hdir. simpl in Hinst. rewrite Hinst. simpl.
      destruct (removed cfg env n); [done | by rewrite lookup_insert_ne].
  - destruct (env_newSnapOk env); [| done]. simpl. intros [= <- <-].
    split; simpl; try done.
    + exists dAbs. by rewrite Hload.
    + apply Forall_app_2; [done | repeat constructor; done].
    + exists [EvMkdirAll; EvChownDir; EvWrite inprogress (FCache (sc run'));
              EvWrite (snapName run') (FSnapshot (snapHdr run') [])].
      split_and!.
      * simpl. by rewrite Ht1.
      * simpl. by rewrite Hd1.
      * apply Forall_cons; split; [done |].
        apply Forall_cons; split; [done |].
        apply Forall_cons; split; [by left |].
        apply Forall_singleton; by right.
    + rewrite lookup_insert_ne by (apply gz_not_inprogress; exact Hgz).
      by rewrite Hd1, lookup_insert_eq.
    + by rewrite lookup_insert_eq.
    + intros n Hn1 Hn2. rewrite !lookup_insert_ne by done.
      simpl in Hinst. by rewrite Hinst, Hd1.
Qed.

End Setup.

(** ** The walk over the roots, the tombstones and the commit *)

Section Body.
Context (H : Helpers) (cfg : Config) (env : Env) (run : Run).
Hypothesis snap_gz : HasSuffix (snapName run) ".gz.enc" = true.

Lemma walkEvent_benign ev : walkEvent run ev -> benign ev.
Proof.
  destruct ev as [| |n f|n ok|n ok|a b|n ok]; simpl; try done.
  - intros [-> | [-> | Ht]];
      [by apply gz_not_sigCache | done | by apply isTemp_not_sigCache].
  - apply isTemp_not_sigCache.
Qed.

Lemma setupEvent_benign ev : setupEvent run ev -> benign ev.
Proof.
  destruct ev as [| |n f|n ok|n ok|a b|n ok]; simpl; try done.
  - intros [-> | ->]; [done | by apply gz_not_sigCache].
  - apply gz_not_sigCache.
Qed.

Lemma owed_walkRoots i roots s s' :
  walkRoots H cfg env run i roots s = (s', None) -> Owed [] s -> Owed [] s'.
Proof.
  revert i s. induction roots as [|r roots IH]; intros i s; simpl.
  - by intros [= <-].
  - pose proof (owed_walk H cfg env run (env_walk env i) s) as Hw.
    destruct (walk H cfg env run (env_walk env i) s) as [s1 [e|]]; [done |].
    intros Hr Hs. eapply IH; [exact Hr | by apply Hw].
Qed.

Lemma files_walkRoots D i roots s :
  FilesInv env run D s ->
  FilesInv env run D (walkRoots H cfg env run i roots s).1.
Proof.
  apply pres_walkRoots. intros e. by apply files_callback.
Qed.

Lemma files_tombstones D ps : Pres (FilesInv env run D) (tombstones env run ps).
Proof.
  induction ps as [|p ps IH]; simpl; [apply pres_ret |].
  apply pres_seq; [by apply files_frame |].
  apply pres_seq; [by apply files_snapAdd | exact IH].
Qed.

Lemma tombstones_cons p ps s :
  tombstones env run (p :: ps) s =
  if env_tombAddOk env p
  then tombstones env run ps
         (emit (EvWrite (snapName run)
                  (FSnapshot (snapHdr run) (snapRecs s ++ [tombOf p])))
            (pushSnap (tombOf p) (logf (LDeleted p) s)))
  else (logf (LDeleted p) s, Some ErrSnapAdd).
Proof.
  simpl. unfold seq at 1. simpl. unfold snapAdd, seq, guard.
  by destruct (env_tombAddOk env p).
Qed.

Lemma tombstones_spec ps s :
  let '(s', r) := tombstones env run ps s in
  Grows (walkEvent run) s s'
  /\ scRecs s' = scRecs s
  /\ pathsToCheck s' = pathsToCheck s
  /\ unchangedPaths (log s') = unchangedPaths (log s)
  /\ exists done_,
       snapRecs s' = snapRecs s ++ map tombOf done_
       /\ (r = None -> done_ = ps).
Proof.
  revert s. induction ps as [|p ps IH]; intros s.
  - simpl. split_and!; try done; [apply grows_refl |].
    exists []. by rewrite app_nil_r.
  - rewrite tombstones_cons. destruct (env_tombAddOk env p).
    + set (s1 := emit _ _). specialize (IH s1).
      destruct (tombstones env run ps s1) as [s' r].
      destruct IH as (G & A & P & U & dn & R & Hdn).
      split_and!.
      * eapply grows_trans; [| exact G]. subst s1.
        apply (grows_trans _ _ (pushSnap (tombOf p) (logf (LDeleted p) s)));
          [exists []; simpl; by rewrite app_nil_r |].
        apply (grows_emit (walkEvent run)). simpl. auto.
      * by rewrite A.
      * by rewrite P.
      * rewrite U. subst s1. simpl. rewrite unchangedPaths_app. simpl.
        apply app_nil_r.
      * exists (p :: dn). split; [| by intros ->%Hdn].
        rewrite R. subst s1. simpl. by rewrite <- app_assoc.
    + split_and!; try done.
      * apply grows_logf.
      * simpl. rewrite unchangedPaths_app. simpl. apply app_nil_r.
      * exists []. by rewrite app_nil_r.
Qed.

Lemma livePaths_tombs l : livePaths (map tombOf l) = [].
Proof.
  induction l as [|p l IH]; [done |].
  change (map tombOf (p :: l)) with ([tombOf p] ++ map tombOf l).
  rewrite livePaths_app, IH, livePaths_tomb; [done |].
  intros Hl. by apply Hl.
Qed.

Lemma tombPaths_tombs l : tombPaths (map tombOf l) = l.
Proof.
  induction l as [|p l IH]; [done |].
  change (map tombOf (p :: l)) with ([tombOf p] ++ map tombOf l).
  rewrite tombPaths_app, IH. unfold tombPaths.
  by rewrite filter_cons_True by (intros Hl; by apply Hl).
Qed.

Lemma tombPaths_live rs : Forall live rs -> tombPaths rs = [].
Proof.
  induction 1 as [|r rs Hr _ IH]; [done |]. unfold tombPaths in *.
  by rewrite filter_cons_False by (intros Hn; by apply Hn).
Qed.

Lemma finish_done s s' :
  finish env run s = (s', Done) ->
  exists l,
    s' = logf (LCompleted (filesExcluded s))
           (fold_left (fun x m => logf m x) l
              (emit (EvChown sigCache (env_chownSigOk env))
                 (emit (EvRename inprogress sigCache)
                    (emit (EvClose inprogress true)
                       (emit (EvClose (snapName run) true) s)))))
    /\ Forall (fun m => noChangeOf m = None) l.
Proof.
  unfold finish. destruct (env_snapCloseOk env); [| done]. simpl.
  destruct (env_scCloseOk env); [| done]. simpl.
  destruct (_ && _); [done |].
  destruct (env_renameOk env); [| done]. simpl.
  destruct (env_chownSigOk env); intros [= <-].
  - by exists [].
  - exists [LChownSigFailed]. split; [done | by apply Forall_singleton].
Qed.

Lemma grows_emit2 (Q : Event -> Prop) a b s :
  Q a -> Q b -> Grows Q s (emit b (emit a s)).
Proof.
  intros Ha Hb. apply grows_trans with (emit a s); by apply grows_emit.
Qed.

Lemma finish_failed s s' o :
  finish env run s = (s', o) -> o <> Done -> Grows benign s s'.
Proof.
  unfold finish. destruct (env_snapCloseOk env); simpl.
  2:{ intros [= <- <-] _. apply grows_emit2; [done |].
      simpl. by apply gz_not_sigCache. }
  destruct (env_scCloseOk env); simpl.
  2:{ intros [= <- <-] _. by apply grows_emit2. }
  destruct (_ && _); [intros [= <- <-] _; by apply grows_emit2 |].
  destruct (env_renameOk env); simpl;
    [| intros [= <- <-] _; by apply grows_emit2].
  by intros [= <- <-].
Qed.

Lemma body_done D s0 s :
  FilesInv env run D s0 -> Owed [] s0 ->
  body H cfg env run s0 = (s, Done) -> Committed H cfg env run s0 s.
Proof.
  intros Hf Ho. unfold body.
  pose proof (files_walkRoots D 0 (Backup_Paths cfg) s0 Hf) as Hf1.
  pose proof (ext_walkRoots H cfg env run (Backup_Paths cfg) 0 s0) as He1.
  pose proof (owed_walkRoots 0 (Backup_Paths cfg) s0) as Ho1.
  destruct (walkRoots H cfg env run 0 (Backup_Paths cfg) s0)
    as [s1 [[root err]|]] eqn:Hw; [done |].
  simpl in Hf1, He1. specialize (Ho1 s1 eq_refl Ho).
  pose proof (tombstones_spec (elements (pathsToCheck s1)) s1) as Ht.
  pose proof (files_tombstones D (elements (pathsToCheck s1)) s1 Hf1) as Hf2.
  destruct (tombstones env run (elements (pathsToCheck s1)) s1) as [s2 [e|]];
    [done |].
  destruct Ht as (G2 & A2 & P2 & U2 & dn & R2 & Hdn).
  rewrite (Hdn eq_refl) in R2. clear Hdn dn.
  intros Hfin. apply finish_done in Hfin as (l & -> & Hl).
  assert (Hlog : forall x, unchangedPaths (log (fold_left (fun x m => logf m x) l x))
                           = unchangedPaths (log x)).
  { clear -Hl. induction Hl as [|m l Hm _ IH]; intros x; [done |].
    simpl. rewrite IH. simpl. rewrite unchangedPaths_app. simpl.
    rewrite Hm. apply app_nil_r. }
  assert (Hsame : forall x,
    dir (fold_left (fun x m => logf m x) l x) = dir x
    /\ trace (fold_left (fun x m => logf m x) l x) = trace x
    /\ snapRecs (fold_left (fun x m => logf m x) l x) = snapRecs x
    /\ scRecs (fold_left (fun x m => logf m x) l x) = scRecs x).
  { clear. induction l as [|m l IH]; intros x; [done |]. simpl.
    destruct (IH (logf m x)) as (-> & -> & -> & ->). done. }
  destruct Hf2 as (Hi2 & Hs2 & Hn2 & Hd2).
  destruct He1 as [(ev1 & T1 & D1 & F1) _ _ _ _].
  destruct G2 as (ev2 & T2 & D2 & F2).
  split.
  - exists s1. split_and!; [exact Hw | | |].
    + simpl. destruct (Hsame (emit (EvChown sigCache (env_chownSigOk env))
        (emit (EvRename inprogress sigCache) (emit (EvClose inprogress true)
        (emit (EvClose (snapName run) true) s2))))) as (_ & _ & -> & _).
      exact R2.
    + simpl. destruct (Hsame (emit (EvChown sigCache (env_chownSigOk env))
        (emit (EvRename inprogress sigCache) (emit (EvClose inprogress true)
        (emit (EvClose (snapName run) true) s2))))) as (_ & _ & _ & ->).
      exact A2.
    + simpl. rewrite unchangedPaths_app. simpl. rewrite app_nil_r, Hlog.
      exact U2.
  - simpl. destruct (Hsame (emit (EvChown sigCache (env_chownSigOk env))
        (emit (EvRename inprogress sigCache) (emit (EvClose inprogress true)
        (emit (EvClose (snapName run) true) s2))))) as (_ & _ & _ & ->).
    exact Hn2.
  - simpl. destruct (Hsame (emit (EvChown sigCache (env_chownSigOk env))
        (emit (EvRename inprogress sigCache) (emit (EvClose inprogress true)
        (emit (EvClose (snapName run) true) s2))))) as (-> & _ & _ & ->).
    simpl. rewrite Hi2. by rewrite lookup_insert_eq.
  - simpl. destruct (Hsame (emit (EvChown sigCache (env_chownSigOk env))
        (emit (EvRename inprogress sigCache) (emit (EvClose inprogress true)
        (emit (EvClose (snapName run) true) s2))))) as (-> & _ & -> & _).
    simpl. rewrite Hi2.
    rewrite lookup_insert_ne by (intros Hx; symmetry in Hx;
                                 by apply gz_not_sigCache in Hx).
    rewrite lookup_delete_ne by (intros Hx; symmetry in Hx;
                                 by apply gz_not_inprogress in Hx).
    exact Hs2.
  - intros Hr n Hne1 Hne2. simpl.
    destruct (Hsame (emit (EvChown sigCache (env_chownSigOk env))
        (emit (EvRename inprogress sigCache) (emit (EvClose inprogress true)
        (emit (EvClose (snapName run) true) s2))))) as (-> & _ & _ & _).
    simpl. rewrite Hi2. rewrite lookup_insert_ne, lookup_delete_ne by done.
    rewrite <- !elem_of_dom, (Hd2 Hr).
    destruct Hf as (_ & _ & _ & Hd0). by rewrite (Hd0 Hr).
  - exists (ev1 ++ ev2 ++ [EvClose (snapName run) true;
                           EvClose inprogress true]), (env_chownSigOk env).
    simpl.
    destruct (Hsame (emit (EvChown sigCache (env_chownSigOk env))
        (emit (EvRename inprogress sigCache) (emit (EvClose inprogress true)
        (emit (EvClose (snapName run) true) s2))))) as (-> & -> & _ & ->).
    simpl. split_and!.
    + rewrite T2, T1. by rewrite <- !app_assoc.
    + rewrite !replay_app. simpl. by rewrite D2, D1.
    + apply Forall_app_2; [eapply Forall_impl; [exact F1 | apply walkEvent_benign] |].
      apply Forall_app_2; [eapply Forall_impl; [exact F2 | apply walkEvent_benign] |].
      repeat constructor.
    + rewrite !elem_of_app. right. right. apply list_elem_of_here.
    + rewrite !elem_of_app. right. right. apply list_elem_of_further, list_elem_of_here.
    + rewrite !replay_app. simpl. rewrite <- D1, <- D2. exact Hi2.
Qed.

End Body.

(** ** Agreement of the cache with the walk *)

Lemma marked_mono run p sig x y :
  (exists l, log y = log x ++ l) -> (exists r, snapRecs y = snapRecs x ++ r) ->
  Marked run p sig x -> Marked run p sig y.
Proof.
  intros [l Hl] [r Hr]. unfold Marked.
  rewrite Hl, Hr, unchangedPaths_app, livePaths_app.
  destruct (Equal _ _); rewrite elem_of_app; auto.
Qed.

Section Agreement.
Context (H : Helpers) (cfg : Config) (env : Env) (run : Run).

Lemma notYet_lift s E f :
  (forall x, scRecs (f x) = scRecs x) ->
  Hoare (NotYet s) (lift f) (NotYet s) E.
Proof. intros Hf. apply hoare_lift. intros x Hx. unfold NotYet. by rewrite Hf. Qed.

Lemma due_lift s p sig E f :
  (forall x, scRecs (f x) = scRecs x
             /\ (exists l, log (f x) = log x ++ l)
             /\ (exists r, snapRecs (f x) = snapRecs x ++ r)) ->
  Hoare (Due run s p sig) (lift f) (Due run s p sig) E.
Proof.
  intros Hf. apply hoare_lift. intros x [Hx M]. destruct (Hf x) as (A & L & R).
  split; [by rewrite A | by eapply marked_mono].
Qed.

Lemma listed_lift s p sig E f :
  (forall x, scRecs (f x) = scRecs x
             /\ (exists l, log (f x) = log x ++ l)
             /\ (exists r, snapRecs (f x) = snapRecs x ++ r)) ->
  Hoare (Listed run s p sig) (lift f) (Listed run s p sig) E.
Proof.
  intros Hf. apply hoare_lift. intros x [Hx M]. destruct (Hf x) as (A & L & R).
  split; [by rewrite A | by eapply marked_mono].
Qed.

Lemma agree_createTemp s tmp :
  Hoare (NotYet s) (createTemp tmp) (NotYet s) Anything.
Proof.
  intros x Hx. unfold createTemp. destruct (dir x !! tmp);
    [exact Logic.I | exact Hx].
Qed.

Lemma agree_noChange s p sig E :
  Equal (Get (existingSC run) p) sig = true ->
  Hoare (NotYet s) (lift (logf (LNoChange p))) (Due run s p sig) E.
Proof.
  intros Heq. apply hoare_lift. intros x Hx. split; [exact Hx |].
  unfold Marked. rewrite Heq. simpl. rewrite unchangedPaths_app, elem_of_app.
  right. apply list_elem_of_here.
Qed.

Lemma agree_snapAdd s p sig ok md k from content size :
  Path md = p -> k <> KTombstone ->
  Equal (Get (existingSC run) p) sig = false ->
  Hoare (NotYet s) (snapAdd run ok md k from content size) (Due run s p sig)
    Anything.
Proof.
  intros <- Hk Heq. unfold snapAdd.
  eapply hoare_seq; [apply hoare_guard_any |].
  apply hoare_lift. intros x Hx. split; [exact Hx |].
  unfold Marked. rewrite Heq. simpl.
  rewrite livePaths_app, livePaths_live by exact Hk.
  rewrite elem_of_app. right. apply list_elem_of_here.
Qed.

Lemma agree_scAdd s p sig sig' ok :
  sig' = sig ->
  Hoare (Due run s p sig) (scAdd run ok p sig') (Listed run s p sig) Anything.
Proof.
  intros -> x [Hx M]. unfold scAdd. case_bool_decide; [exact Logic.I |].
  destruct ok; [| exact Logic.I]. split; [simpl; by rewrite Hx | exact M].
Qed.

(** Follows a callback to the record of the cache. *)
Ltac agree_quiet :=
  intros ?; simpl; split_and!;
  first [done | by eexists | by (exists []; rewrite app_nil_r)].

Ltac agree_step :=
  lazymatch goal with
  | |- Hoare _ (seq _ _) _ _ => eapply hoare_seq
  | |- Hoare _ ret _ _ => apply hoare_ret
  | |- Hoare _ (fail _) _ _ => apply hoare_fail_any
  | |- Hoare _ (guard _ _) _ _ => apply hoare_guard_any
  | |- Hoare _ (attempt _ _) _ _ => apply hoare_attempt_any
  | |- Hoare _ (if ?b then _ else _) _ _ => destruct b eqn:?
  | |- Hoare _ (match ?o with _ => _ end) _ _ => destruct o eqn:?
  | |- Hoare _ (dropTemp _ _) _ _ => unfold dropTemp, doRemove
  | |- Hoare (NotYet _) (createTemp _) _ _ => apply agree_createTemp
  | |- Hoare (NotYet _) (snapAdd _ _ _ _ _ _ _) _ _ =>
      match goal with
      | Hb : negb (Equal (Get _ ?q) ?g) = true |- _ =>
          apply (agree_snapAdd _ q g);
          [reflexivity | discriminate | by apply negb_true_iff in Hb]
      end
  | |- Hoare (NotYet _) (lift (logf (LNoChange _))) _ _ =>
      match goal with
      | Hb : negb (Equal (Get _ ?q) ?g) = false |- _ =>
          apply (agree_noChange _ q g); by apply negb_false_iff in Hb
      end
  | |- Hoare (Due _ _ _ _) (scAdd _ _ _ _) _ _ =>
      apply agree_scAdd;
      first [ reflexivity
            | match goal with
              | Hb : negb (Equal _ _) = false |- _ =>
                  apply negb_false_iff in Hb; unfold Equal in Hb;
                  by apply bool_decide_eq_true in Hb
              end ]
  | |- Hoare (NotYet _) (lift _) _ _ => apply notYet_lift; by intros ?
  | |- Hoare (Due _ _ _ _) (lift _) _ _ => apply due_lift; agree_quiet
  | |- Hoare (Listed _ _ _ _) (lift _) _ _ => apply listed_lift; agree_quiet
  end.

Lemma agree_visitNode s e p a :
  Hoare (NotYet s)
    (visitNode H run e p (mkMetadata p a) (Get (existingSC run) p))
    (Listed run s p (GenSignature H (mkMetadata p a) None 0)) Anything.
Proof. unfold visitNode. repeat (cbv zeta; agree_step). Qed.

Lemma agree_visitSymlink s e p a dest :
  w_readlink e = Some dest ->
  Hoare (NotYet s)
    (visitSymlink H run e p (mkMetadata p a) (Get (existingSC run) p))
    (Listed run s p
       (GenSignature H (mkMetadata p a) (Some (bytesOf dest))
          (len (bytesOf dest))))
    Anything.
Proof.
  intros Hrl. unfold visitSymlink. rewrite Hrl.
  repeat (cbv zeta; agree_step).
Qed.

Lemma agree_visitRegular s e p a content :
  w_open e = Some content ->
  Hoare (NotYet s)
    (visitRegular H env run e p (mkMetadata p a) (Get (existingSC run) p))
    (Listed run s p
       (GenSignature H (mkMetadata p a) (Some content) (w_size e)))
    Anything.
Proof.
  intros Hop. unfold visitRegular, stageDelta. rewrite Hop.
  repeat (cbv zeta; agree_step).
Qed.

(** An entry that comes to the switch on the mode. *)
Lemma agree_callback s e p a :
  classified H cfg run e p a ->
  Hoare (NotYet s) (callback H cfg env run e) (Settled H run s e p a) Anything.
Proof.
  intros (He & Hc & Ha & Hp & Hx & Hm & Hg).
  unfold callback. rewrite He, Hc, Ha, Hp, Hx, Hm, Hg. cbv zeta.
  eapply hoare_seq; [apply hoare_guard_any |].
  unfold Settled, signatureOf, NewMetadata. cbv zeta.
  destruct (isSocket H (Mode a)).
  { apply notYet_lift. by intros ?. }
  destruct (_ || _); [apply agree_visitNode |].
  destruct (isSymlink H (Mode a)).
  - destruct (w_readlink e) as [dest|] eqn:Hrl;
      [by apply agree_visitSymlink |].
    unfold visitSymlink. rewrite Hrl. apply hoare_fail_any.
  - destruct (w_open e) as [content|] eqn:Hop;
      [by apply agree_visitRegular |].
    unfold visitRegular. rewrite Hop. apply notYet_lift. by intros ?.
Qed.

(** An entry that is turned away before the switch. *)
Lemma agree_callback_other s e :
  (forall p a, ~ classified H cfg run e p a) ->
  Hoare (NotYet s) (callback H cfg env run e) (NotYet s) Anything.
Proof.
  intros Hn. unfold callback.
  destruct (w_err e) eqn:He; [apply notYet_lift; by intros ? |].
  destruct (w_ctxErr e) eqn:Hc; [apply hoare_fail_any |].
  destruct (w_abs e) as [p|] eqn:Ha; [| apply hoare_fail_any].
  destruct (HasPrefix p (destDirAbs run)) eqn:Hp; [apply hoare_ret |].
  destruct (isExcluded H cfg p) eqn:Hx; [apply notYet_lift; by intros ? |].
  destruct (w_metadata e) as [a|] eqn:Hm; [| apply hoare_fail_any].
  destruct (w_getOk e) eqn:Hg.
  - destruct (Hn p a). by repeat split.
  - intros x _. unfold seq. simpl. exact Logic.I.
Qed.

Lemma classified_cases e :
  (exists p a, classified H cfg run e p a)
  \/ (forall p a, ~ classified H cfg run e p a).
Proof.
  unfold classified.
  destruct (w_err e); [right; by intros p a (? & _) |].
  destruct (w_ctxErr e); [right; by intros p a (_ & ? & _) |].
  destruct (w_abs e) as [p|]; [| right; by intros p a (_ & _ & ? & _)].
  destruct (HasPrefix p (destDirAbs run)) eqn:Hp;
    [right; intros p' a (_ & _ & [= <-] & ? & _); congruence |].
  destruct (isExcluded H cfg p) eqn:Hx;
    [right; intros p' a (_ & _ & [= <-] & _ & ? & _); congruence |].
  destruct (w_metadata e) as [a|];
    [| right; by intros p' a (_ & _ & _ & _ & _ & ? & _)].
  destruct (w_getOk e);
    [| right; by intros p' a' (_ & _ & _ & _ & _ & _ & ?)].
  left. by exists p, a.
Qed.

Lemma classified_inj e p a p' a' :
  classified H cfg run e p a -> classified H cfg run e p' a' ->
  p' = p /\ a' = a.
Proof.
  intros (_ & _ & Ha & _ & _ & Hm & _) (_ & _ & Ha' & _ & _ & Hm' & _).
  split; congruence.
Qed.

Lemma agrees_callback es e s s' :
  Agrees H cfg run es s -> callback H cfg env run e s = (s', None) ->
  Agrees H cfg run (es ++ [e]) s'.
Proof.
  intros [Hs Hc] Hcb.
  pose proof (ext_callback H cfg env run s e s (ext_refl H cfg run s)) as Hext.
  rewrite Hcb in Hext.
  destruct Hext as [_ (l & Hl & _) (r & Hr & _) _ _].
  assert (Hmono : forall q g, Marked run q g s -> Marked run q g s')
    by (intros q g; apply marked_mono; by eexists).
  assert (Hold : scRecs s' = scRecs s ->
    Agrees H cfg run es s').
  { intros Hsc. split.
    - intros q g. rewrite Hsc. intros Hin.
      destruct (Hs q g Hin) as (e' & a' & He' & Hcl' & Hsig' & Hm').
      exists e', a'. split_and!; auto.
    - intros e' q a' g He' Hcl' Hsig'. rewrite Hsc. by eapply Hc. }
  assert (Hmore : forall x, Agrees H cfg run es x ->
    (forall q a g, classified H cfg run e q a ->
                   signatureOf H e q a = Some g -> (q, g) ∈ scRecs x) ->
    Agrees H cfg run (es ++ [e]) x).
  { intros x [Hxs Hxc] Hnew. split.
    - intros q g Hin.
      destruct (Hxs q g Hin) as (e' & a' & He' & Hcl' & Hsig' & Hm').
      exists e', a'. rewrite elem_of_app. split_and!; auto.
    - intros e' q a' g. rewrite elem_of_app, list_elem_of_singleton.
      intros [He' | ->] Hcl' Hsig'; [by eapply Hxc | by eapply Hnew]. }
  destruct (classified_cases e) as [(p & a & Hcl) | Hn].
  - pose proof (agree_callback s e p a Hcl s eq_refl) as Hag.
    rewrite Hcb in Hag. unfold Settled in Hag.
    destruct (signatureOf H e p a) as [sig|] eqn:Hsig.
    + destruct Hag as [Hsc Hm]. split.
      * intros q g. rewrite Hsc, elem_of_app, list_elem_of_singleton.
        intros [Hin | [= -> ->]].
        -- destruct (Hs q g Hin) as (e' & a' & He' & Hcl' & Hsig' & Hm').
           exists e', a'. rewrite elem_of_app. split_and!; auto.
        -- exists e, a. rewrite elem_of_app, list_elem_of_singleton.
           split_and!; auto.
      * intros e' q a' g. rewrite elem_of_app, list_elem_of_singleton.
        intros [He' | ->] Hcl' Hsig'.
        -- rewrite Hsc, elem_of_app. left. by eapply Hc.
        -- destruct (classified_inj _ _ _ _ _ Hcl Hcl') as [-> ->].
           rewrite Hsig in Hsig'. injection Hsig' as <-.
           rewrite Hsc, elem_of_app, list_elem_of_singleton. by right.
    + apply Hmore; [by apply Hold |]. intros q a' g Hcl' Hsig'.
      destruct (classified_inj _ _ _ _ _ Hcl Hcl') as [-> ->]. congruence.
  - pose proof (agree_callback_other s e Hn s eq_refl) as Hag.
    rewrite Hcb in Hag. apply Hmore; [by apply Hold |].
    intros q a g Hcl. by destruct (Hn q a).
Qed.

Lemma agrees_walk es0 es s s' :
  Agrees H cfg run es0 s -> walk H cfg env run es s = (s', None) ->
  Agrees H cfg run (es0 ++ es) s'.
Proof.
  revert es0 s. induction es as [|e es IH]; intros es0 s Hs; simpl.
  - intros [= <-]. by rewrite app_nil_r.
  - unfold seq. destruct (callback H cfg env run e s) as [s1 [err|]] eqn:Hcb;
      [done |].
    intros Hw.
    replace (es0 ++ e :: es) with ((es0 ++ [e]) ++ es)
      by (by rewrite <- app_assoc).
    eapply IH; [| exact Hw]. by eapply agrees_callback.
Qed.

Lemma agrees_walkRoots roots i es0 s s' :
  Agrees H cfg run es0 s ->
  walkRoots H cfg env run i roots s = (s', None) ->
  Agrees H cfg run
    (es0 ++ flat_map (env_walk env) (List.seq i (length roots))) s'.
Proof.
  revert i es0 s. induction roots as [|r roots IH]; intros i es0 s Hs; simpl.
  - intros [= <-]. by rewrite app_nil_r.
  - destruct (walk H cfg env run (env_walk env i) s) as [s1 [err|]] eqn:Hw;
      [done |].
    intros Hr. rewrite app_assoc.
    eapply IH; [| exact Hr]. by eapply agrees_walk.
Qed.

End Agreement.

(** ** Runs of [backup] *)

Section Runs.
Context (H : Helpers) (cfg : Config) (env : Env).

Lemma setup_not_done d s o : setup H cfg env d = (s, inl o) -> o <> Done.
Proof.
  unfold setup.
  destruct (env_abs env _); [| by intros [= <- <-]].
  destruct (env_gid env); [| by intros [= <- <-]].
  destruct (env_mkdirAllOk env); [| by intros [= <- <-]].
  destruct (env_chownDirOk env); [| by intros [= <- <-]]. simpl.
  destruct (LoadSignatureCache env d) as [loaded err].
  destruct (env_newSCOk env); [| by intros [= <- <-]]. simpl.
  unfold openRun.
  destruct (if (instance _ =? 0)%Z then _ else _); [| by intros [= <- <-]].
  destruct (env_newSnapOk env); simpl; [done | by intros [= <- <-]].
Qed.

Lemma unchanged_none l :
  Forall (fun m => noChangeOf m = None /\ forall p, m <> LDeleted p) l ->
  unchangedPaths l = [].
Proof.
  induction 1 as [|m l [Hm _] _ IH]; [done |].
  change (m :: l) with ([m] ++ l). rewrite unchangedPaths_app, IH.
  simpl. by rewrite Hm.
Qed.

Lemma opened_gz d run s0 :
  Opened H cfg env d run s0 -> HasSuffix (snapName run) ".gz.enc" = true.
Proof. intros [(dAbs & _ & ->) _ _ _ _ _ _ _ _]. apply mkRunOf_gz. Qed.

Lemma opened_files d run s0 :
  Opened H cfg env d run s0 -> FilesInv env run (dom (dir s0)) s0.
Proof.
  intros [(dAbs & _ & Hrun) Hr Ha _ _ _ Hi Hs _]. unfold FilesInv.
  rewrite Hr, Ha, Hi, Hs. split_and!; try done.
  - subst run. by rewrite mkRunOf_sc.
  - constructor.
Qed.

Lemma opened_owed d run s0 : Opened H cfg env d run s0 -> Owed [] s0.
Proof.
  intros [_ Hr Ha _ Hl _ _ _ _]. unfold Owed.
  by rewrite Hr, Ha, (unchanged_none _ Hl).
Qed.

Lemma backup_done d s :
  backup H cfg env d = (s, Done) ->
  exists s0 run,
    setup H cfg env d = (s0, inr run)
    /\ Opened H cfg env d run s0
    /\ Committed H cfg env run s0 s.
Proof.
  unfold backup. destruct (setup H cfg env d) as [s0 [o|run]] eqn:Hset.
  - intros [= <- ->]. by apply setup_not_done in Hset.
  - intros Hb. exists s0, run. pose proof (setup_opened _ _ _ _ _ _ Hset) as Hop.
    split_and!; [done | done |].
    eapply body_done;
      [exact (opened_gz _ _ _ Hop) | exact (opened_files _ _ _ Hop)
      | exact (opened_owed _ _ _ Hop) | exact Hb].
Qed.

Lemma grows_setPaths Q ps s : Grows Q s (setPaths ps s).
Proof. exists []. simpl. by rewrite app_nil_r. Qed.

Lemma swept_benign l s s' : Swept cfg env l s s' -> Grows benign s s'.
Proof.
  intros [G _ _ _ _ _]. eapply grows_impl; [| exact G].
  intros [| |n f|n ok|n ok|a b|n ok]; simpl; try done.
  apply gz_not_sigCache.
Qed.

Lemma setup_failed d s o :
  setup H cfg env d = (s, inl o) -> Grows benign (initState d) s.
Proof.
  unfold setup.
  set (s0 := logf LStarting (initState d)).
  assert (G0 : Grows benign (initState d) s0) by apply grows_logf.
  destruct (env_abs env _) as [dAbs|]; [| by intros [= <- <-]].
  destruct (env_gid env); [| by intros [= <- <-]].
  destruct (env_mkdirAllOk env); [| by intros [= <- <-]].
  assert (G1 : Grows benign (initState d) (emit EvChownDir (emit EvMkdirAll s0))).
  { eapply grows_trans; [exact G0 | by apply grows_emit2]. }
  destruct (env_chownDirOk env); simpl.
  2:{ intros [= <- <-]. eapply grows_trans; [exact G0 | by apply grows_emit]. }
  destruct (LoadSignatureCache env d) as [loaded err].
  set (s1 := if bool_decide (err = Some false) then _ else _).
  assert (G2 : Grows benign (initState d) s1).
  { subst s1. case_bool_decide; [| exact G1].
    eapply grows_trans; [exact G1 | apply grows_logf]. }
  destruct (env_newSCOk env); [| by intros [= <- <-]]. simpl.
  set (run := mkRunOf H cfg env loaded dAbs).
  unfold openRun.
  set (s2 := setPaths _ (emit _ s1)).
  assert (G3 : Grows benign (initState d) s2).
  { eapply grows_trans; [exact G2 |].
    subst s2. eapply grows_trans; [| apply grows_setPaths].
    by apply (grows_emit benign). }
  destruct (instance (sc run) =? 0)%Z.
  - destruct (removeOld cfg env s2) as [s3|] eqn:Hrm; [| by intros [= <- <-]].
    apply removeOld_swept in Hrm as [Hsw _].
    destruct (env_newSnapOk env); simpl; [done |]. intros [= <- <-].
    eapply grows_trans; [exact G3 |].
    eapply grows_trans; [by eapply swept_benign |].
    eapply grows_trans; [apply grows_logf |].
    apply newSnapshotFailed_grows, mkRunOf_gz.
  - destruct (env_newSnapOk env); simpl; [done |]. intros [= <- <-].
    eapply grows_trans; [exact G3 |].
    eapply grows_trans; [apply grows_logf |].
    apply newSnapshotFailed_grows, mkRunOf_gz.
Qed.

Lemma body_failed run s0 s o :
  HasSuffix (snapName run) ".gz.enc" = true ->
  body H cfg env run s0 = (s, o) -> o <> Done -> Grows benign s0 s.
Proof.
  intros Hgz. unfold body.
  pose proof (ext_walkRoots H cfg env run (Backup_Paths cfg) 0 s0) as He1.
  assert (Hdrop : forall x, Grows benign x (dropSnapshot env run x)).
  { intros x. apply grows_emit2; [done | simpl; by apply gz_not_sigCache]. }
  destruct (walkRoots H cfg env run 0 (Backup_Paths cfg) s0)
    as [s1 [[root err]|]].
  - intros [= <- <-] _. destruct He1 as [G _ _ _ _].
    eapply grows_trans; [| apply Hdrop].
    eapply grows_impl; [| exact G]. by apply walkEvent_benign.
  - pose proof (tombstones_spec env run (elements (pathsToCheck s1)) s1) as Ht.
    destruct He1 as [G1 _ _ _ _]. simpl in G1.
    assert (G1' : Grows benign s0 s1)
      by (eapply grows_impl; [| exact G1]; by apply walkEvent_benign).
    destruct (tombstones env run (elements (pathsToCheck s1)) s1)
      as [s2 [e|]]; destruct Ht as (G2 & _).
    + intros [= <- <-] _. eapply grows_trans; [exact G1' |].
      eapply grows_trans; [| apply Hdrop].
      eapply grows_impl; [| exact G2]. by apply walkEvent_benign.
    + intros Hfin Hne. eapply grows_trans; [exact G1' |].
      eapply grows_trans;
        [eapply grows_impl; [| exact G2]; by apply walkEvent_benign |].
      by eapply finish_failed.
Qed.

Lemma backup_failed d s o :
  backup H cfg env d = (s, o) -> o <> Done -> Grows benign (initState d) s.
Proof.
  unfold backup. destruct (setup H cfg env d) as [s0 [o'|run]] eqn:Hset.
  - intros [= <- <-] _. by eapply setup_failed.
  - intros Hb Hne. pose proof (setup_opened _ _ _ _ _ _ Hset) as Hop.
    eapply grows_trans; [| eapply body_failed; eauto using opened_gz].
    eapply grows_impl; [| exact (op_grows _ _ _ _ _ _ Hop)].
    apply setupEvent_benign. by eapply opened_gz.
Qed.

Lemma setup_failed_records d s o :
  setup H cfg env d = (s, inl o) -> scRecs s = [] /\ snapRecs s = [].
Proof.
  unfold setup.
  destruct (env_abs env _) as [dAbs|]; [| by intros [= <- <-]].
  destruct (env_gid env); [| by intros [= <- <-]].
  destruct (env_mkdirAllOk env); [| by intros [= <- <-]].
  destruct (env_chownDirOk env); simpl; [| by intros [= <- <-]].
  destruct (LoadSignatureCache env d) as [loaded err].
  set (s1 := if bool_decide (err = Some false) then _ else _).
  assert (Hs1 : scRecs s1 = [] /\ snapRecs s1 = [])
    by (subst s1; by case_bool_decide).
  destruct (env_newSCOk env); [| by intros [= <- <-]]. simpl.
  unfold openRun. set (s2 := setPaths _ (emit _ s1)).
  destruct (instance _ =? 0)%Z.
  - destruct (removeOld cfg env s2) as [s3|] eqn:Hrm; [| by intros [= <- <-]].
    apply removeOld_swept in Hrm as [[_ _ R A _ _] _].
    destruct (env_newSnapOk env); simpl; [done |]. intros [= <- <-].
    match goal with
    | |- context [NewSnapshotFailed ?e ?r ?x] =>
        destruct (newSnapshotFailed_records e r x) as (-> & -> & _)
    end.
    simpl. by rewrite R, A.
  - destruct (env_newSnapOk env); simpl; [done |]. intros [= <- <-].
    match goal with
    | |- context [NewSnapshotFailed ?e ?r ?x] =>
        destruct (newSnapshotFailed_records e r x) as (-> & -> & _)
    end.
    done.
Qed.

Lemma body_records run s0 s o :
  body H cfg env run s0 = (s, o) ->
  exists s1 dn,
    WalkExt H cfg run s0 s1
    /\ scRecs s = scRecs s1
    /\ snapRecs s = snapRecs s1 ++ map tombOf dn
    /\ (o = Done -> dn = elements (pathsToCheck s1)).
Proof.
  unfold body.
  pose proof (ext_walkRoots H cfg env run (Backup_Paths cfg) 0 s0) as He1.
  destruct (walkRoots H cfg env run 0 (Backup_Paths cfg) s0)
    as [s1 [[root err]|]]; simpl in He1.
  - intros [= <- <-]. exists s1, []. simpl. by rewrite app_nil_r.
  - pose proof (tombstones_spec env run (elements (pathsToCheck s1)) s1) as Ht.
    destruct (tombstones env run (elements (pathsToCheck s1)) s1)
      as [s2 [e|]]; destruct Ht as (_ & A & _ & _ & dn & R & Hdn).
    + intros [= <- <-]. exists s1, dn. by simpl.
    + intros Hfin. exists s1, dn. rewrite (Hdn eq_refl) in *.
      assert (scRecs s = scRecs s2 /\ snapRecs s = snapRecs s2) as [-> ->];
        [| done].
      revert Hfin. unfold finish.
      destruct (env_snapCloseOk env); simpl; [| by intros [= <- <-]].
      destruct (env_scCloseOk env); simpl; [| by intros [= <- <-]].
      destruct (_ && _); [by intros [= <- <-] |].
      destruct (env_renameOk env); simpl; [| by intros [= <- <-]].
      destruct (env_chownSigOk env); by intros [= <- <-].
Qed.

(** The paths the walk passes over are neither recorded live nor added
    to the cache, and a run that returns [nil] gives a tombstone to
    exactly those of them that the cache in use lists. *)
Lemma skipped_paths d s0 run s o p :
  setup H cfg env d = (s0, inr run) ->
  body H cfg env run s0 = (s, o) ->
  ~ admissible H cfg run p ->
  (p ∉ (scRecs s).*1)
  /\ (p ∉ livePaths (snapRecs s))
  /\ (o = Done -> (p ∈ tombPaths (snapRecs s) <-> p ∈ Paths (existingSC run))).
Proof.
  intros Hset Hb Hp. pose proof (setup_opened _ _ _ _ _ _ Hset) as Hop.
  apply body_records in Hb as (s1 & dn & He & A & R & Hdn).
  destruct He as [_ _ (rs & R1 & Fr) (a & A1 & Fa) [P1 P1']].
  rewrite (op_snap _ _ _ _ _ _ Hop) in R1.
  rewrite (op_sc _ _ _ _ _ _ Hop) in A1. simpl in R1, A1.
  rewrite A, R, A1, R1, livePaths_app, livePaths_tombs, app_nil_r.
  rewrite tombPaths_app, tombPaths_tombs, tombPaths_live
    by (eapply Forall_impl; [exact Fr |]; by intros r []).
  simpl. split_and!.
  - intros (x & -> & Hx)%list_elem_of_fmap.
    rewrite Forall_forall in Fa. by apply Hp, Fa.
  - unfold livePaths. intros (r & -> & Hr%list_elem_of_filter)%list_elem_of_fmap.
    destruct Hr as [_ Hr]. rewrite Forall_forall in Fr.
    by apply Hp, Fr.
  - intros ->%Hdn. rewrite elem_of_elements.
    rewrite <- (op_paths _ _ _ _ _ _ Hop). split; [apply P1 | intros; by apply P1'].
Qed.

Lemma prefix_of_snoc2 (pre : list Event) a b evs :
  evs `prefix_of` pre ++ [a; b] ->
  evs `prefix_of` pre \/ evs = pre ++ [a] \/ evs = pre ++ [a; b].
Proof.
  intros [k Hk]. symmetry in Hk. apply app_eq_inv in Hk as [(k' & -> & Hk)|(k' & -> & Hk)].
  - destruct k' as [|x k']; [left; by rewrite app_nil_r |].
    destruct k' as [|y k']; [| destruct k' as [|z k']]; simplify_eq/=; auto.
  - left. by exists k'.
Qed.

Lemma replay_prefix_benign (pre evs : list Event) (d : Dir) :
  Forall benign pre -> evs `prefix_of` pre ->
  replay evs d !! sigCache = d !! sigCache.
Proof.
  intros Hb [k ->]. apply replay_benign. by apply Forall_app in Hb as [Hb _].
Qed.

(** C1. The committed signature cache of a successful run lists, each
    exactly once, the paths that received a record of kind 0, 1 or 2 in
    the snapshot of the run and the paths whose signature equalled the
    cached one; no other path is in it.  Each of its records is the path
    of an entry of the walk that came to the switch on the file mode,
    with the signature computed for that entry in this run; the path was
    found unchanged exactly when that signature is byte-equal to what the
    cache in use returns for it, and it has a live record in the snapshot
    exactly when it is not.  Every entry of the walk that came to the
    switch and got a signature is in the cache. *)
Theorem cache_snapshot_agreement d s :
  backup H cfg env d = (s, Done) ->
  exists s0 run c,
    setup H cfg env d = (s0, inr run)
    /\ dir s !! sigCache = Some (FCache c)
    /\ dir s !! snapName run = Some (FSnapshot (snapHdr run) (snapRecs s))
    /\ entries c = scRecs s
    /\ NoDup (entries c).*1
    /\ (entries c).*1 ≡ₚ livePaths (snapRecs s) ++ unchangedPaths (log s)
    /\ (forall p, p ∈ (entries c).*1 <->
          p ∈ livePaths (snapRecs s) \/ p ∈ unchangedPaths (log s))
    /\ (forall p sig, (p, sig) ∈ entries c ->
          exists e a,
            e ∈ walked env (length (Backup_Paths cfg))
            /\ classified H cfg run e p a
            /\ signatureOf H e p a = Some sig
            /\ (p ∈ unchangedPaths (log s)
                <-> Get (existingSC run) p = sig)
            /\ (p ∈ livePaths (snapRecs s)
                <-> Get (existingSC run) p <> sig))
    /\ (forall e p a sig,
          e ∈ walked env (length (Backup_Paths cfg)) ->
          classified H cfg run e p a ->
          signatureOf H e p a = Some sig ->
          (p, sig) ∈ entries c).
Proof.
  intros (s0 & run & Hset & Hop & Hc)%backup_done.
  destruct Hc as [(s1 & Hw & R & A & U) Hn Hcache Hsnap _ _].
  exists s0, run, (withEntries (sc run) (scRecs s)).
  assert (Hperm : (scRecs s).*1 ≡ₚ
                  livePaths (snapRecs s) ++ unchangedPaths (log s)).
  { pose proof (owed_walkRoots H cfg env run _ _ _ _ Hw (opened_owed _ _ _ Hop))
      as Ho.
    unfold Owed in Ho. rewrite app_nil_r in Ho.
    by rewrite R, livePaths_app, livePaths_tombs, app_nil_r, A, U. }
  assert (Hag : Agrees H cfg run (walked env (length (Backup_Paths cfg))) s1).
  { apply (agrees_walkRoots H cfg env run (Backup_Paths cfg) 0 [] s0 s1);
      [| exact Hw].
    destruct Hop as [_ _ Hsc _ _ _ _ _ _]. split.
    - intros p sig. rewrite Hsc. by intros ?%elem_of_nil.
    - by intros e p a sig ?%elem_of_nil. }
  destruct Hag as [Hsound Hcomplete].
  assert (Hdisj : forall p, p ∈ livePaths (snapRecs s) ->
                    p ∈ unchangedPaths (log s) -> False).
  { rewrite Hperm in Hn. apply NoDup_app in Hn as (_ & Hd & _).
    intros p Hl Hu. by apply (Hd p). }
  split_and!; try done.
  - intros p. simpl. rewrite Hperm. apply elem_of_app.
  - simpl. rewrite A. intros p sig Hin.
    destruct (Hsound p sig Hin) as (e & a & He & Hcl & Hsig & Hm).
    exists e, a. split_and!; try done.
    all: assert (Hm' : Marked run p sig s)
      by (unfold Marked in *;
          by rewrite U, R, livePaths_app, livePaths_tombs, app_nil_r);
      unfold Marked, Equal in Hm'; case_bool_decide as Heq.
    + done.
    + split; [| done]. intros Hu. by destruct (Hdisj p).
    + split; [| done]. intros Hl. by destruct (Hdisj p).
    + done.
  - simpl. rewrite A. exact Hcomplete.
Qed.

(** C2. At every point of a run the entry [sig.cache] holds either what
    it held before the run or the complete new cache: every operation of
    the run but one leaves it as it is, and that one is the rename of
    [sig.cache.inprogress] over it, issued once, in a run that returns
    [nil], after the snapshot and the new cache were closed without
    error. *)
Theorem sigCache_atomic d s o :
  backup H cfg env d = (s, o) ->
  dir s = replay (trace s) d
  /\ (exists pre post,
        trace s = pre ++ post
        /\ Forall benign pre
        /\ (post = []
            \/ exists ok name c,
                 post = [EvRename inprogress sigCache; EvChown sigCache ok]
                 /\ o = Done
                 /\ HasSuffix name ".gz.enc" = true
                 /\ EvClose name true ∈ pre
                 /\ EvClose inprogress true ∈ pre
                 /\ replay pre d !! inprogress = Some (FCache c)
                 /\ entries c = scRecs s
                 /\ dir s !! sigCache = Some (FCache c)))
  /\ forall evs, evs `prefix_of` trace s ->
       replay evs d !! sigCache = d !! sigCache
       \/ (o = Done /\ replay evs d !! sigCache = dir s !! sigCache).
Proof.
  intros Hb.
  assert (o = Done \/ o <> Done) as [-> | Hne]
    by (destruct o; [by left | by right | by right]).
  - apply backup_done in Hb as (s0 & run & Hset & Hop & Hc).
    destruct Hc as [_ _ Hcache _ _ (evs & ok & T & D & F & C1 & C2 & I)].
    destruct (op_grows _ _ _ _ _ _ Hop) as (ev0 & T0 & D0 & F0).
    simpl in T0, D0.
    assert (Hb0 : Forall benign (ev0 ++ evs)).
    { apply Forall_app_2; [| exact F].
      eapply Forall_impl; [exact F0 |]. apply setupEvent_benign.
      by eapply opened_gz. }
    assert (Htr : trace s = (ev0 ++ evs)
                    ++ [EvRename inprogress sigCache; EvChown sigCache ok])
      by (by rewrite T, T0, <- app_assoc).
    assert (Hin : replay (ev0 ++ evs) d !! inprogress
                  = Some (FCache (withEntries (sc run) (scRecs s))))
      by (by rewrite replay_app, <- D0).
    assert (Hdir : dir s = replay (trace s) d).
    { rewrite D, Htr, D0, !replay_app. done. }
    split_and!; [exact Hdir | |].
    + exists (ev0 ++ evs), [EvRename inprogress sigCache; EvChown sigCache ok].
      split_and!; [exact Htr | exact Hb0 |]. right.
      exists ok, (snapName run), (withEntries (sc run) (scRecs s)).
      split_and!; try done.
      * by eapply opened_gz.
      * apply elem_of_app. by right.
      * apply elem_of_app. by right.
    + intros es Hes. rewrite Htr in Hes.
      apply prefix_of_snoc2 in Hes as [Hp | [-> | ->]].
      * left. by eapply replay_prefix_benign.
      * right. split; [done |]. rewrite Hcache, replay_app. simpl.
        rewrite Hin. by rewrite lookup_insert_eq.
      * right. split; [done |]. by rewrite <- Htr, <- Hdir.
  - apply backup_failed in Hb as (evs & T & D & F); [| exact Hne].
    simpl in T, D. rewrite T. split_and!; [exact D | |].
    + exists evs, []. by rewrite app_nil_r; auto.
    + intros es Hes. left. by eapply replay_prefix_benign.
Qed.


(** C4 (amended). A path matching a configured exclude gets no record of
    kind 0, 1 or 2 in the snapshot of a run and is not added to the new
    signature cache; a run that returns [nil] gives it a tombstone exactly
    when the cache in use lists it. *)
Theorem excludes_honoured d s o p :
  backup H cfg env d = (s, o) ->
  isExcluded H cfg p = true ->
  (p ∉ (scRecs s).*1)
  /\ (p ∉ livePaths (snapRecs s))
  /\ (o = Done -> forall s0 run, setup H cfg env d = (s0, inr run) ->
        (p ∈ tombPaths (snapRecs s) <-> p ∈ Paths (existingSC run))).
Proof.
  unfold backup. destruct (setup H cfg env d) as [s0 [o'|run]] eqn:Hset.
  - intros [= <- <-] _.
    destruct (setup_failed_records _ _ _ Hset) as [-> ->].
    split_and!; [by intros ?%elem_of_nil | by intros ?%elem_of_nil |].
    intros ->. by apply setup_not_done in Hset.
  - intros Hb Hex.
    destruct (skipped_paths d s0 run s o p Hset Hb) as (H1 & H2 & H3).
    { intros [_ Hn]. congruence. }
    split_and!; [done | done |]. intros Ho s0' run' [= <- <-]. by apply H3.
Qed.

(** C10. The test that keeps the walk out of the backup directory is
    [strings.HasPrefix] on the absolute path of the entry and the
    absolute, cleaned [BackupPath]: an entry that passes it is skipped
    with the state untouched, a sibling such as [/backup2] of [/backup]
    included; such a path is neither recorded live nor added to the new
    cache, and a run that returns [nil] gives it a tombstone when the
    cache in use lists it. *)
Theorem destination_prefix_skipped d s0 run :
  setup H cfg env d = (s0, inr run) ->
  env_abs env (Clean H (BackupPath cfg)) = Some (destDirAbs run)
  /\ (forall e p s,
        w_err e = false -> w_ctxErr e = false -> w_abs e = Some p ->
        HasPrefix p (destDirAbs run) = true ->
        callback H cfg env run e s = (s, None))
  /\ (forall s o p,
        backup H cfg env d = (s, o) ->
        HasPrefix p (destDirAbs run) = true ->
        (p ∉ (scRecs s).*1)
        /\ (p ∉ livePaths (snapRecs s))
        /\ (o = Done -> p ∈ Paths (existingSC run) ->
            p ∈ tombPaths (snapRecs s)))
  /\ HasPrefix "/backup2/file" "/backup" = true.
Proof.
  intros Hset. pose proof (setup_opened _ _ _ _ _ _ Hset) as Hop.
  split_and!.
  - by destruct (op_run _ _ _ _ _ _ Hop) as (dAbs & -> & ->).
  - intros e p s He Hc Ha Hp. unfold callback. by rewrite He, Hc, Ha, Hp.
  - intros s o p Hb Hp. unfold backup in Hb. rewrite Hset in Hb.
    destruct (skipped_paths d s0 run s o p Hset Hb) as (H1 & H2 & H3).
    { intros [Hn _]. congruence. }
    split_and!; [done | done |]. intros Ho Hin. by apply H3.
  - reflexivity.
Qed.





End Runs.

(** ** Single entries *)

Section Entries.
Context (H : Helpers) (cfg : Config) (env : Env) (run : Run).

Lemma callback_symlink e p a :
  classified H cfg run e p a -> plainMode H (Mode a) ->
  isSymlink H (Mode a) = true ->
  callback H cfg env run e =
  visitSymlink H run e p (mkMetadata p a) (Get (existingSC run) p).
Proof.
  intros (He & Hc & Ha & Hp & Hx & Hm & Hg) (M1 & M2 & M3 & M4 & M5) M6.
  unfold callback. rewrite He, Hc, Ha, Hp, Hx, Hm, Hg. simpl.
  by rewrite M1, M2, M3, M4, M5, M6.
Qed.

Lemma callback_regular e p a :
  classified H cfg run e p a -> plainMode H (Mode a) ->
  isSymlink H (Mode a) = false ->
  callback H cfg env run e =
  visitRegular H env run e p (mkMetadata p a) (Get (existingSC run) p).
Proof.
  intros (He & Hc & Ha & Hp & Hx & Hm & Hg) (M1 & M2 & M3 & M4 & M5) M6.
  unfold callback. rewrite He, Hc, Ha, Hp, Hx, Hm, Hg. simpl.
  by rewrite M1, M2, M3, M4, M5, M6.
Qed.

Lemma Equal_true a b : Equal a b = true <-> a = b.
Proof. unfold Equal. apply bool_decide_eq_true. Qed.

Lemma Equal_false a b : Equal a b = false <-> a <> b.
Proof. unfold Equal. apply bool_decide_eq_false. Qed.

Lemma len_zero b : (len b =? 0)%Z = true <-> b = [].
Proof.
  unfold len. rewrite Z.eqb_eq. destruct b; simpl; [done |].
  split; [lia | done].
Qed.

Lemma take_len (b : bytes) : take (Z.to_nat (len b)) b = b.
Proof. unfold len. rewrite Nat2Z.id. apply firstn_all. Qed.

Lemma Get_absent p :
  existingSC run = None
  \/ (exists c, existingSC run = Some c /\ index c !! p = None) ->
  Get (existingSC run) p = [].
Proof. intros [-> | (c & -> & Hc)]; [done |]. unfold Get. by rewrite Hc. Qed.

Lemma Get_present c p sig :
  existingSC run = Some c -> index c !! p = Some sig ->
  Get (existingSC run) p = sig.
Proof. intros -> Hc. unfold Get. by rewrite Hc. Qed.

(** C7. A symlink whose path the cache in use does not list gets a
    record of kind 1 whose payload is the bytes of its target; one that
    the cache lists with another signature gets a record of kind 2 whose
    payload is the delta generated from the cached signature and the
    whole target, and applying that delta to the previous target gives
    the new target, by the round-trip law of the codec. *)
Theorem symlink_records e p a dest s :
  classified H cfg run e p a -> plainMode H (Mode a) ->
  isSymlink H (Mode a) = true ->
  w_readlink e = Some dest -> w_genSigOk e = true -> w_snapAddOk e = true ->
  let MD := mkMetadata p a in
  let target := bytesOf dest in
  let thisSig := GenSignature H MD (Some target) (len target) in
  thisSig <> [] ->
  (existingSC run = None
   \/ (exists c, existingSC run = Some c /\ index c !! p = None) ->
   snapRecs (callback H cfg env run e s).1 =
     snapRecs s ++ [mkRecord MD KFull RBuffer (len target) target])
  /\ (forall c sig,
        existingSC run = Some c -> index c !! p = Some sig ->
        sig <> [] -> sig <> thisSig -> w_genDeltaOk e = true ->
        let delta := GenDelta H sig target (len target) in
        snapRecs (callback H cfg env run e s).1 =
          snapRecs s ++ [mkRecord MD KDelta RBuffer (len delta) delta]
        /\ forall prevMD prev,
             deltaLaw H ->
             sig = GenSignature H prevMD (Some prev) (len prev) ->
             ApplyDelta H prev delta = target).
Proof.
  intros Hcl Hpm Hsym Hrl Hgs Hsa MD target thisSig Hne.
  rewrite (callback_symlink e p a Hcl Hpm Hsym). unfold visitSymlink.
  rewrite Hrl, Hgs, Hsa. fold target MD thisSig. split.
  - intros Habs. rewrite (Get_absent p Habs).
    rewrite (proj2 (Equal_false [] thisSig)) by done. simpl.
    unfold seq, guard, ret, lift, snapAdd, seq, guard, ret, lift, scAdd.
    simpl. rewrite take_len.
    case_bool_decide; [done |]. by destruct (w_scAddOk e).
  - intros c sig Hex Hidx Hsig Hdiff Hgd.
    rewrite (Get_present c p sig Hex Hidx).
    rewrite (proj2 (Equal_false sig thisSig)) by done. simpl.
    assert ((len sig =? 0)%Z = false) as ->.
    { apply not_true_iff_false. by rewrite len_zero. }
    simpl. rewrite Hgd. split.
    + unfold seq, guard, ret, lift, snapAdd, seq, guard, ret, lift, scAdd.
      simpl. rewrite take_len.
      case_bool_decide; [done |]. by destruct (w_scAddOk e).
    + intros prevMD prev Hlaw ->. apply Hlaw.
Qed.

Lemma walk_split es e s s' :
  walk H cfg env run es s = (s', None) -> e ∈ es ->
  exists sa sb,
    callback H cfg env run e sa = (sb, None)
    /\ WalkExt H cfg run s sa /\ WalkExt H cfg run sb s'.
Proof.
  revert s. induction es as [|e' es IH]; intros s Hw Hin.
  - by apply elem_of_nil in Hin.
  - simpl in Hw. unfold seq in Hw.
    destruct (callback H cfg env run e' s) as [s1 [err|]] eqn:Hcb; [done |].
    pose proof (ext_callback H cfg env run s e' s (ext_refl _ _ _ s)) as He.
    rewrite Hcb in He.
    apply elem_of_cons in Hin as [-> | Hin].
    + exists s, s1. split_and!; [done | apply ext_refl |].
      pose proof (pres_walk H cfg env run (WalkExt H cfg run s1) es
                    (fun e0 => ext_callback H cfg env run s1 e0) s1
                    (ext_refl _ _ _ s1)) as Hx.
      by rewrite Hw in Hx.
    + destruct (IH s1 Hw Hin) as (sa & sb & Hc & E1 & E2).
      exists sa, sb. split_and!; [done | by eapply ext_trans | done].
Qed.

Lemma walkRoots_split roots i j e s s' :
  walkRoots H cfg env run i roots s = (s', None) ->
  (i <= j < i + length roots)%nat -> e ∈ env_walk env j ->
  exists sa sb,
    callback H cfg env run e sa = (sb, None)
    /\ WalkExt H cfg run s sa /\ WalkExt H cfg run sb s'.
Proof.
  revert i s. induction roots as [|r roots IH]; intros i s Hw Hj Hin;
    simpl in *; [lia |].
  destruct (walk H cfg env run (env_walk env i) s) as [s1 [err|]] eqn:Hw1;
    [done |].
  pose proof (pres_walk H cfg env run (WalkExt H cfg run s) (env_walk env i)
                (fun e0 => ext_callback H cfg env run s e0) s
                (ext_refl _ _ _ s)) as E01.
  rewrite Hw1 in E01.
  destruct (decide (i = j)) as [-> | Hne].
  - destruct (walk_split _ e s s1 Hw1 Hin) as (sa & sb & Hc & E1 & E2).
    exists sa, sb. split_and!; [done | done |].
    eapply ext_trans; [exact E2 |].
    pose proof (ext_walkRoots H cfg env run roots (S j) s1) as Hx.
    by rewrite Hw in Hx.
  - destruct (IH (S i) s1 Hw ltac:(lia) Hin) as (sa & sb & Hc & E1 & E2).
    exists sa, sb. split_and!; [done | by eapply ext_trans | done].
Qed.

(** C9. A regular file whose fresh signature is byte-equal to the
    cached one gets no record: the callback leaves the snapshot as it
    is, adds the path with these signature bytes to the new cache and
    takes it out of the deletion set; a run that returns [nil] has the
    path in its cache and writes no tombstone for it. *)
Theorem unchanged_regular_file e p a content :
  classified H cfg run e p a -> plainMode H (Mode a) ->
  isSymlink H (Mode a) = false ->
  w_open e = Some content -> w_genSigOk e = true ->
  let sig := GenSignature H (mkMetadata p a) (Some content) (w_size e) in
  Get (existingSC run) p = sig ->
  (forall s,
     snapRecs (callback H cfg env run e s).1 = snapRecs s
     /\ ((callback H cfg env run e s).2 = None <->
         w_scAddOk e = true /\ p ∉ (scRecs s).*1)
     /\ ((callback H cfg env run e s).2 = None ->
         scRecs (callback H cfg env run e s).1 = scRecs s ++ [(p, sig)]
         /\ pathsToCheck (callback H cfg env run e s).1
            = pathsToCheck s ∖ {[p]}
         /\ log (callback H cfg env run e s).1 = log s ++ [LNoChange p]))
  /\ (forall d s0 sF j,
        setup H cfg env d = (s0, inr run) ->
        backup H cfg env d = (sF, Done) ->
        (j < length (Backup_Paths cfg))%nat -> e ∈ env_walk env j ->
        (p, sig) ∈ scRecs sF /\ (p ∉ tombPaths (snapRecs sF))).
Proof.
  intros Hcl Hpm Hsym Hop Hgs sig Hsig.
  assert (Hcb : forall s,
    snapRecs (callback H cfg env run e s).1 = snapRecs s
    /\ ((callback H cfg env run e s).2 = None <->
        w_scAddOk e = true /\ p ∉ (scRecs s).*1)
    /\ ((callback H cfg env run e s).2 = None ->
        scRecs (callback H cfg env run e s).1 = scRecs s ++ [(p, sig)]
        /\ pathsToCheck (callback H cfg env run e s).1
           = pathsToCheck s ∖ {[p]}
        /\ log (callback H cfg env run e s).1 = log s ++ [LNoChange p])).
  { intros s. rewrite (callback_regular e p a Hcl Hpm Hsym).
    unfold visitRegular. rewrite Hop, Hgs. fold sig. rewrite Hsig.
    rewrite (proj2 (Equal_true sig sig)) by done. simpl.
    unfold seq, guard, ret, lift, scAdd. simpl.
    case_bool_decide as Hin; simpl; [split_and!; [done | | done] |].
    { split; [done | by intros [_ ?]]. }
    destruct (w_scAddOk e); simpl; split_and!; try done.
    split; [done | by intros [? _]]. }
  split; [exact Hcb |].
  intros d s0 sF j Hset Hb Hj Hin.
  pose proof (setup_opened _ _ _ _ _ _ Hset) as Hopn.
  pose proof (opened_gz _ _ _ _ _ _ Hopn) as Hgz.
  unfold backup in Hb. rewrite Hset in Hb.
  pose proof (body_done H cfg env run Hgz _ _ _ (opened_files _ _ _ _ _ _ Hopn)
                (opened_owed _ _ _ _ _ _ Hopn) Hb) as Hc.
  destruct Hc as [(s1 & Hw & R & A & U) _ _ _ _ _].
  destruct (walkRoots_split _ 0 j e s0 s1 Hw ltac:(lia) Hin)
    as (sa & sb & Hcall & E1 & E2).
  destruct (Hcb sa) as (_ & _ & Hok). rewrite Hcall in Hok.
  destruct (Hok eq_refl) as (Ab & Pb & Lb). simpl in Ab, Pb, Lb.
  destruct E2 as [_ (l2 & L2 & _) _ (a2 & A2 & _) [P2 _]].
  pose proof (ext_walkRoots H cfg env run (Backup_Paths cfg) 0 s0) as E01.
  rewrite Hw in E01. destruct E01 as [_ _ (rs & R1 & Fr) _ _].
  rewrite (op_snap _ _ _ _ _ _ Hopn) in R1. simpl in R1.
  split.
  - rewrite A, A2, Ab. rewrite !elem_of_app. left. right.
    apply list_elem_of_here.
  - rewrite R, R1, tombPaths_app, tombPaths_tombs, tombPaths_live
      by (eapply Forall_impl; [exact Fr |]; by intros r []).
    simpl. rewrite elem_of_elements. intros Hq.
    apply P2 in Hq. rewrite Pb in Hq. set_solver.
Qed.

Lemma stageDelta_spec e MD delta s s' r :
  stageDelta env run e MD delta s = (s', r) ->
  ((w_createTemp e = None
    \/ exists rnd, w_createTemp e = Some rnd
                   /\ is_Some (dir s !! ("delta" +:+ rnd)))
   /\ s' = s /\ r = Some ErrCreateTemp)
  \/ exists rnd,
       let tmp := "delta" +:+ rnd in
       let rec := mkRecord MD KDelta (RTemp tmp) (len delta) delta in
       let read := w_seekOk e && w_tmpStatOk e && w_snapAddOk e in
       w_createTemp e = Some rnd
       /\ dir s !! tmp = None
       /\ trace s' =
            trace s ++ EvWrite tmp (FBlob [])
              :: (if w_genDeltaOk e
                  then EvWrite tmp (FBlob delta)
                         :: (if read
                             then [EvWrite (snapName run)
                                     (FSnapshot (snapHdr run)
                                        (snapRecs s ++ [rec]))]
                             else [])
                  else [])
                 ++ [EvClose tmp true;
                     EvRemove tmp (negb (env_rmFails env tmp))]
       /\ (env_rmFails env tmp = false -> dir s' !! tmp = None)
       /\ scRecs s' = scRecs s
       /\ snapRecs s' =
            snapRecs s ++ (if w_genDeltaOk e && read then [rec] else [])
       /\ (r = None <-> w_genDeltaOk e && read = true).
Proof.
  unfold stageDelta. destruct (w_createTemp e) as [rnd|];
    [| intros [= <- <-]; left; split_and!; auto].
  cbv zeta. set (tmp := "delta" +:+ rnd).
  unfold seq at 1, createTemp. destruct (dir s !! tmp) eqn:Hfree.
  { intros [= <- <-]. left. split_and!; [| done | done].
    right. exists rnd. split; [done |]. fold tmp. by rewrite Hfree. }
  intros Hst. right. exists rnd.
  assert (Hdel : forall (x : Dir), env_rmFails env tmp = false ->
            (if negb (env_rmFails env tmp) then delete tmp x else x) !! tmp
            = None).
  { intros x ->. simpl. apply lookup_delete_eq. }
  revert Hst. destruct (w_genDeltaOk e); simpl.
  2:{ unfold seq, dropTemp, seq, doRemove, lift, fail. intros [= <- <-].
      simpl. rewrite app_nil_r.
      split_and!; try done; [by rewrite <- !app_assoc | apply Hdel]. }
  unfold seq at 1, lift at 1.
  destruct (w_seekOk e); simpl.
  2:{ unfold seq, dropTemp, seq, doRemove, lift, fail. intros [= <- <-].
      simpl. rewrite app_nil_r.
      split_and!; try done; [by rewrite <- !app_assoc | apply Hdel]. }
  destruct (w_tmpStatOk e); simpl.
  2:{ unfold seq, dropTemp, seq, doRemove, lift, fail. intros [= <- <-].
      simpl. rewrite app_nil_r.
      split_and!; try done; [by rewrite <- !app_assoc | apply Hdel]. }
  unfold seq, attempt, snapAdd, seq, guard, dropTemp, seq, doRemove, lift.
  destruct (w_snapAddOk e); simpl; intros [= <- <-]; simpl.
  - rewrite take_len.
    split_and!; try done; [by rewrite <- !app_assoc | apply Hdel].
  - rewrite app_nil_r.
    split_and!; try done; [by rewrite <- !app_assoc | apply Hdel].
Qed.

(** C8. A regular file that the cache in use lists with another
    signature gets its delta through a temporary file [delta*] of the
    backup directory when its size exceeds ten times [memoryLimit] (ten
    mebibytes).  The file is created; the delta is written to it when
    [GenDelta] succeeds; when the seek, the stat and [snap.Add] succeed
    too, the snapshot gets the record of the delta, read from that file;
    the file is closed and removed within the callback on every way out
    of it; then the signature goes to the new cache.  The callback
    returns nil exactly when each of these calls succeeds.  Otherwise the
    delta goes from a buffer in memory and the callback touches no file
    but the two of the run. *)
Theorem changed_regular_staging e p a content s s' r :
  classified H cfg run e p a -> plainMode H (Mode a) ->
  isSymlink H (Mode a) = false ->
  w_open e = Some content -> w_genSigOk e = true ->
  let MD := mkMetadata p a in
  let cur := Get (existingSC run) p in
  let thisSig := GenSignature H MD (Some content) (w_size e) in
  let delta := GenDelta H cur content (w_size e) in
  cur <> [] -> cur <> thisSig ->
  callback H cfg env run e s = (s', r) ->
  memoryLimit = (10 * 1024 * 1024)%Z
  /\ ((w_size e > memoryLimit * 10)%Z ->
      ((w_createTemp e = None
        \/ exists rnd, w_createTemp e = Some rnd
                       /\ is_Some (dir s !! ("delta" +:+ rnd)))
       /\ s' = logf (LChanged p) s /\ r = Some ErrCreateTemp)
      \/ exists rnd mid rest,
           let tmp := "delta" +:+ rnd in
           let rec := mkRecord MD KDelta (RTemp tmp) (len delta) delta in
           let read := w_seekOk e && w_tmpStatOk e && w_snapAddOk e in
           w_createTemp e = Some rnd
           /\ dir s !! tmp = None
           /\ trace s' =
                trace s ++ EvWrite tmp (FBlob [])
                  :: mid ++ [EvClose tmp true;
                             EvRemove tmp (negb (env_rmFails env tmp))]
                  ++ rest
           /\ mid = (if w_genDeltaOk e
                     then EvWrite tmp (FBlob delta)
                            :: (if read
                                then [EvWrite (snapName run)
                                        (FSnapshot (snapHdr run)
                                           (snapRecs s ++ [rec]))]
                                else [])
                     else [])
           /\ Forall (stagingEvent run tmp) mid
           /\ rest = match r with
                      | None =>
                          [EvWrite inprogress
                             (FCache (withEntries (sc run)
                                        (scRecs s ++ [(p, thisSig)])))]
                      | Some _ => []
                      end
           /\ (env_rmFails env tmp = false -> dir s' !! tmp = None)
           /\ snapRecs s' =
                snapRecs s ++ (if w_genDeltaOk e && read then [rec] else [])
           /\ scRecs s' =
                scRecs s
                ++ match r with None => [(p, thisSig)] | Some _ => [] end
           /\ (r = None <->
               w_genDeltaOk e = true /\ w_seekOk e = true
               /\ w_tmpStatOk e = true /\ w_snapAddOk e = true
               /\ w_scAddOk e = true /\ (p ∉ (scRecs s).*1)))
  /\ ((w_size e <= memoryLimit * 10)%Z ->
      (exists evs, trace s' = trace s ++ evs /\ Forall (runWrite run) evs)
      /\ (w_genDeltaOk e = true -> w_snapAddOk e = true ->
          snapRecs s' =
            snapRecs s ++ [mkRecord MD KDelta RBuffer (len delta) delta])
      /\ (r = None <->
          w_genDeltaOk e = true /\ w_snapAddOk e = true
          /\ w_scAddOk e = true /\ (p ∉ (scRecs s).*1))
      /\ (r = None -> scRecs s' = scRecs s ++ [(p, thisSig)])).
Proof.
  intros Hcl Hpm Hsym Hop Hgs MD cur thisSig delta Hcur Hdiff.
  rewrite (callback_regular e p a Hcl Hpm Hsym). unfold visitRegular.
  rewrite Hop, Hgs. fold MD cur thisSig delta.
  rewrite (proj2 (Equal_false cur thisSig)) by done.
  assert ((len cur =? 0)%Z = false) as ->.
  { apply not_true_iff_false. by rewrite len_zero. }
  cbn [negb]. intros Hcb. split_and!; [reflexivity | |].
  - intros Hbig. apply Z.gt_lt, Z.gtb_lt in Hbig. rewrite Hbig in Hcb.
    revert Hcb. unfold seq at 1, guard, ret. unfold seq at 1. unfold seq at 1.
    unfold seq at 1, lift at 1.
    destruct (stageDelta env run e MD delta (logf (LChanged p) s))
      as [s2 r2] eqn:Hst.
    destruct (stageDelta_spec e MD delta _ _ _ Hst)
      as [(Hno & -> & ->) | (rnd & Hrnd & Hfree & T & D & A & R & N)].
    { intros [= <- <-]. by left. }
    cbv zeta in *. simpl in Hfree, T, A, R.
    set (tmp := "delta" +:+ rnd) in *.
    set (rec := mkRecord MD KDelta (RTemp tmp) (len delta) delta) in *.
    intros Hcb. right. exists rnd.
    exists (if w_genDeltaOk e
            then EvWrite tmp (FBlob delta)
                   :: (if w_seekOk e && w_tmpStatOk e && w_snapAddOk e
                       then [EvWrite (snapName run)
                               (FSnapshot (snapHdr run) (snapRecs s ++ [rec]))]
                       else [])
            else []).
    exists match r with
           | None =>
               [EvWrite inprogress
                  (FCache (withEntries (sc run) (scRecs s ++ [(p, thisSig)])))]
           | Some _ => []
           end.
    cbv zeta. fold tmp. fold rec.
    assert (Hmid : Forall (stagingEvent run tmp)
              (if w_genDeltaOk e
               then EvWrite tmp (FBlob delta)
                      :: (if w_seekOk e && w_tmpStatOk e && w_snapAddOk e
                          then [EvWrite (snapName run)
                                  (FSnapshot (snapHdr run)
                                     (snapRecs s ++ [rec]))]
                          else [])
               else [])).
    { destruct (w_genDeltaOk e); [| constructor].
      constructor; [eexists; by left |].
      destruct (_ && _); repeat constructor. eexists; by right. }
    assert (Hall : w_genDeltaOk e
                   && (w_seekOk e && w_tmpStatOk e && w_snapAddOk e) = true
                   <-> w_genDeltaOk e = true /\ w_seekOk e = true
                       /\ w_tmpStatOk e = true /\ w_snapAddOk e = true).
    { rewrite !andb_true_iff. tauto. }
    destruct r2 as [err|].
    { injection Hcb as <- <-.
      split_and!; rewrite ?app_nil_r; try done.
      split; [done |]. intros (? & ? & ? & ? & _). by apply N, Hall. }
    pose proof (proj1 Hall (proj1 N eq_refl)) as (Hg & Hk & Ht & Ha).
    revert Hcb. unfold seq, scAdd, lift. rewrite A. simpl.
    case_bool_decide as Hin.
    { intros [= <- <-]. split_and!; rewrite ?app_nil_r; try done.
      split; [done |]. by intros (_ & _ & _ & _ & _ & ?). }
    destruct (w_scAddOk e); intros [= <- <-]; simpl.
    + split_and!; try done.
      * rewrite T. rewrite <- !app_assoc. simpl. rewrite <- !app_assoc.
        reflexivity.
      * intros Hrm. rewrite lookup_insert_ne; [by apply D |].
        intros Heq. symmetry in Heq.
        by apply (isTemp_not_inprogress _ (isTemp_delta rnd)).
      * by rewrite A.
    + split_and!; rewrite ?app_nil_r; try done.
      split; [done |]. by intros (_ & _ & _ & _ & ? & _).
  - intros Hsmall.
    assert ((w_size e >? memoryLimit * 10)%Z = false) as Hle
      by (rewrite Z.gtb_ltb; apply Z.ltb_ge; lia).
    rewrite Hle in Hcb. revert Hcb.
    unfold seq, guard, ret, lift, snapAdd, seq, guard, ret, lift, scAdd.
    destruct (w_genDeltaOk e); simpl.
    2:{ intros [= <- <-]. split_and!; try done.
        - exists []. by rewrite app_nil_r.
        - split; [done |]. by intros (? & _). }
    destruct (w_snapAddOk e); simpl.
    2:{ intros [= <- <-]. split_and!; try done.
        - exists []. by rewrite app_nil_r.
        - split; [done |]. by intros (_ & ? & _). }
    rewrite take_len.
    case_bool_decide as Hin; simpl; [| destruct (w_scAddOk e); simpl];
      intros [= <- <-]; simpl.
    + split_and!; try done.
      * eexists [_]. split; [done |].
        apply Forall_singleton. eexists. by left.
      * split; [done |]. by intros (_ & _ & _ & ?).
    + split_and!; try done.
      eexists [_; _]. split; [by rewrite <- app_assoc |].
      repeat constructor; eexists; [by left | by right].
    + split_and!; try done.
      * eexists [_]. split; [done |].
        apply Forall_singleton. eexists. by left.
      * split; [done |]. by intros (_ & _ & ? & _).
Qed.

(** C5 (amended). An error that the walk itself reports for an entry
    and a failed open of a regular file are logged, and the walk goes on
    with the next entry from a state in which nothing but the log has
    changed, so the unreadable file stays in the deletion set.  A failed
    readlink, a failed read of the metadata and a failed stat of the open
    file make the callback return the error: the walk stops there, and
    the run closes and removes the snapshot and returns the error. *)
Theorem per_file_failures e s :
  (w_err e = true ->
   forall es, walk H cfg env run (e :: es) s
              = walk H cfg env run es (logf LWalkErr s))
  /\ (forall p a,
        classified H cfg run e p a -> plainMode H (Mode a) ->
        isSymlink H (Mode a) = false -> w_open e = None ->
        forall es, walk H cfg env run (e :: es) s
                   = walk H cfg env run es (logf (LOpenErr p) s))
  /\ (forall p a,
        classified H cfg run e p a -> plainMode H (Mode a) ->
        isSymlink H (Mode a) = true -> w_readlink e = None ->
        forall es, walk H cfg env run (e :: es) s = (s, Some ErrReadlink))
  /\ (forall p,
        w_err e = false -> w_ctxErr e = false -> w_abs e = Some p ->
        HasPrefix p (destDirAbs run) = false -> isExcluded H cfg p = false ->
        w_metadata e = None ->
        forall es, walk H cfg env run (e :: es) s = (s, Some ErrMetadata))
  /\ (forall p a content,
        classified H cfg run e p a -> plainMode H (Mode a) ->
        isSymlink H (Mode a) = false -> w_open e = Some content ->
        w_genSigOk e = true -> Get (existingSC run) p = [] ->
        GenSignature H (mkMetadata p a) (Some content) (w_size e) <> [] ->
        w_fdStat e = None ->
        forall es, walk H cfg env run (e :: es) s
                   = (logf (LNewFile p) s, Some ErrStat))
  /\ (forall s0 s1 root err,
        walkRoots H cfg env run 0 (Backup_Paths cfg) s0
          = (s1, Some (root, err)) ->
        body H cfg env run s0
          = (dropSnapshot env run s1, Failed (EWalk root err))).
Proof.
  split_and!.
  - intros He es. simpl. unfold seq, callback. by rewrite He.
  - intros p a Hcl Hpm Hsym Hop es. simpl. unfold seq.
    rewrite (callback_regular e p a Hcl Hpm Hsym). unfold visitRegular.
    by rewrite Hop.
  - intros p a Hcl Hpm Hsym Hrl es. simpl. unfold seq.
    rewrite (callback_symlink e p a Hcl Hpm Hsym). unfold visitSymlink.
    by rewrite Hrl.
  - intros p He Hc Ha Hp Hx Hm es. simpl. unfold seq, callback.
    by rewrite He, Hc, Ha, Hp, Hx, Hm.
  - intros p a content Hcl Hpm Hsym Hop Hgs Hget Hne Hst es. simpl.
    unfold seq at 1. rewrite (callback_regular e p a Hcl Hpm Hsym).
    unfold visitRegular. rewrite Hop, Hgs, Hget, Hst.
    rewrite (proj2 (Equal_false [] _)) by done. done.
  - intros s0 s1 root err Hw. unfold body. by rewrite Hw.
Qed.

End Entries.

(** ** The theorems at work on the runs of [Demo] *)

(** The first run records the directory, the two files and the symlink
    in full, in the order of the walk. *)
Example first_run :
  Demo.first.2 = Done
  /\ map (fun r => (Path (rec_md r), kindCode (rec_kind r), rec_payload r))
       (snapRecs Demo.first.1)
     = [ ("/src", 0%Z, []);
         ("/src/a.txt", 1%Z, bytesOf "hello");
         ("/src/b.txt", 1%Z, bytesOf "world");
         ("/src/link", 1%Z, bytesOf "a.txt");
         ("/src/tmp/secret", 1%Z, bytesOf "s3cret") ].
Proof. split; vm_compute; reflexivity. Qed.

(** The second run records the two changes as deltas and the excluded
    file, which the first run had recorded, as deleted. *)
Example second_run :
  Demo.second.2 = Done
  /\ map (fun r => (Path (rec_md r), kindCode (rec_kind r)))
       (snapRecs Demo.second.1)
     = [ ("/src/a.txt", 2%Z); ("/src/link", 2%Z); ("/src/tmp/secret", 3%Z) ]
  /\ (scRecs Demo.second.1).*1
     = [ "/src"; "/src/a.txt"; "/src/b.txt"; "/src/link" ]
  /\ unchangedPaths (log Demo.second.1) = [ "/src"; "/src/b.txt" ].
Proof. split_and!; vm_compute; reflexivity. Qed.

Lemma second_done :
  backup Demo.helpers Demo.cfg2 Demo.env2 Demo.dir1 = (Demo.second.1, Done).
Proof. vm_compute. reflexivity. Qed.

Lemma second_setup :
  setup Demo.helpers Demo.cfg2 Demo.env2 Demo.dir1
  = (Demo.opened2, inr Demo.run2).
Proof. vm_compute. reflexivity. Qed.

Lemma cache_snapshot_agreement_witness :
  backup Demo.helpers Demo.cfg2 Demo.env2 Demo.dir1 = (Demo.second.1, Done)
  /\ exists s0 run c,
       setup Demo.helpers Demo.cfg2 Demo.env2 Demo.dir1 = (s0, inr run)
       /\ dir Demo.second.1 !! sigCache = Some (FCache c)
       /\ dir Demo.second.1 !! snapName run
          = Some (FSnapshot (snapHdr run) (snapRecs Demo.second.1))
       /\ entries c = scRecs Demo.second.1
       /\ NoDup (entries c).*1
       /\ (entries c).*1 ≡ₚ livePaths (snapRecs Demo.second.1)
                              ++ unchangedPaths (log Demo.second.1)
       /\ (forall p, p ∈ (entries c).*1 <->
             p ∈ livePaths (snapRecs Demo.second.1)
             \/ p ∈ unchangedPaths (log Demo.second.1))
       /\ (forall p sig, (p, sig) ∈ entries c ->
             exists e a,
               e ∈ walked Demo.env2 (length (Backup_Paths Demo.cfg2))
               /\ classified Demo.helpers Demo.cfg2 run e p a
               /\ signatureOf Demo.helpers e p a = Some sig
               /\ (p ∈ unchangedPaths (log Demo.second.1)
                   <-> Get (existingSC run) p = sig)
               /\ (p ∈ livePaths (snapRecs Demo.second.1)
                   <-> Get (existingSC run) p <> sig))
       /\ (forall e p a sig,
             e ∈ walked Demo.env2 (length (Backup_Paths Demo.cfg2)) ->
             classified Demo.helpers Demo.cfg2 run e p a ->
             signatureOf Demo.helpers e p a = Some sig ->
             (p, sig) ∈ entries c).
Proof.
  split; [vm_compute; reflexivity |].
  apply (cache_snapshot_agreement Demo.helpers Demo.cfg2 Demo.env2 Demo.dir1).
  vm_compute. reflexivity.
Defined.

Lemma sigCache_atomic_witness :
  backup Demo.helpers Demo.cfg2 Demo.env2 Demo.dir1 = (Demo.second.1, Done)
  /\ forall evs, evs `prefix_of` trace Demo.second.1 ->
       replay evs Demo.dir1 !! sigCache = Demo.dir1 !! sigCache
       \/ (Done = Done
           /\ replay evs Demo.dir1 !! sigCache = dir Demo.second.1 !! sigCache).
Proof.
  split; [vm_compute; reflexivity |].
  apply (sigCache_atomic Demo.helpers Demo.cfg2 Demo.env2 Demo.dir1
           Demo.second.1 Done).
  vm_compute. reflexivity.
Defined.



Lemma excludes_honoured_witness :
  backup Demo.helpers Demo.cfg2 Demo.env2 Demo.dir1 = (Demo.second.1, Done)
  /\ isExcluded Demo.helpers Demo.cfg2 "/src/tmp/secret" = true
  /\ ("/src/tmp/secret" ∉ (scRecs Demo.second.1).*1)
  /\ ("/src/tmp/secret" ∉ livePaths (snapRecs Demo.second.1))
  /\ (Done = Done -> forall s0 run,
        setup Demo.helpers Demo.cfg2 Demo.env2 Demo.dir1 = (s0, inr run) ->
        ("/src/tmp/secret" ∈ tombPaths (snapRecs Demo.second.1)
         <-> "/src/tmp/secret" ∈ Paths (existingSC run))).
Proof.
  split; [vm_compute; reflexivity |]. split; [vm_compute; reflexivity |].
  apply (excludes_honoured Demo.helpers Demo.cfg2 Demo.env2 Demo.dir1
           Demo.second.1 Done "/src/tmp/secret");
    vm_compute; reflexivity.
Defined.

(** A path that matches an exclude and that the previous run recorded
    gets a record in the snapshot: its tombstone. *)
Lemma excludes_honoured_counterexample :
  Demo.second.2 = Done
  /\ isExcluded Demo.helpers Demo.cfg2 "/src/tmp/secret" = true
  /\ Demo.excludedEntry ∈ env_walk Demo.env2 0
  /\ w_abs Demo.excludedEntry = Some "/src/tmp/secret"
  /\ tombOf "/src/tmp/secret" ∈ snapRecs Demo.second.1
  /\ kindCode (rec_kind (tombOf "/src/tmp/secret")) = 3%Z.
Proof.
  split_and!; try (vm_compute; reflexivity).
  - simpl. do 4 apply list_elem_of_further. apply list_elem_of_here.
  - assert (snapRecs Demo.second.1 !! 2%nat = Some (tombOf "/src/tmp/secret"))
      as Hl by (vm_compute; reflexivity).
    by eapply list_elem_of_lookup_2.
Qed.

Lemma per_file_failures_witness :
  classified Demo.helpers Demo.cfg2 Demo.run2 Demo.unreadable "/src/a.txt"
    (mkAttribs Demo.modeFile 0 0 1700000000 5)
  /\ plainMode Demo.helpers Demo.modeFile
  /\ isSymlink Demo.helpers Demo.modeFile = false
  /\ w_open Demo.unreadable = None
  /\ walk Demo.helpers Demo.cfg2 Demo.env2 Demo.run2
       [Demo.unreadable; Demo.unchangedEntry] Demo.opened2
     = walk Demo.helpers Demo.cfg2 Demo.env2 Demo.run2 [Demo.unchangedEntry]
         (logf (LOpenErr "/src/a.txt") Demo.opened2).
Proof.
  assert (Hc : classified Demo.helpers Demo.cfg2 Demo.run2 Demo.unreadable
                 "/src/a.txt" (mkAttribs Demo.modeFile 0 0 1700000000 5))
    by (unfold classified; split_and!; vm_compute; reflexivity).
  assert (Hp : plainMode Demo.helpers Demo.modeFile)
    by (unfold plainMode; split_and!; vm_compute; reflexivity).
  split_and!; [exact Hc | exact Hp | reflexivity | reflexivity |].
  destruct (per_file_failures Demo.helpers Demo.cfg2 Demo.env2 Demo.run2
              Demo.unreadable Demo.opened2) as (_ & Hopen & _).
  exact (Hopen "/src/a.txt" _ Hc Hp eq_refl eq_refl [Demo.unchangedEntry]).
Defined.

(** A symlink that cannot be read ends the run: the error comes back,
    the file after it is not looked at, no snapshot and no cache are
    left. *)
Lemma per_file_failures_counterexample :
  env_walk Demo.env4 0
    = [Demo.brokenLink; Demo.entry "/src/a.txt" Demo.modeFile (bytesOf "hello")]
  /\ w_readlink Demo.brokenLink = None
  /\ (backup Demo.helpers Demo.cfg1 Demo.env4 ∅).2
     = Failed (EWalk "/src" ErrReadlink)
  /\ scRecs (backup Demo.helpers Demo.cfg1 Demo.env4 ∅).1 = []
  /\ dir (backup Demo.helpers Demo.cfg1 Demo.env4 ∅).1 !! sigCache = None
  /\ dir (backup Demo.helpers Demo.cfg1 Demo.env4 ∅).1
       !! "1700000000-host-0.gz.enc" = None.
Proof. split_and!; vm_compute; reflexivity. Qed.


Lemma takeZ_len (b : bytes) : Demo.takeZ (len b) b = b.
Proof.
  induction b as [|x b IH]; [done |]. unfold len in *. simpl length.
  rewrite Nat2Z.inj_succ. simpl.
  destruct (Z.succ (Z.of_nat (length b)) <=? 0)%Z eqn:Hle;
    [apply Z.leb_le in Hle; lia |].
  by rewrite Z.sub_1_r, Z.pred_succ, IH.
Qed.

Lemma demo_deltaLaw : deltaLaw Demo.helpers.
Proof. intros md prev new. simpl. apply takeZ_len. Qed.

Lemma symlink_records_witness :
  classified Demo.helpers Demo.cfg2 Demo.run2 Demo.relinked "/src/link"
    (mkAttribs Demo.modeSymlink 0 0 1700000000 6)
  /\ plainMode Demo.helpers Demo.modeSymlink
  /\ isSymlink Demo.helpers Demo.modeSymlink = true
  /\ w_readlink Demo.relinked = Some "b.txt"
  /\ GenSignature Demo.helpers
       (mkMetadata "/src/link" (mkAttribs Demo.modeSymlink 0 0 1700000000 6))
       (Some (bytesOf "b.txt")) (len (bytesOf "b.txt")) <> []
  /\ exists c sig,
       existingSC Demo.run2 = Some c
       /\ index c !! "/src/link" = Some sig
       /\ sig = GenSignature Demo.helpers
                  (mkMetadata "/src/link"
                     (mkAttribs Demo.modeSymlink 0 0 1700000000 6))
                  (Some (bytesOf "a.txt")) (len (bytesOf "a.txt"))
       /\ snapRecs (callback Demo.helpers Demo.cfg2 Demo.env2 Demo.run2
                      Demo.relinked Demo.opened2).1
          = snapRecs Demo.opened2
              ++ [mkRecord
                    (mkMetadata "/src/link"
                       (mkAttribs Demo.modeSymlink 0 0 1700000000 6))
                    KDelta RBuffer
                    (len (GenDelta Demo.helpers sig (bytesOf "b.txt")
                            (len (bytesOf "b.txt"))))
                    (GenDelta Demo.helpers sig (bytesOf "b.txt")
                       (len (bytesOf "b.txt")))]
       /\ ApplyDelta Demo.helpers (bytesOf "a.txt")
            (GenDelta Demo.helpers sig (bytesOf "b.txt")
               (len (bytesOf "b.txt")))
          = bytesOf "b.txt".
Proof.
  assert (Hc : classified Demo.helpers Demo.cfg2 Demo.run2 Demo.relinked
                 "/src/link" (mkAttribs Demo.modeSymlink 0 0 1700000000 6))
    by (unfold classified; split_and!; vm_compute; reflexivity).
  assert (Hp : plainMode Demo.helpers Demo.modeSymlink)
    by (unfold plainMode; split_and!; vm_compute; reflexivity).
  assert (Hne : GenSignature Demo.helpers
       (mkMetadata "/src/link" (mkAttribs Demo.modeSymlink 0 0 1700000000 6))
       (Some (bytesOf "b.txt")) (len (bytesOf "b.txt")) <> [])
    by (vm_compute; discriminate).
  split_and!; [exact Hc | exact Hp | reflexivity | reflexivity | exact Hne |].
  destruct (symlink_records Demo.helpers Demo.cfg2 Demo.env2 Demo.run2
              Demo.relinked "/src/link" _ "b.txt" Demo.opened2
              Hc Hp eq_refl eq_refl eq_refl eq_refl Hne) as [_ Hchanged].
  assert (Hex : exists c, existingSC Demo.run2 = Some c
                  /\ index c !! "/src/link"
                     = Some (GenSignature Demo.helpers
                               (mkMetadata "/src/link"
                                  (mkAttribs Demo.modeSymlink 0 0 1700000000 6))
                               (Some (bytesOf "a.txt")) (len (bytesOf "a.txt")))).
  { eexists. split; vm_compute; reflexivity. }
  destruct Hex as (c & Hex & Hidx).
  destruct (Hchanged c _ Hex Hidx ltac:(vm_compute; discriminate)
              ltac:(vm_compute; discriminate) eq_refl) as [Hrec Hrt].
  eexists c, _. split_and!; [exact Hex | exact Hidx | reflexivity | exact Hrec |].
  exact (Hrt _ (bytesOf "a.txt") demo_deltaLaw eq_refl).
Defined.

Lemma changed_regular_staging_witness :
  classified Demo.helpers Demo.cfg2 Demo.run2 Demo.largeEntry "/src/a.txt"
    (mkAttribs Demo.modeFile 0 0 1700000001 200000000)
  /\ Get (existingSC Demo.run2) "/src/a.txt" <> []
  /\ (w_size Demo.largeEntry > memoryLimit * 10)%Z
  /\ memoryLimit = (10 * 1024 * 1024)%Z
  /\ exists rnd mid rest,
       w_createTemp Demo.largeEntry = Some rnd
       /\ trace (callback Demo.helpers Demo.cfg2 Demo.env2 Demo.run2
                   Demo.largeEntry Demo.opened2).1
          = trace Demo.opened2 ++ EvWrite ("delta" +:+ rnd) (FBlob [])
              :: mid ++ [EvClose ("delta" +:+ rnd) true;
                         EvRemove ("delta" +:+ rnd)
                           (negb (env_rmFails Demo.env2 ("delta" +:+ rnd)))]
              ++ rest
       /\ length mid = 2%nat
       /\ length rest = 1%nat
       /\ dir (callback Demo.helpers Demo.cfg2 Demo.env2 Demo.run2
                 Demo.largeEntry Demo.opened2).1 !! ("delta" +:+ rnd) = None
       /\ (callback Demo.helpers Demo.cfg2 Demo.env2 Demo.run2
             Demo.largeEntry Demo.opened2).2 = None.
Proof.
  assert (Hc : classified Demo.helpers Demo.cfg2 Demo.run2 Demo.largeEntry
                 "/src/a.txt" (mkAttribs Demo.modeFile 0 0 1700000001 200000000))
    by (unfold classified; split_and!; vm_compute; reflexivity).
  assert (Hp : plainMode Demo.helpers Demo.modeFile)
    by (unfold plainMode; split_and!; vm_compute; reflexivity).
  assert (Hcur : Get (existingSC Demo.run2) "/src/a.txt" <> [])
    by (vm_compute; discriminate).
  assert (Hbig : (w_size Demo.largeEntry > memoryLimit * 10)%Z)
    by (vm_compute; reflexivity).
  split_and!; [exact Hc | exact Hcur | exact Hbig | reflexivity |].
  destruct (changed_regular_staging Demo.helpers Demo.cfg2 Demo.env2 Demo.run2
              Demo.largeEntry "/src/a.txt" _ (bytesOf "hello, again")
              Demo.opened2
              (callback Demo.helpers Demo.cfg2 Demo.env2 Demo.run2
                 Demo.largeEntry Demo.opened2).1
              (callback Demo.helpers Demo.cfg2 Demo.env2 Demo.run2
                 Demo.largeEntry Demo.opened2).2
              Hc Hp eq_refl eq_refl eq_refl Hcur
              ltac:(vm_compute; discriminate)
              (surjective_pairing _))
    as (_ & Hlarge & _).
  destruct (Hlarge Hbig) as [(_ & _ & Hfail) | (rnd & mid & rest & Hx)].
  - vm_compute in Hfail. discriminate Hfail.
  - cbv zeta in Hx.
    destruct Hx as (Hr & _ & T & M & _ & R & D & _ & _ & N).
    assert (Hn : (callback Demo.helpers Demo.cfg2 Demo.env2 Demo.run2
                    Demo.largeEntry Demo.opened2).2 = None)
      by (vm_compute; reflexivity).
    exists rnd, mid, rest.
    split_and!; [exact Hr | exact T | | | by apply D | exact Hn].
    + rewrite M. reflexivity.
    + rewrite R, Hn. reflexivity.
Defined.

Lemma unchanged_regular_file_witness :
  classified Demo.helpers Demo.cfg2 Demo.run2 Demo.unchangedEntry "/src/b.txt"
    (mkAttribs Demo.modeFile 0 0 1700000000 5)
  /\ Get (existingSC Demo.run2) "/src/b.txt"
     = GenSignature Demo.helpers
         (mkMetadata "/src/b.txt" (mkAttribs Demo.modeFile 0 0 1700000000 5))
         (Some (bytesOf "world")) (w_size Demo.unchangedEntry)
  /\ setup Demo.helpers Demo.cfg2 Demo.env2 Demo.dir1
     = (Demo.opened2, inr Demo.run2)
  /\ backup Demo.helpers Demo.cfg2 Demo.env2 Demo.dir1 = (Demo.second.1, Done)
  /\ Demo.unchangedEntry ∈ env_walk Demo.env2 0
  /\ ("/src/b.txt" ∉ tombPaths (snapRecs Demo.second.1)).
Proof.
  assert (Hc : classified Demo.helpers Demo.cfg2 Demo.run2 Demo.unchangedEntry
                 "/src/b.txt" (mkAttribs Demo.modeFile 0 0 1700000000 5))
    by (unfold classified; split_and!; vm_compute; reflexivity).
  assert (Hp : plainMode Demo.helpers Demo.modeFile)
    by (unfold plainMode; split_and!; vm_compute; reflexivity).
  assert (Hsig : Get (existingSC Demo.run2) "/src/b.txt"
     = GenSignature Demo.helpers
         (mkMetadata "/src/b.txt" (mkAttribs Demo.modeFile 0 0 1700000000 5))
         (Some (bytesOf "world")) (w_size Demo.unchangedEntry))
    by (vm_compute; reflexivity).
  assert (Hin : Demo.unchangedEntry ∈ env_walk Demo.env2 0)
    by (simpl; do 2 apply list_elem_of_further; apply list_elem_of_here).
  split_and!; [exact Hc | exact Hsig | exact second_setup | exact second_done
              | exact Hin |].
  destruct (unchanged_regular_file Demo.helpers Demo.cfg2 Demo.env2 Demo.run2
              Demo.unchangedEntry "/src/b.txt" _ (bytesOf "world")
              Hc Hp eq_refl eq_refl eq_refl Hsig) as [_ Hrun].
  exact (proj2 (Hrun Demo.dir1 Demo.opened2 Demo.second.1 0%nat
                  second_setup second_done ltac:(simpl; lia) Hin)).
Defined.

Lemma destination_prefix_skipped_witness :
  setup Demo.helpers Demo.cfg2 Demo.env2 Demo.dir1
    = (Demo.opened2, inr Demo.run2)
  /\ destDirAbs Demo.run2 = "/backup"
  /\ w_abs Demo.insideEntry = Some "/backup/sig.cache"
  /\ HasPrefix "/backup/sig.cache" (destDirAbs Demo.run2) = true
  /\ callback Demo.helpers Demo.cfg2 Demo.env2 Demo.run2 Demo.insideEntry
       Demo.opened2 = (Demo.opened2, None)
  /\ "/backup/sig.cache" ∉ (scRecs Demo.second.1).*1.
Proof.
  destruct (destination_prefix_skipped Demo.helpers Demo.cfg2 Demo.env2
              Demo.dir1 Demo.opened2 Demo.run2 second_setup)
    as (_ & Hskip & Hrun & _).
  split_and!; [exact second_setup | reflexivity | reflexivity | reflexivity | |].
  - exact (Hskip Demo.insideEntry "/backup/sig.cache" Demo.opened2
             eq_refl eq_refl eq_refl eq_refl).
  - exact (proj1 (Hrun Demo.second.1 Done "/backup/sig.cache" second_done
                    eq_refl)).
Defined.

(** * More on [backup] and [removeOld] *)

Section Reconcile.
Context (H : Helpers) (cfg : Config) (env : Env) (run : Run).

Lemma pending_frame l E f :
  (forall s, scRecs (f s) = scRecs s /\ pathsToCheck (f s) = pathsToCheck s) ->
  Hoare (Pending run l) (lift f) (Pending run l) E.
Proof.
  intros Hf. apply hoare_lift. intros s Hs. unfold Pending in *.
  destruct (Hf s) as (-> & ->). exact Hs.
Qed.

Lemma pending_snapAdd l ok md k from content size :
  Hoare (Pending run l) (snapAdd run ok md k from content size)
    (Pending run l) Anything.
Proof.
  unfold snapAdd. eapply hoare_seq; [apply hoare_guard_any |].
  by apply pending_frame.
Qed.

Lemma pending_scAdd ok p sig :
  Hoare (Pending run []) (scAdd run ok p sig) (Pending run [p]) Anything.
Proof.
  intros s Hs. unfold scAdd. case_bool_decide; [exact Logic.I |].
  destruct ok; [| exact Logic.I]. unfold Pending in *. simpl in *.
  rewrite fmap_app, list_to_set_app_L. simpl. set_solver.
Qed.

Lemma pending_delete E p :
  Hoare (Pending run [p]) (lift (deletePath p)) (Pending run []) E.
Proof.
  apply hoare_lift. intros s Hs. unfold Pending in *. simpl in *. set_solver.
Qed.

Lemma pending_createTemp l tmp :
  Hoare (Pending run l) (createTemp tmp) (Pending run l) Anything.
Proof.
  intros s Hs. unfold createTemp. destruct (dir s !! tmp);
    [exact Logic.I | exact Hs].
Qed.

Lemma pending_dropTemp l E tmp :
  Hoare (Pending run l) (dropTemp env tmp) (Pending run l) E.
Proof. intros s Hs. exact Hs. Qed.

Ltac pending_step :=
  lazymatch goal with
  | |- Hoare _ (seq _ _) _ _ => eapply hoare_seq
  | |- Hoare _ ret _ _ => apply hoare_ret
  | |- Hoare _ (fail _) _ _ => apply hoare_fail_any
  | |- Hoare _ (guard _ _) _ _ => apply hoare_guard_any
  | |- Hoare _ (attempt _ _) _ _ => apply hoare_attempt_any
  | |- Hoare _ (if ?b then _ else _) _ _ => destruct b eqn:?
  | |- Hoare _ (match ?o with _ => _ end) _ _ => destruct o eqn:?
  | |- Hoare _ (snapAdd _ _ _ _ _ _ _) _ _ => apply pending_snapAdd
  | |- Hoare _ (scAdd _ _ _ _) _ _ => apply pending_scAdd
  | |- Hoare _ (createTemp _) _ _ => apply pending_createTemp
  | |- Hoare _ (dropTemp _ _) _ _ => apply pending_dropTemp
  | |- Hoare _ (lift (deletePath _)) _ _ => apply pending_delete
  | |- Hoare _ (lift _) _ _ => apply pending_frame; intros ?; done
  end.

Lemma pending_callback e :
  Hoare (Pending run []) (callback H cfg env run e) (Pending run []) Anything.
Proof.
  unfold callback, visitNode, visitSymlink, visitRegular, stageDelta.
  repeat (cbv zeta; pending_step).
Qed.

Lemma pending_walk es :
  Hoare (Pending run []) (walk H cfg env run es) (Pending run []) Anything.
Proof.
  induction es as [|e es IH]; simpl; [apply hoare_ret |].
  eapply hoare_seq; [apply pending_callback | exact IH].
Qed.

Lemma pending_walkRoots i roots s s' :
  walkRoots H cfg env run i roots s = (s', None) ->
  Pending run [] s -> Pending run [] s'.
Proof.
  revert i s. induction roots as [|r roots IH]; intros i s; simpl.
  - by intros [= ->].
  - pose proof (pending_walk (env_walk env i) s) as Hw.
    destruct (walk H cfg env run (env_walk env i) s) as [s1 [e|]]; [done|].
    intros Hr Hs. eapply IH; [exact Hr | by apply Hw].
Qed.

End Reconcile.

(** ** Order of the records *)

Section Order.
Context (H : Helpers) (cfg : Config) (env : Env) (run : Run).

Lemma rec0_lift s E f :
  (forall x, snapRecs (f x) = snapRecs x) ->
  Hoare (Unrecorded s) (lift f) (Unrecorded s) E.
Proof.
  intros Hf. apply hoare_lift. intros x Hx. unfold Unrecorded. by rewrite Hf.
Qed.

Lemma rec1_lift s md E f :
  (forall x, snapRecs (f x) = snapRecs x) ->
  Hoare (Recorded s md) (lift f) (Recorded s md) E.
Proof.
  intros Hf. apply hoare_lift. intros x Hx. unfold Recorded. by rewrite Hf.
Qed.

Lemma rec0_guard s md ok e :
  Hoare (Unrecorded s) (guard ok e) (Unrecorded s) (Recorded s md).
Proof. destruct ok; intros x Hx; [exact Hx | by left]. Qed.

Lemma rec0_fail s md Q e : Hoare (Unrecorded s) (fail e) Q (Recorded s md).
Proof. intros x Hx. by left. Qed.

Lemma rec_createTemp s md tmp :
  Hoare (Unrecorded s) (createTemp tmp) (Unrecorded s) (Recorded s md).
Proof.
  intros x Hx. unfold createTemp. destruct (dir x !! tmp); [by left | exact Hx].
Qed.

Lemma rec_snapAdd s ok md k from content size :
  k <> KTombstone ->
  Hoare (Unrecorded s) (snapAdd run ok md k from content size)
    (Recorded s (Some md)) (Recorded s (Some md)).
Proof.
  intros Hk x Hx. unfold snapAdd, seq, guard.
  destruct ok; simpl; [| by left]. unfold Unrecorded in Hx.
  right. eexists. split; [simpl; by rewrite Hx |]. by split.
Qed.

Lemma rec0_scAdd s md ok p sig :
  Hoare (Unrecorded s) (scAdd run ok p sig) (Recorded s md) (Recorded s md).
Proof.
  intros x Hx. unfold scAdd. case_bool_decide; [by left |].
  destruct ok; by left.
Qed.

Lemma rec1_scAdd s md ok p sig :
  Hoare (Recorded s md) (scAdd run ok p sig) (Recorded s md) (Recorded s md).
Proof.
  intros x Hx. unfold scAdd. case_bool_decide; [exact Hx |].
  destruct ok; exact Hx.
Qed.

(** Follows a callback to the record of the snapshot. *)
Ltac rec_step :=
  lazymatch goal with
  | |- Hoare _ (seq _ _) _ _ => eapply hoare_seq
  | |- Hoare _ (attempt _ _) _ _ => eapply hoare_attempt
  | |- Hoare _ (if ?b then _ else _) _ _ => destruct b eqn:?
  | |- Hoare _ (match ?o with _ => _ end) _ _ => destruct o eqn:?
  | |- Hoare _ (dropTemp _ _) _ _ => unfold dropTemp, doRemove
  | |- Hoare (Unrecorded _) (guard _ _) _ _ => apply rec0_guard
  | |- Hoare (Recorded _ _) (guard _ _) _ _ => apply hoare_guard
  | |- Hoare (Unrecorded _) (fail _) _ _ => apply rec0_fail
  | |- Hoare (Recorded _ _) (fail _) _ _ => apply hoare_fail
  | |- Hoare (Unrecorded _) (createTemp _) _ _ => apply rec_createTemp
  | |- Hoare (Unrecorded _) (snapAdd _ _ _ _ _ _ _) _ _ =>
      apply rec_snapAdd; discriminate
  | |- Hoare (Unrecorded _) (scAdd _ _ _ _) _ _ => apply rec0_scAdd
  | |- Hoare (Recorded _ _) (scAdd _ _ _ _) _ _ => apply rec1_scAdd
  | |- Hoare (Unrecorded _) (lift _) _ _ => apply rec0_lift; by intros ?
  | |- Hoare (Recorded _ _) (lift _) _ _ => apply rec1_lift; by intros ?
  end.

Lemma rec_visitNode s e p md cur :
  Hoare (Unrecorded s) (visitNode H run e p md cur)
    (Recorded s (Some md)) (Recorded s (Some md)).
Proof. unfold visitNode. repeat (cbv zeta; rec_step). Qed.

Lemma rec_visitSymlink s e p md cur :
  Hoare (Unrecorded s) (visitSymlink H run e p md cur)
    (Recorded s (Some md)) (Recorded s (Some md)).
Proof.
  unfold visitSymlink.
  destruct (w_readlink e); [| intros x Hx; by left].
  repeat (cbv zeta; rec_step).
Qed.

Lemma rec_visitRegular s e p md cur :
  Hoare (Unrecorded s) (visitRegular H env run e p md cur)
    (Recorded s (Some md)) (Recorded s (Some md)).
Proof.
  unfold visitRegular, stageDelta.
  destruct (w_open e); [| intros x Hx; by left].
  repeat (cbv zeta; rec_step).
Qed.

Lemma rec_callback s e :
  Hoare (Unrecorded s) (callback H cfg env run e)
    (Recorded s (entryMD e)) (Recorded s (entryMD e)).
Proof.
  unfold callback, entryMD.
  destruct (w_err e); [intros x Hx; by left |].
  destruct (w_ctxErr e); [intros x Hx; by left |].
  destruct (w_abs e) as [p|]; [| intros x Hx; by left].
  destruct (HasPrefix p (destDirAbs run)); [intros x Hx; by left |].
  destruct (isExcluded H cfg p); [intros x Hx; by left |].
  destruct (w_metadata e) as [a|]; [| intros x Hx; by left].
  cbv zeta. unfold NewMetadata.
  eapply hoare_seq; [apply rec0_guard |].
  destruct (isSocket H (Mode a)); [intros x Hx; by left |].
  destruct (_ || _); [apply rec_visitNode |].
  destruct (isSymlink H (Mode a));
    [apply rec_visitSymlink | apply rec_visitRegular].
Qed.

Lemma inOrder_more s0 es es' x :
  InOrder s0 es x -> InOrder s0 (es ++ es') x.
Proof.
  intros (l & Hl & Hs). exists l. split; [exact Hl |].
  rewrite omap_app. by apply sublist_inserts_r.
Qed.

Lemma inOrder_callback s0 es e x x' r :
  InOrder s0 es x -> callback H cfg env run e x = (x', r) ->
  InOrder s0 (es ++ [e]) x'.
Proof.
  intros (l & Hl & Hs) Hcb.
  pose proof (rec_callback x e x eq_refl) as Hrec. rewrite Hcb in Hrec.
  assert (Hx' : Recorded x (entryMD e) x') by (by destruct r).
  destruct Hx' as [Hsame | (r0 & Hr & Hlive & Hmd)].
  - apply inOrder_more. exists l. by rewrite Hsame.
  - exists (l ++ [rec_md r0]). split.
    + rewrite Hr, filter_app, map_app, Hl, <- app_assoc.
      by rewrite (filter_cons_True live r0 []).
    + rewrite omap_app. apply sublist_app; [exact Hs |].
      simpl. by rewrite Hmd.
Qed.

Lemma inOrder_walk s0 es0 es x x' r :
  InOrder s0 es0 x -> walk H cfg env run es x = (x', r) ->
  InOrder s0 (es0 ++ es) x'.
Proof.
  revert es0 x. induction es as [|e es IH]; intros es0 x Hx; simpl.
  - intros [= <- <-]. by rewrite app_nil_r.
  - unfold seq. destruct (callback H cfg env run e x) as [x1 r1] eqn:Hcb.
    pose proof (inOrder_callback s0 es0 e x x1 r1 Hx Hcb) as H1.
    replace (es0 ++ e :: es) with ((es0 ++ [e]) ++ es)
      by (by rewrite <- app_assoc).
    destruct r1 as [err|]; [intros [= <- <-]; by apply inOrder_more |].
    by apply IH.
Qed.

Lemma inOrder_walkRoots s0 roots i es0 x :
  InOrder s0 es0 x ->
  InOrder s0 (es0 ++ flat_map (env_walk env) (List.seq i (length roots)))
    (walkRoots H cfg env run i roots x).1.
Proof.
  revert i es0 x. induction roots as [|rt roots IH]; intros i es0 x Hx; simpl.
  - by rewrite app_nil_r.
  - destruct (walk H cfg env run (env_walk env i) x) as [x1 r1] eqn:Hw.
    pose proof (inOrder_walk s0 es0 _ x x1 r1 Hx Hw) as H1.
    rewrite app_assoc.
    destruct r1 as [err|]; [simpl; by apply inOrder_more |].
    by apply IH.
Qed.

End Order.

Section MoreRuns.
Context (H : Helpers) (cfg : Config) (env : Env).

Lemma filter_live_tombs l : filter live (map tombOf l) = [].
Proof.
  induction l as [|p l IH]; [done|]. simpl.
  rewrite filter_cons_False; [exact IH|]. intros Hl. by apply Hl.
Qed.

Lemma opened_pending d run s0 :
  Opened H cfg env d run s0 -> Pending run [] s0.
Proof.
  intros Hop. unfold Pending.
  rewrite (op_paths _ _ _ _ _ _ Hop), (op_sc _ _ _ _ _ _ Hop). done.
Qed.

(** What the walk of a run has recorded is live. *)
Lemma walked_live d run s0 i roots :
  Opened H cfg env d run s0 ->
  Forall live (snapRecs (walkRoots H cfg env run i roots s0).1).
Proof.
  intros Hop.
  destruct (ext_walkRoots H cfg env run roots i s0)
    as [_ _ (rs & R1 & Fr) _ _].
  rewrite R1, (op_snap _ _ _ _ _ _ Hop). simpl.
  eapply Forall_impl; [exact Fr|]. by intros r [].
Qed.

(** X10. In a run that returns nil the tombstones are, each once, the
    paths that the cache in use lists and the new cache does not: every
    path of the previous cache is carried over or tombstoned, never both. *)
Theorem previous_paths_partitioned d s :
  backup H cfg env d = (s, Done) ->
  exists s0 run,
    setup H cfg env d = (s0, inr run)
    /\ NoDup (tombPaths (snapRecs s))
    /\ forall p, p ∈ tombPaths (snapRecs s) <->
         p ∈ Paths (existingSC run) /\ (p ∉ (scRecs s).*1).
Proof.
  intros (s0 & run & Hset & Hop & Hc)%backup_done.
  destruct Hc as [(s1 & Hw & R & A & U) _ _ _ _ _].
  exists s0, run. split; [done|].
  pose proof (pending_walkRoots H cfg env run _ _ _ _ Hw
                (opened_pending _ _ _ Hop)) as Hp.
  pose proof (walked_live d run s0 0%nat (Backup_Paths cfg) Hop) as Hl.
  rewrite Hw in Hl. simpl in Hl.
  assert (tombPaths (snapRecs s) = elements (pathsToCheck s1)) as ->.
  { by rewrite R, tombPaths_app, tombPaths_tombs, tombPaths_live. }
  split; [apply NoDup_elements|].
  intros p. rewrite elem_of_elements, A. unfold Pending in Hp. simpl in Hp.
  pose proof (elem_of_list_to_set (C := gset string) p (scRecs s1).*1).
  set_solver.
Qed.

(** The records of a run are those of the walk, then tombstones. *)
Lemma body_walked run s0 s o :
  body H cfg env run s0 = (s, o) ->
  exists dn,
    snapRecs s
    = snapRecs (walkRoots H cfg env run 0 (Backup_Paths cfg) s0).1
      ++ map tombOf dn.
Proof.
  unfold body.
  destruct (walkRoots H cfg env run 0 (Backup_Paths cfg) s0)
    as [s1 [[root err]|]]; simpl.
  - intros [= <- <-]. exists []. simpl. by rewrite app_nil_r.
  - pose proof (tombstones_spec env run (elements (pathsToCheck s1)) s1) as Ht.
    destruct (tombstones env run (elements (pathsToCheck s1)) s1)
      as [s2 [e|]]; destruct Ht as (_ & A & _ & _ & dn & R & Hdn).
    + intros [= <- <-]. by exists dn.
    + intros Hfin. exists dn.
      assert (snapRecs s = snapRecs s2) as ->; [| done].
      revert Hfin. unfold finish.
      destruct (env_snapCloseOk env); simpl; [| by intros [= <- <-]].
      destruct (env_scCloseOk env); simpl; [| by intros [= <- <-]].
      destruct (_ && _); [by intros [= <- <-] |].
      destruct (env_renameOk env); simpl; [| by intros [= <- <-]].
      destruct (env_chownSigOk env); by intros [= <- <-].
Qed.

(** X11. However a run ends, the records it has put in the snapshot are
    the live ones followed by the tombstones; the live ones follow the
    order of the walk: their metadata are, in order, metadata of entries
    that [filepath.Walk] handed to the callback, root after root; and a
    tombstone carries the path alone, with zero attributes and no
    payload. *)
Theorem tombstones_follow_records d s o :
  backup H cfg env d = (s, o) ->
  snapRecs s
  = filter live (snapRecs s) ++ map tombOf (tombPaths (snapRecs s))
  /\ map rec_md (filter live (snapRecs s))
     `sublist_of` omap entryMD (walked env (length (Backup_Paths cfg))).
Proof.
  unfold backup. destruct (setup H cfg env d) as [s0 [o'|run]] eqn:Hset.
  - intros [= <- <-].
    destruct (setup_failed_records H cfg env d s0 o' Hset) as [_ ->].
    split; [done | apply sublist_nil_l].
  - intros Hb.
    pose proof (setup_opened H cfg env d s0 run Hset) as Hop.
    split.
    + destruct (body_records H cfg env run s0 s o Hb)
        as (s1 & dn & [_ _ (rs & R1 & Fr) _ _] & _ & R & _).
      rewrite (op_snap _ _ _ _ _ _ Hop) in R1. simpl in R1.
      assert (Forall live rs) as Hl
        by (eapply Forall_impl; [exact Fr|]; by intros r []).
      rewrite R, R1, filter_app, tombPaths_app, tombPaths_tombs.
      rewrite (tombPaths_live rs Hl), filter_live_tombs, app_nil_r. simpl.
      f_equal. clear -Hl. induction Hl as [|r rs Hr _ IH]; [done|].
      rewrite filter_cons_True by done. by rewrite <- IH.
    + destruct (body_walked run s0 s o Hb) as [dn ->].
      rewrite filter_app, filter_live_tombs, app_nil_r.
      destruct (inOrder_walkRoots H cfg env run s0 (Backup_Paths cfg) 0 [] s0)
        as (l & Hl & Hs).
      { exists []. split; [by rewrite app_nil_r | apply sublist_nil_l]. }
      rewrite (op_snap _ _ _ _ _ _ Hop) in Hl. simpl in Hl, Hs.
      by rewrite Hl.
Qed.

End MoreRuns.

Section Untouched.
Context (H : Helpers) (cfg : Config) (env : Env) (run : Run).
Context (n : string) (f : File).
Hypothesis not_inprogress : n <> inprogress.
Hypothesis not_snapshot : n <> snapName run.

Local Abbreviation K := (Keeps n f).

Lemma keeps_frame g : (forall s, dir (g s) = dir s) -> Pres K (lift g).
Proof.
  intros Hg. apply pres_lift. intros s Hs. unfold Keeps in *. by rewrite Hg.
Qed.

Lemma keeps_write m g : m <> n -> Pres K (lift (emit (EvWrite m g))).
Proof.
  intros Hm. apply pres_lift. intros s Hs. unfold Keeps in *. simpl.
  by rewrite lookup_insert_ne.
Qed.

Lemma keeps_snapAdd ok md k from content size :
  Pres K (snapAdd run ok md k from content size).
Proof.
  unfold snapAdd. apply pres_seq; [apply pres_guard |].
  apply pres_lift. intros s Hs. unfold Keeps in *. simpl.
  by rewrite lookup_insert_ne.
Qed.

Lemma keeps_scAdd ok p sig : Pres K (scAdd run ok p sig).
Proof.
  intros s Hs. unfold scAdd. case_bool_decide; [done |].
  destruct ok; [| done]. unfold Keeps in *. simpl.
  by rewrite lookup_insert_ne.
Qed.

Lemma keeps_dropTemp tmp : tmp <> n -> Pres K (dropTemp env tmp).
Proof.
  intros Hm s Hs. unfold dropTemp, doRemove, seq, lift, Keeps in *. simpl.
  destruct (env_rmFails env tmp); simpl; [done | by rewrite lookup_delete_ne].
Qed.

Lemma keeps_stageDelta e md delta : Pres K (stageDelta env run e md delta).
Proof.
  unfold stageDelta. destruct (w_createTemp e) as [rnd|]; [| apply pres_fail].
  cbv zeta. set (tmp := "delta" +:+ rnd).
  destruct (decide (tmp = n)) as [Heq|Hne].
  - (* the name is taken: [O_EXCL] refuses it *)
    intros s Hs. unfold seq, createTemp. rewrite Heq.
    unfold Keeps in Hs. rewrite Hs. exact Hs.
  - assert (Pres K (createTemp tmp)) as Hcreate.
    { intros s Hs. unfold createTemp. destruct (dir s !! tmp); [done |].
      unfold Keeps in *. simpl. by rewrite lookup_insert_ne. }
    repeat first
      [ pres_step | exact Hcreate | apply keeps_snapAdd
      | by apply keeps_dropTemp | by apply keeps_write ].
Qed.

Lemma keeps_callback e : Pres K (callback H cfg env run e).
Proof.
  unfold callback, visitNode, visitSymlink, visitRegular.
  repeat (cbv zeta;
    first [ pres_step | apply keeps_snapAdd | apply keeps_scAdd
          | apply keeps_stageDelta
          | apply keeps_frame; intros ?; done ]).
Qed.

Lemma keeps_tombstones ps : Pres K (tombstones env run ps).
Proof.
  induction ps as [|p ps IH]; simpl; [apply pres_ret |].
  apply pres_seq; [by apply keeps_frame |].
  apply pres_seq; [apply keeps_snapAdd | exact IH].
Qed.

Lemma keeps_dropSnapshot s : K s -> K (dropSnapshot env run s).
Proof.
  unfold Keeps, dropSnapshot. simpl. intros Hs.
  destruct (negb _); simpl; [by rewrite lookup_delete_ne | done].
Qed.

Lemma keeps_finish s : n <> sigCache -> K s -> K (finish env run s).1.
Proof.
  intros Hsig Hs. unfold finish.
  destruct (negb (env_snapCloseOk env)).
  { simpl. unfold Keeps in *. simpl.
    destruct (negb _); simpl; [by rewrite lookup_delete_ne | done]. }
  destruct (negb (env_scCloseOk env)); [exact Hs |].
  destruct (_ && _); [exact Hs |].
  destruct (negb (env_renameOk env)); [exact Hs |].
  cbv zeta. unfold Keeps in *.
  assert (dir (emit (EvRename inprogress sigCache)
                 (emit (EvClose inprogress true)
                    (emit (EvClose (snapName run) true) s))) !! n = Some f)
    as Hr.
  { simpl. destruct (dir s !! inprogress); [| done].
    by rewrite lookup_insert_ne, lookup_delete_ne. }
  by destruct (env_chownSigOk env).
Qed.

Lemma keeps_body s0 :
  n <> sigCache -> K s0 -> K (body H cfg env run s0).1.
Proof.
  intros Hsig Hs. unfold body.
  pose proof (pres_walkRoots H cfg env run K (Backup_Paths cfg) 0 s0
                keeps_callback Hs) as Hw.
  destruct (walkRoots H cfg env run 0 (Backup_Paths cfg) s0)
    as [s1 [[r e]|]]; simpl in Hw.
  { by apply keeps_dropSnapshot. }
  pose proof (pres_state _ _ s1 (keeps_tombstones (elements (pathsToCheck s1)))
                Hw) as Ht.
  destruct (tombstones env run (elements (pathsToCheck s1)) s1)
    as [s2 [e|]]; simpl in Ht.
  { by apply keeps_dropSnapshot. }
  by apply keeps_finish.
Qed.

End Untouched.

Section MoreSetup.
Context (H : Helpers) (cfg : Config) (env : Env).

Lemma removeOne_dry l s :
  DryRun cfg = true ->
  dir (fold_left (removeOne cfg env) l s) = dir s
  /\ trace (fold_left (removeOne cfg env) l s) = trace s.
Proof.
  intros Hdry. revert s. induction l as [|n l IH]; intros s; [done|].
  simpl. destruct (IH (removeOne cfg env s n)) as [-> ->].
  unfold removeOne. rewrite Hdry. by destruct (negb _).
Qed.

(** X12. [removeOld] panics exactly when the directory cannot be read.
    Otherwise it takes out of the directory the entries whose name ends
    in [.gz.enc] and whose removal succeeds, and leaves every other entry,
    the records and the deletion set as they were; every operation it
    issues is the removal of such a name; and in a dry run it issues none
    and the directory stays as it was. *)
Theorem removeOld_sweeps s :
  (removeOld cfg env s = None <-> env_readDirOk env = false)
  /\ forall s', removeOld cfg env s = Some s' ->
       (forall n, dir s' !! n
                  = if removed cfg env n then None else dir s !! n)
       /\ Grows gzRemoval s s'
       /\ snapRecs s' = snapRecs s /\ scRecs s' = scRecs s
       /\ pathsToCheck s' = pathsToCheck s
       /\ (DryRun cfg = true -> dir s' = dir s /\ trace s' = trace s).
Proof.
  split.
  { unfold removeOld. destruct (env_readDirOk env); split; done. }
  intros s' Hrm.
  destruct (removeOld_swept cfg env s s' Hrm) as [[Hg _ R A P _] Hdir].
  split_and!; try done.
  intros Hdry. revert Hrm. unfold removeOld.
  destruct (env_readDirOk env); [|done]. intros [= <-].
  by apply removeOne_dry.
Qed.

Lemma setup_inl_dir d s o n :
  setup H cfg env d = (s, inl o) ->
  n <> inprogress -> HasSuffix n ".gz.enc" = false ->
  dir s !! n = d !! n.
Proof.
  intros Hset Hn Hgz. revert Hset. unfold setup.
  destruct (env_abs env _) as [dAbs|]; [| by intros [= <- <-]].
  destruct (env_gid env); [| by intros [= <- <-]].
  destruct (env_mkdirAllOk env); [| by intros [= <- <-]].
  destruct (env_chownDirOk env); simpl; [| by intros [= <- <-]].
  destruct (LoadSignatureCache env d) as [loaded err].
  set (s1 := if bool_decide (err = Some false) then _ else _).
  assert (Hs1 : dir s1 = d) by (subst s1; by case_bool_decide).
  destruct (env_newSCOk env); [| intros [= <- <-]; by rewrite Hs1]. simpl.
  unfold openRun. set (s2 := setPaths _ (emit _ s1)).
  assert (Hs2 : dir s2 !! n = d !! n).
  { subst s2. simpl. by rewrite lookup_insert_ne, Hs1. }
  assert (Hns : n <> snapName (mkRunOf H cfg env loaded dAbs)).
  { intros ->. by rewrite mkRunOf_gz in Hgz. }
  destruct (instance _ =? 0)%Z.
  - destruct (removeOld cfg env s2) as [s3|] eqn:Hrm;
      [| by intros [= <- <-]].
    apply removeOld_swept in Hrm as [_ Hdir].
    destruct (env_newSnapOk env); simpl; [done |]. intros [= <- <-].
    rewrite newSnapshotFailed_dir by exact Hns.
    simpl. rewrite Hdir. unfold removed. rewrite Hgz. exact Hs2.
  - destruct (env_newSnapOk env); simpl; [done |]. intros [= <- <-].
    by rewrite newSnapshotFailed_dir by exact Hns.
Qed.

Lemma body_not_panicked run s : (body H cfg env run s).2 <> Panicked.
Proof.
  unfold body.
  destruct (walkRoots H cfg env run 0 (Backup_Paths cfg) s)
    as [s1 [[r e]|]]; [done|].
  destruct (tombstones env run (elements (pathsToCheck s1)) s1)
    as [s2 [e|]]; [done|].
  unfold finish. repeat (destruct (negb _); [done|]).
  destruct (_ && _); [done|]. by destruct (negb _).
Qed.

(** X13. Whatever a run does and however it ends, an entry of the backup
    directory that is neither [sig.cache] nor [sig.cache.inprogress] and
    whose name does not end in [.gz.enc] holds afterwards what it held
    before. *)
Theorem other_entries_untouched d s o n f :
  backup H cfg env d = (s, o) ->
  d !! n = Some f ->
  n <> sigCache -> n <> inprogress -> HasSuffix n ".gz.enc" = false ->
  dir s !! n = Some f.
Proof.
  intros Hb Hd Hsig Hinp Hgz. revert Hb. unfold backup.
  destruct (setup H cfg env d) as [s0 [o'|run]] eqn:Hset.
  - intros [= <- <-]. by rewrite (setup_inl_dir d s0 o' n Hset).
  - intros Hb.
    pose proof (setup_opened H cfg env d s0 run Hset) as Hop.
    pose proof (opened_gz H cfg env d run s0 Hop) as Hsn.
    assert (n <> snapName run) as Hns by (intros ->; congruence).
    pose proof (op_others _ _ _ _ _ _ Hop n Hinp Hns) as H0.
    unfold removed in H0. rewrite Hgz, andb_false_r in H0. simpl in H0.
    pose proof (keeps_body H cfg env run n f Hinp Hns s0 Hsig) as Hk.
    rewrite Hb in Hk. apply Hk. unfold Keeps. by rewrite H0.
Qed.

(** X14. A run panics only in [removeOld], when the directory of a fresh
    generation cannot be read: by then it has made the directory, created
    the empty [sig.cache.inprogress] of increment 0, and done nothing
    else. *)
Theorem panic_only_from_removeOld d s :
  backup H cfg env d = (s, Panicked) ->
  env_readDirOk env = false
  /\ exists c,
       instance c = 0%Z /\ entries c = []
       /\ trace s = [EvMkdirAll; EvChownDir; EvWrite inprogress (FCache c)]
       /\ dir s = <[inprogress := FCache c]> d.
Proof.
  unfold backup. destruct (setup H cfg env d) as [s0 [o'|run]] eqn:Hset.
  2:{ intros Hb. pose proof (body_not_panicked run s0) as Hn.
      rewrite Hb in Hn. done. }
  intros [= <- ->]. revert Hset. unfold setup.
  destruct (env_abs env _) as [dAbs|]; [| done].
  destruct (env_gid env); [| done].
  destruct (env_mkdirAllOk env); [| done].
  destruct (env_chownDirOk env); simpl; [| done].
  destruct (LoadSignatureCache env d) as [loaded err].
  set (s1 := if bool_decide (err = Some false) then _ else _).
  assert (Hs1 : dir s1 = d /\ trace s1 = [EvMkdirAll; EvChownDir])
    by (subst s1; by case_bool_decide).
  destruct Hs1 as [Hd1 Ht1].
  destruct (env_newSCOk env); [| done]. simpl.
  unfold openRun. set (run := mkRunOf H cfg env loaded dAbs).
  set (s2 := setPaths _ (emit _ s1)).
  destruct (instance (sc run) =? 0)%Z eqn:Hinst.
  - unfold removeOld. destruct (env_readDirOk env).
    + destruct (env_newSnapOk env); simpl; done.
    + intros [= <-]. split; [done|]. exists (sc run).
      split_and!.
      * by apply Z.eqb_eq.
      * apply newCache_entries.
      * simpl. by rewrite Ht1.
      * simpl. by rewrite Hd1.
  - destruct (env_newSnapOk env); simpl; done.
Qed.

(** X15. While the increment that follows the loaded cache does not
    exceed [MaxIntervals], a run that returns nil stays in the generation:
    it reconciles against the loaded cache, and the cache and the snapshot
    it leaves carry the host name, the time stamp of the loaded cache and
    its increment plus one.  When that increment is not 0, every other
    entry of the directory, the earlier snapshots among them, holds what
    it held before. *)
Theorem next_increment d s c :
  backup H cfg env d = (s, Done) ->
  d !! sigCache = Some (FCache c) -> env_loadOk env = true ->
  (wrap16 (instance c + 1) <= Backup_MaxIntervals cfg)%Z ->
  exists s0 run,
    setup H cfg env d = (s0, inr run)
    /\ existingSC run = Some c
    /\ sc run = NewSignatureCache env (timeStamp c) (wrap16 (instance c + 1))
    /\ dir s !! sigCache = Some (FCache (withEntries (sc run) (scRecs s)))
    /\ dir s !! snapName run
       = Some (FSnapshot
                 (mkSnapHeader (env_hostname env) (timeStamp c)
                    (wrap16 (instance c + 1)) FormatVersion)
                 (snapRecs s))
    /\ (wrap16 (instance c + 1) <> 0%Z ->
        forall n g, d !! n = Some g ->
          n <> sigCache -> n <> inprogress -> n <> snapName run ->
          dir s !! n = Some g).
Proof.
  intros Hb Hd Hload Hmax.
  destruct (backup_done H cfg env d s Hb) as (s0 & run & Hset & Hop & Hc).
  exists s0, run. split; [done|].
  destruct (op_run _ _ _ _ _ _ Hop) as (dAbs & _ & Hrun).
  assert (LoadSignatureCache env d = (Some c, None)) as Hl
    by (unfold LoadSignatureCache; by rewrite Hd, Hload).
  rewrite Hl in Hrun. simpl in Hrun.
  assert (isFresh cfg (Some c) = false) as Hfresh.
  { unfold isFresh. rewrite Z.gtb_ltb. apply Z.ltb_ge. lia. }
  assert (existingSC run = Some c) as Hex
    by (rewrite Hrun; unfold mkRunOf; cbv zeta; cbn [existingSC];
        by rewrite Hfresh).
  assert (sc run = NewSignatureCache env (timeStamp c)
                     (wrap16 (instance c + 1))) as Hsc.
  { rewrite Hrun. unfold mkRunOf, newCache. cbv zeta. cbn [sc].
    by rewrite Hfresh. }
  assert (snapHdr run = mkSnapHeader (env_hostname env) (timeStamp c)
                          (wrap16 (instance c + 1)) FormatVersion) as Hh.
  { rewrite Hrun. unfold mkRunOf, newCache. cbv zeta. cbn [snapHdr].
    by rewrite Hfresh. }
  split_and!; [done | done | apply (cm_cache _ _ _ _ _ _ Hc) | |].
  - rewrite <- Hh. apply (cm_snapshot _ _ _ _ _ _ Hc).
  - intros Hne n g Hn Hsig Hinp Hns.
    pose proof (op_others _ _ _ _ _ _ Hop n Hinp Hns) as H0.
    rewrite Hsc in H0. simpl in H0.
    apply Z.eqb_neq in Hne. rewrite Hne in H0. simpl in H0.
    pose proof (keeps_body H cfg env run n g Hinp Hns s0 Hsig) as Hk.
    unfold backup in Hb. rewrite Hset in Hb. rewrite Hb in Hk.
    apply Hk. unfold Keeps. by rewrite H0.
Qed.

End MoreSetup.

Section MoreEntries.
Context (H : Helpers) (cfg : Config) (env : Env) (run : Run).

Lemma callback_node e p a :
  classified H cfg run e p a -> isSocket H (Mode a) = false ->
  isCharDevice H (Mode a) || isDevice H (Mode a) || isNamedPipe H (Mode a)
    || isDir H (Mode a) = true ->
  callback H cfg env run e =
  visitNode H run e p (mkMetadata p a) (Get (existingSC run) p).
Proof.
  intros (He & Hc & Ha & Hp & Hx & Hm & Hg) M1 M2.
  unfold callback. rewrite He, Hc, Ha, Hp, Hx, Hm, Hg. simpl.
  by rewrite M1, M2.
Qed.

(** X16. A directory, a device or a named pipe is recorded by its
    metadata alone: when its signature differs from the one the cache in
    use returns, the callback writes one record of kind 0 with no payload;
    when the two are equal it writes none.  Either way it adds the path
    with the fresh signature to the new cache and takes it out of the
    deletion set; it returns nil exactly when these writes are accepted
    and the path was not added before. *)
Theorem node_records e p a s s' r :
  classified H cfg run e p a -> isSocket H (Mode a) = false ->
  isCharDevice H (Mode a) || isDevice H (Mode a) || isNamedPipe H (Mode a)
    || isDir H (Mode a) = true ->
  w_genSigOk e = true ->
  callback H cfg env run e s = (s', r) ->
  let md := mkMetadata p a in
  let sig := GenSignature H md None 0 in
  (r = None <->
     (p ∉ (scRecs s).*1) /\ w_scAddOk e = true
     /\ (Get (existingSC run) p <> sig -> w_snapAddOk e = true))
  /\ (r = None ->
      snapRecs s'
      = snapRecs s ++ (if Equal (Get (existingSC run) p) sig then []
                       else [mkRecord md KMeta RNil 0 []])
      /\ scRecs s' = scRecs s ++ [(p, sig)]
      /\ pathsToCheck s' = pathsToCheck s ∖ {[p]}).
Proof.
  intros Hcl Hsock Hnode Hgs. rewrite (callback_node e p a Hcl Hsock Hnode).
  unfold visitNode. rewrite Hgs. cbv zeta.
  destruct (Equal _ _) eqn:Heq; simpl.
  - apply Equal_true in Heq. rewrite Heq.
    unfold seq, guard, ret, lift, scAdd. simpl.
    case_bool_decide as Hin; simpl.
    { intros [= <- <-]. split; [|done]. split; [done | by intros [? _]]. }
    destruct (w_scAddOk e); simpl; intros [= <- <-].
    + split; [|by rewrite app_nil_r]. split; [|done]. intros _.
      split_and!; try done.
    + split; [|done]. split; [done | by intros (_ & ? & _)].
  - apply Equal_false in Heq.
    unfold seq, guard, ret, lift, snapAdd, scAdd. simpl.
    destruct (w_snapAddOk e); simpl.
    2:{ intros [= <- <-]. split; [|done].
        split; [done | intros (_ & _ & Hs); by specialize (Hs Heq)]. }
    case_bool_decide as Hin; simpl.
    { intros [= <- <-]. split; [|done]. split; [done | by intros [? _]]. }
    destruct (w_scAddOk e); simpl; intros [= <- <-].
    + split; [|done]. split; [|done]. intros _. split_and!; done.
    + split; [|done]. split; [done | by intros (_ & ? & _)].
Qed.

(** X17. A regular file that the cache in use does not list goes into
    the snapshot whole: when the callback returns nil it has written one
    record of kind 1 that streams the open file for the length
    [srcFD.Stat] reports, added the path with the signature taken over
    the length the walk reported, logged a new file and taken the path
    out of the deletion set. *)
Theorem new_regular_file e p a content size s s' :
  classified H cfg run e p a -> plainMode H (Mode a) ->
  isSymlink H (Mode a) = false ->
  w_open e = Some content -> w_genSigOk e = true ->
  Get (existingSC run) p = [] ->
  GenSignature H (mkMetadata p a) (Some content) (w_size e) <> [] ->
  w_fdStat e = Some size ->
  callback H cfg env run e s = (s', None) ->
  snapRecs s'
  = snapRecs s ++ [mkRecord (mkMetadata p a) KFull RSource size
                     (take (Z.to_nat size) content)]
  /\ scRecs s'
     = scRecs s ++ [(p, GenSignature H (mkMetadata p a) (Some content)
                          (w_size e))]
  /\ log s' = log s ++ [LNewFile p]
  /\ pathsToCheck s' = pathsToCheck s ∖ {[p]}.
Proof.
  intros Hcl Hpm Hsym Hop Hgs Hget Hne Hst.
  rewrite (callback_regular H cfg env run e p a Hcl Hpm Hsym).
  unfold visitRegular. rewrite Hop, Hgs, Hget, Hst. cbv zeta.
  assert (Equal [] (GenSignature H (mkMetadata p a) (Some content) (w_size e))
          = false) as -> by (apply Equal_false; congruence).
  simpl. unfold seq, guard, ret, lift, snapAdd, scAdd. simpl.
  destruct (w_snapAddOk e); simpl; [|done].
  case_bool_decide as Hin; simpl; [done|].
  destruct (w_scAddOk e); simpl; [|done].
  by intros [= <-].
Qed.

End MoreEntries.

Section Leftovers.
Context (H : Helpers) (cfg : Config) (env : Env).

(** A run that ends in the set-up: up to the call of [NewSnapshot] it has
    written [sig.cache.inprogress] at most, and it stops right after a
    call that fails. *)
Lemma setup_failed_trace d s o :
  setup H cfg env d = (s, inl o) ->
  match o with
  | Failed ENewSnapshot =>
      exists pre,
        Forall beforeSnapshot pre
        /\ trace s
           = pre ++ match env_newSnapLeft env with
                    | Some b =>
                        [EvWrite
                           (snapshotName H
                              (newCache cfg env (LoadSignatureCache env d).1))
                           (FBlob b)]
                    | None => []
                    end
        /\ forall b, env_newSnapLeft env = Some b ->
             dir s !! snapshotName H
                        (newCache cfg env (LoadSignatureCache env d).1)
             = Some (FBlob b)
  | _ => Forall beforeSnapshot (trace s)
  end.
Proof.
  unfold setup.
  destruct (env_abs env _) as [dAbs|]; [| by intros [= <- <-]].
  destruct (env_gid env); [| by intros [= <- <-]].
  destruct (env_mkdirAllOk env); [| by intros [= <- <-]].
  destruct (env_chownDirOk env); simpl;
    [| intros [= <- <-]; by repeat constructor].
  destruct (LoadSignatureCache env d) as [loaded err].
  set (s1 := if bool_decide (err = Some false) then _ else _).
  assert (Hs1 : trace s1 = [EvMkdirAll; EvChownDir])
    by (subst s1; by case_bool_decide).
  destruct (env_newSCOk env);
    [| intros [= <- <-]; rewrite Hs1; by repeat constructor]. simpl.
  unfold openRun. set (s2 := setPaths _ (emit _ s1)).
  assert (Hs2 : Forall beforeSnapshot (trace s2)).
  { subst s2. simpl. rewrite Hs1. repeat constructor; try done.
    by intros n f [= <- _]. }
  assert (Hfail : forall s3, Forall beforeSnapshot (trace s3) ->
    exists pre,
      Forall beforeSnapshot pre
      /\ trace (NewSnapshotFailed env (mkRunOf H cfg env loaded dAbs) s3)
         = pre ++ match env_newSnapLeft env with
                  | Some b =>
                      [EvWrite (snapshotName H (newCache cfg env loaded))
                         (FBlob b)]
                  | None => []
                  end
      /\ forall b, env_newSnapLeft env = Some b ->
           dir (NewSnapshotFailed env (mkRunOf H cfg env loaded dAbs) s3)
             !! snapshotName H (newCache cfg env loaded)
           = Some (FBlob b)).
  { intros s3 H3. exists (trace s3). unfold NewSnapshotFailed.
    destruct (env_newSnapLeft env) as [b|]; simpl.
    - split_and!; [done | done |]. intros b' [= <-].
      apply lookup_insert_eq.
    - split_and!; [done | by rewrite app_nil_r | done]. }
  destruct (instance _ =? 0)%Z.
  - destruct (removeOld cfg env s2) as [s3|] eqn:Hrm;
      [| by intros [= <- <-]].
    apply removeOld_swept in Hrm as [[(evs & T & _ & F) _ _ _ _ _] _].
    destruct (env_newSnapOk env); simpl; [done |]. intros [= <- <-].
    apply Hfail. simpl. rewrite T. apply Forall_app_2; [exact Hs2|].
    eapply Forall_impl; [exact F|]. by intros [].
  - destruct (env_newSnapOk env); simpl; [done |]. intros [= <- <-].
    by apply Hfail.
Qed.

Lemma setup_outcome d s o :
  setup H cfg env d = (s, inl o) ->
  match o with
  | Panicked
  | Failed (EAbs | EGroup | EMkdirAll | EChownDir | ENewSignatureCache
           | ENewSnapshot) => True
  | _ => False
  end.
Proof.
  unfold setup.
  destruct (env_abs env _) as [dAbs|]; [| by intros [= <- <-]].
  destruct (env_gid env); [| by intros [= <- <-]].
  destruct (env_mkdirAllOk env); [| by intros [= <- <-]].
  destruct (env_chownDirOk env); simpl; [| by intros [= <- <-]].
  destruct (LoadSignatureCache env d) as [loaded err].
  destruct (env_newSCOk env); [| by intros [= <- <-]]. simpl.
  unfold openRun.
  destruct (instance _ =? 0)%Z.
  - destruct (removeOld cfg env _) as [s3|]; [| by intros [= <- <-]].
    destruct (env_newSnapOk env); simpl; [done |]. by intros [= <- <-].
  - destruct (env_newSnapOk env); simpl; [done |]. by intros [= <- <-].
Qed.

Lemma dropSnapshot_gone run s :
  last (trace (dropSnapshot env run s))
  = Some (EvRemove (snapName run) (negb (env_rmFails env (snapName run))))
  /\ (env_rmFails env (snapName run) = false ->
      dir (dropSnapshot env run s) !! snapName run = None).
Proof.
  unfold dropSnapshot. simpl. split; [apply last_snoc|].
  intros ->. simpl. apply lookup_delete_eq.
Qed.

(** X18. What a failed run leaves of its snapshot.  A run that fails
    before it calls [NewSnapshot] has written no file but
    [sig.cache.inprogress].  A run in which [NewSnapshot] fails stops
    there and removes nothing: what the call left under the name of the
    snapshot stays in the directory.  A run that fails in the walk, at a
    tombstone or at the close of the snapshot removes the file, which is
    gone when that removal succeeds.  A run that fails later, at the close
    of either cache or at the rename, leaves the complete snapshot in the
    directory, closed, and the new cache in [sig.cache.inprogress]. *)
Theorem failed_run_snapshot d s e :
  backup H cfg env d = (s, Failed e) ->
  match e with
  | EWalk _ _ | ETombstone | ESnapClose =>
      exists s0 run,
        setup H cfg env d = (s0, inr run)
        /\ last (trace s)
           = Some (EvRemove (snapName run)
                     (negb (env_rmFails env (snapName run))))
        /\ (env_rmFails env (snapName run) = false ->
            dir s !! snapName run = None)
  | EScClose | EExistingClose | ERename =>
      exists s0 run,
        setup H cfg env d = (s0, inr run)
        /\ dir s !! snapName run
           = Some (FSnapshot (snapHdr run) (snapRecs s))
        /\ EvClose (snapName run) true ∈ trace s
        /\ dir s !! inprogress
           = Some (FCache (withEntries (sc run) (scRecs s)))
  | ENewSnapshot =>
      exists pre,
        Forall beforeSnapshot pre
        /\ trace s
           = pre ++ match env_newSnapLeft env with
                    | Some b =>
                        [EvWrite
                           (snapshotName H
                              (newCache cfg env (LoadSignatureCache env d).1))
                           (FBlob b)]
                    | None => []
                    end
        /\ forall b, env_newSnapLeft env = Some b ->
             dir s !! snapshotName H
                        (newCache cfg env (LoadSignatureCache env d).1)
             = Some (FBlob b)
  | _ => Forall beforeSnapshot (trace s)
  end.
Proof.
  unfold backup. destruct (setup H cfg env d) as [s0 [o'|run]] eqn:Hset.
  { intros [= <- ->]. pose proof (setup_failed_trace d s0 _ Hset) as Ht.
    pose proof (setup_outcome d s0 _ Hset) as Ho.
    by destruct e. }
  pose proof (setup_opened H cfg env d s0 run Hset) as Hop.
  pose proof (opened_gz H cfg env d run s0 Hop) as Hgz.
  pose proof (opened_files H cfg env d run s0 Hop) as Hf0.
  unfold body.
  pose proof (files_walkRoots H cfg env run Hgz _ 0%nat (Backup_Paths cfg) s0
                Hf0) as Hf1.
  destruct (walkRoots H cfg env run 0 (Backup_Paths cfg) s0)
    as [s1 [[r e']|]].
  { intros [= <- <-]. exists s0, run. split; [done|].
    apply dropSnapshot_gone. }
  simpl in Hf1.
  pose proof (pres_state _ _ s1
                (files_tombstones env run Hgz _ (elements (pathsToCheck s1)))
                Hf1) as Hf2.
  destruct (tombstones env run (elements (pathsToCheck s1)) s1)
    as [s2 [e'|]].
  { intros [= <- <-]. exists s0, run. split; [done|].
    apply dropSnapshot_gone. }
  simpl in Hf2. destruct Hf2 as (Hi & Hs & _ & _).
  unfold finish.
  destruct (env_snapCloseOk env); simpl.
  2:{ intros [= <- <-]. exists s0, run. split; [done|]. simpl.
      split; [apply last_snoc|]. intros ->. simpl. apply lookup_delete_eq. }
  assert (forall evs, EvClose (snapName run) true
            ∈ (trace s2 ++ [EvClose (snapName run) true]) ++ evs) as Hin.
  { intros evs. rewrite !elem_of_app. left. right.
    apply list_elem_of_here. }
  destruct (env_scCloseOk env); simpl.
  2:{ intros [= <- <-]. exists s0, run. simpl. split_and!; try done.
      all: apply (Hin [_]). }
  destruct (_ && _).
  { intros [= <- <-]. exists s0, run. simpl. split_and!; try done.
      all: apply (Hin [_]). }
  destruct (env_renameOk env); simpl; [done|].
  intros [= <- <-]. exists s0, run. simpl. split_and!; try done.
  all: apply (Hin [_]).
Qed.

(** X19. When no removal fails, a run that returns nil leaves no litter:
    [sig.cache.inprogress] is gone, [sig.cache] and the snapshot are
    there, and any other name is in the directory exactly when it was
    there before and [removeOld] did not take it; so no temporary file of
    a staged delta stays behind. *)
Theorem no_litter d s :
  backup H cfg env d = (s, Done) -> rmAlwaysOk env ->
  exists s0 run,
    setup H cfg env d = (s0, inr run)
    /\ dir s !! inprogress = None
    /\ is_Some (dir s !! sigCache)
    /\ is_Some (dir s !! snapName run)
    /\ forall n, n <> sigCache -> n <> inprogress -> n <> snapName run ->
         (is_Some (dir s !! n) <->
          is_Some (d !! n)
          /\ (instance (sc run) =? 0)%Z && removed cfg env n = false).
Proof.
  intros (s0 & run & Hset & Hop & Hc)%backup_done Hrm.
  exists s0, run. split; [done|].
  destruct Hc as [_ _ Hcache Hsnap Hnames (evs & ok & _ & Hdir & _ & _ & _ & Hinp)].
  split_and!.
  - rewrite Hdir, replay_app. simpl. rewrite Hinp.
    rewrite lookup_insert_ne by done. apply lookup_delete_eq.
  - by rewrite Hcache.
  - by rewrite Hsnap.
  - intros n Hsig Hin Hsn. rewrite (Hnames Hrm n Hsig Hin).
    rewrite (op_others _ _ _ _ _ _ Hop n Hin Hsn).
    destruct (_ && _); split.
    + by intros ?%is_Some_None.
    + by intros [_ ?].
    + by intros ?.
    + by intros [? _].
Qed.

End Leftovers.

(** ** Further runs of the engine *)

Lemma previous_paths_partitioned_witness :
  tombPaths (snapRecs Demo.second.1) = ["/src/tmp/secret"]
  /\ exists s0 run,
       setup Demo.helpers Demo.cfg2 Demo.env2 Demo.dir1 = (s0, inr run)
       /\ NoDup (tombPaths (snapRecs Demo.second.1))
       /\ forall p, p ∈ tombPaths (snapRecs Demo.second.1) <->
            p ∈ Paths (existingSC run) /\ (p ∉ (scRecs Demo.second.1).*1).
Proof.
  split; [vm_compute; reflexivity|].
  apply (previous_paths_partitioned Demo.helpers Demo.cfg2 Demo.env2
           Demo.dir1 Demo.second.1).
  vm_compute. reflexivity.
Defined.

Lemma tombstones_follow_records_witness :
  length (filter live (snapRecs Demo.second.1)) = 2%nat
  /\ snapRecs Demo.second.1
     = filter live (snapRecs Demo.second.1)
       ++ map tombOf (tombPaths (snapRecs Demo.second.1))
  /\ map rec_md (filter live (snapRecs Demo.second.1))
     `sublist_of` omap entryMD
                    (walked Demo.env2 (length (Backup_Paths Demo.cfg2))).
Proof.
  split; [vm_compute; reflexivity|].
  apply (tombstones_follow_records Demo.helpers Demo.cfg2 Demo.env2
           Demo.dir1 Demo.second.1 Done).
  vm_compute. reflexivity.
Defined.

Lemma removeOld_sweeps_witness :
  exists s',
    removeOld Demo.cfg1 Demo.envEmpty (initState Demo.dirOld) = Some s'
    /\ dir s' !! "old.gz.enc" = None
    /\ trace s' = [EvRemove "old.gz.enc" true]
    /\ exists s'',
         removeOld Demo.cfgDry Demo.envEmpty (initState Demo.dirOld)
         = Some s''
         /\ dir s'' = Demo.dirOld /\ trace s'' = [].
Proof.
  destruct (removeOld Demo.cfg1 Demo.envEmpty (initState Demo.dirOld))
    as [s'|] eqn:Hreal; [|vm_compute in Hreal; discriminate Hreal].
  destruct (removeOld Demo.cfgDry Demo.envEmpty (initState Demo.dirOld))
    as [s''|] eqn:Hdry; [|vm_compute in Hdry; discriminate Hdry].
  destruct (removeOld_sweeps Demo.cfg1 Demo.envEmpty (initState Demo.dirOld))
    as [_ Hr].
  destruct (removeOld_sweeps Demo.cfgDry Demo.envEmpty
              (initState Demo.dirOld)) as [_ Hd].
  destruct (Hr s' Hreal) as (Hdir & _).
  destruct (Hd s'' Hdry) as (_ & _ & _ & _ & _ & Hkeep).
  destruct (Hkeep eq_refl) as [Hkd Hkt].
  exists s'. split; [reflexivity|]. split; [by rewrite Hdir|].
  split; [vm_compute in Hreal; by injection Hreal as <-|].
  exists s''. by split_and!.
Defined.

Lemma other_entries_untouched_witness :
  MoreDemo.third.2 = Done
  /\ dir MoreDemo.third.1 !! "notes.txt" = Some (FBlob (bytesOf "keep")).
Proof.
  split; [vm_compute; reflexivity|].
  apply (other_entries_untouched Demo.helpers Demo.cfg2 Demo.env2
           MoreDemo.dirNotes MoreDemo.third.1 MoreDemo.third.2 "notes.txt").
  - apply surjective_pairing.
  - vm_compute. reflexivity.
  - discriminate.
  - discriminate.
  - reflexivity.
Defined.

Lemma panic_only_from_removeOld_witness :
  env_readDirOk (MoreDemo.unreadableDir Demo.env1) = false
  /\ exists c,
       instance c = 0%Z /\ entries c = []
       /\ trace MoreDemo.panicked.1
          = [EvMkdirAll; EvChownDir; EvWrite inprogress (FCache c)]
       /\ dir MoreDemo.panicked.1 = <[inprogress := FCache c]> ∅.
Proof.
  apply (panic_only_from_removeOld Demo.helpers Demo.cfg1
           (MoreDemo.unreadableDir Demo.env1) ∅ MoreDemo.panicked.1).
  vm_compute. reflexivity.
Defined.

Lemma next_increment_witness :
  instance MoreDemo.gen1 = 0%Z
  /\ exists s0 run,
       setup Demo.helpers Demo.cfg2 Demo.env2 Demo.dir1 = (s0, inr run)
       /\ existingSC run = Some MoreDemo.gen1
       /\ sc run = NewSignatureCache Demo.env2 1700000000 1
       /\ dir Demo.second.1 !! sigCache
          = Some (FCache (withEntries (sc run) (scRecs Demo.second.1)))
       /\ dir Demo.second.1 !! snapName run
          = Some (FSnapshot (mkSnapHeader "host" 1700000000 1 FormatVersion)
                    (snapRecs Demo.second.1))
       /\ (1 <> 0 ->
           forall n g, Demo.dir1 !! n = Some g ->
             n <> sigCache -> n <> inprogress -> n <> snapName run ->
             dir Demo.second.1 !! n = Some g)%Z.
Proof.
  split; [vm_compute; reflexivity|].
  apply (next_increment Demo.helpers Demo.cfg2 Demo.env2 Demo.dir1
           Demo.second.1 MoreDemo.gen1).
  - vm_compute. reflexivity.
  - vm_compute. reflexivity.
  - reflexivity.
  - vm_compute. discriminate.
Defined.

Lemma node_records_witness :
  (callback Demo.helpers Demo.cfg2 Demo.env2 Demo.run2 MoreDemo.rootEntry
     Demo.opened2).2 = None
  /\ snapRecs (callback Demo.helpers Demo.cfg2 Demo.env2 Demo.run2
                 MoreDemo.rootEntry Demo.opened2).1 = []
  /\ (scRecs (callback Demo.helpers Demo.cfg2 Demo.env2 Demo.run2
                MoreDemo.rootEntry Demo.opened2).1).*1 = ["/src"].
Proof.
  destruct (node_records Demo.helpers Demo.cfg2 Demo.env2 Demo.run2
              MoreDemo.rootEntry "/src"
              (mkAttribs Demo.modeDir 0 0 1700000000 0) Demo.opened2
              (callback Demo.helpers Demo.cfg2 Demo.env2 Demo.run2
                 MoreDemo.rootEntry Demo.opened2).1
              (callback Demo.helpers Demo.cfg2 Demo.env2 Demo.run2
                 MoreDemo.rootEntry Demo.opened2).2)
    as [Hok Hres].
  - unfold classified; split_and!; vm_compute; reflexivity.
  - vm_compute. reflexivity.
  - vm_compute. reflexivity.
  - reflexivity.
  - symmetry. apply surjective_pairing.
  - assert ((callback Demo.helpers Demo.cfg2 Demo.env2 Demo.run2
               MoreDemo.rootEntry Demo.opened2).2 = None) as Hnone
      by (vm_compute; reflexivity).
    destruct (Hres Hnone) as (Hsnap & Hsc & _).
    split; [exact Hnone|]. rewrite Hsnap, Hsc.
    split; vm_compute; reflexivity.
Defined.

Lemma new_regular_file_witness :
  snapRecs (callback Demo.helpers Demo.cfg2 Demo.env2 Demo.run2
              MoreDemo.newEntry Demo.opened2).1
  = [mkRecord
       (mkMetadata "/src/new.txt" (mkAttribs Demo.modeFile 0 0 1700000000 5))
       KFull RSource 5 (bytesOf "fresh")]
  /\ log (callback Demo.helpers Demo.cfg2 Demo.env2 Demo.run2
            MoreDemo.newEntry Demo.opened2).1
     = log Demo.opened2 ++ [LNewFile "/src/new.txt"].
Proof.
  destruct (new_regular_file Demo.helpers Demo.cfg2 Demo.env2 Demo.run2
              MoreDemo.newEntry "/src/new.txt"
              (mkAttribs Demo.modeFile 0 0 1700000000 5) (bytesOf "fresh") 5
              Demo.opened2
              (callback Demo.helpers Demo.cfg2 Demo.env2 Demo.run2
                 MoreDemo.newEntry Demo.opened2).1)
    as (Hsnap & _ & Hlog & _).
  - unfold classified; split_and!; vm_compute; reflexivity.
  - unfold plainMode; split_and!; vm_compute; reflexivity.
  - vm_compute. reflexivity.
  - reflexivity.
  - reflexivity.
  - vm_compute. reflexivity.
  - vm_compute. discriminate.
  - reflexivity.
  - vm_compute. reflexivity.
  - rewrite Hsnap, Hlog. split; [vm_compute; reflexivity | reflexivity].
Defined.

Lemma failed_run_snapshot_witness :
  MoreDemo.uncommitted.2 = Failed ERename
  /\ dir MoreDemo.uncommitted.1 !! sigCache = Demo.dir1 !! sigCache
  /\ exists s0 run,
       setup Demo.helpers Demo.cfg2 (MoreDemo.renameFails Demo.env2) Demo.dir1
       = (s0, inr run)
       /\ dir MoreDemo.uncommitted.1 !! snapName run
          = Some (FSnapshot (snapHdr run) (snapRecs MoreDemo.uncommitted.1))
       /\ EvClose (snapName run) true ∈ trace MoreDemo.uncommitted.1
       /\ dir MoreDemo.uncommitted.1 !! inprogress
          = Some (FCache (withEntries (sc run)
                            (scRecs MoreDemo.uncommitted.1))).
Proof.
  split; [vm_compute; reflexivity|]. split; [vm_compute; reflexivity|].
  apply (failed_run_snapshot Demo.helpers Demo.cfg2
           (MoreDemo.renameFails Demo.env2) Demo.dir1 MoreDemo.uncommitted.1
           ERename).
  vm_compute. reflexivity.
Defined.

(** A run in which [NewSnapshot] fails after the open: the file it left
    is in the directory when [backup] returns. *)
Lemma halfOpened_left :
  MoreDemo.halfOpened.2 = Failed ENewSnapshot
  /\ HasSuffix (snapName Demo.run2) ".gz.enc" = true
  /\ dir MoreDemo.halfOpened.1 !! snapName Demo.run2
     = Some (FBlob (bytesOf "hdr"))
  /\ last (trace MoreDemo.halfOpened.1)
     = Some (EvWrite (snapName Demo.run2) (FBlob (bytesOf "hdr"))).
Proof. split_and!; vm_compute; reflexivity. Qed.

Lemma no_litter_witness :
  exists s0 run,
    setup Demo.helpers Demo.cfg2 Demo.env2 Demo.dir1 = (s0, inr run)
    /\ dir Demo.second.1 !! inprogress = None
    /\ is_Some (dir Demo.second.1 !! sigCache)
    /\ is_Some (dir Demo.second.1 !! snapName run)
    /\ forall n, n <> sigCache -> n <> inprogress -> n <> snapName run ->
         (is_Some (dir Demo.second.1 !! n) <->
          is_Some (Demo.dir1 !! n)
          /\ (instance (sc run) =? 0)%Z && removed Demo.cfg2 Demo.env2 n
             = false).
Proof.
  apply (no_litter Demo.helpers Demo.cfg2 Demo.env2 Demo.dir1 Demo.second.1).
  - vm_compute. reflexivity.
  - intros n. reflexivity.
Defined.

(** * The agent's eviction sweep *)

Section AgentArith.
Import Agent.

Lemma filter_none {A} (P : A -> Prop) `{!forall x, Decision (P x)} l :
  Forall (fun x => ~ P x) l -> filter P l = [].
Proof.
  induction 1 as [|x l Hx _ IH]; [done|].
  rewrite filter_cons. by case_decide.
Qed.

Lemma filter_all {A} (P : A -> Prop) `{!forall x, Decision (P x)} l :
  Forall P l -> filter P l = l.
Proof.
  induction 1 as [|x l Hx _ IH]; [done|].
  rewrite filter_cons. case_decide; [by rewrite IH | done].
Qed.

Lemma wrap64_small z : (- 2 ^ 63 <= z < 2 ^ 63)%Z -> wrap64 z = z.
Proof.
  intros Hz. unfold wrap64. rewrite Z.mod_small by lia. lia.
Qed.

Lemma sizes_app a b : sizes (a ++ b) = (sizes a + sizes b)%Z.
Proof.
  induction a as [|f a IH]; simpl; [done|]. unfold sizes in *. lia.
Qed.

Lemma sizes_perm a b : a ≡ₚ b -> sizes a = sizes b.
Proof.
  induction 1; simpl; unfold sizes in *; simpl; lia.
Qed.

Lemma sizes_nonneg fs :
  Forall (fun f => (0 <= Size f)%Z) fs -> (0 <= sizes fs)%Z.
Proof.
  induction 1; simpl; unfold sizes in *; simpl; lia.
Qed.

Lemma older_perm a b t : a ≡ₚ b -> older a t = older b t.
Proof.
  intros Hp. unfold older. apply sizes_perm. by rewrite Hp.
Qed.

Lemma older_mono fs t t' :
  Forall (fun f => (0 <= Size f)%Z) fs -> (t <= t')%Z ->
  (older fs t <= older fs t')%Z.
Proof.
  intros Hs Ht. unfold older.
  induction Hs as [|f fs Hf _ IH]; [done|].
  rewrite !filter_cons.
  repeat case_decide; unfold sizes in *; simpl; lia.
Qed.

Lemma older_split pre l t :
  Forall (fun f => (Timestamp f < t)%Z) pre ->
  Forall (fun f => (t <= Timestamp f)%Z) l ->
  older (pre ++ l) t = sizes pre.
Proof.
  intros Hp Hl. unfold older. rewrite filter_app.
  rewrite filter_all by done. rewrite filter_none; [by rewrite app_nil_r|].
  eapply Forall_impl; [exact Hl|]. simpl. lia.
Qed.

End AgentArith.

Section AgentScan.
Import Agent.
Context (L : Lib).

Lemma visit_removes e s : removes (visit L e s).1 = removes s.
Proof.
  unfold visit. destruct (walkErr e), (ctxErr e); try done.
  destruct (stat e) as [[[] size]|]; try done. simpl.
  repeat case_match; done.
Qed.

Lemma visit_announced e s : announced (visit L e s).1 = announced s.
Proof.
  unfold visit, announced. destruct (walkErr e), (ctxErr e); try done.
  destruct (stat e) as [[[] size]|]; simpl; try done;
    repeat case_match; simpl; rewrite ?omap_app, ?app_nil_r; done.
Qed.

Lemma visit_files e s f :
  f ∈ files (visit L e s).1 -> f ∈ files s \/ collect L e = Some f.
Proof.
  unfold visit, collect. destruct (walkErr e), (ctxErr e); auto.
  destruct (stat e) as [[[] size]|]; simpl; auto.
  destruct (HasSuffix _ _); simpl; [|destruct (negb _); auto].
  destruct (_ <? _)%nat; simpl; auto.
  destruct (genTimestamp _ _); simpl; auto.
  rewrite elem_of_app, list_elem_of_singleton. intros [? | ->]; auto.
Qed.

Lemma visit_clean e s :
  clean e -> (0 <= totalSize s)%Z -> (0 <= regularSize e)%Z ->
  (totalSize s + regularSize e < 2 ^ 63)%Z ->
  exists s', visit L e s = (s', None)
    /\ totalSize s' = (totalSize s + regularSize e)%Z
    /\ deletedSize s' = deletedSize s
    /\ files s' = files s ++ option_list (collect L e).
Proof.
  intros (Hw & Hc & [st Hst]) H0 H1 H2. revert H1 H2.
  unfold visit, collect, regularSize.
  rewrite Hw, Hc, Hst. destruct st as [[] size]; simpl; intros H1 H2.
  - eexists; split_and!; try done; rewrite ?app_nil_r; try done; simpl; lia.
  - assert (wrap64 (totalSize s + size) = (totalSize s + size)%Z) as Hwr
      by (apply wrap64_small; lia).
    destruct (HasSuffix _ _); simpl.
    + destruct (_ <? _)%nat; simpl.
      * eexists; split_and!; try done. by rewrite app_nil_r.
      * destruct (genTimestamp _ _); simpl.
        -- eexists; split_and!; done.
        -- eexists; split_and!; try done. by rewrite app_nil_r.
    + destruct (negb _); eexists; split_and!; try done;
        by rewrite app_nil_r.
  - eexists; split_and!; try done; rewrite ?app_nil_r; try done; simpl; lia.
Qed.

Lemma regularSizes_nonneg es :
  Forall (fun e => (0 <= regularSize e)%Z) es -> (0 <= regularSizes es)%Z.
Proof. induction 1; simpl; unfold regularSizes in *; simpl; lia. Qed.

Lemma scan_removes es s : removes (scan L es s).1 = removes s.
Proof.
  revert s. induction es as [|e es IH]; intros s; [done|]. simpl.
  pose proof (visit_removes e s) as Hv.
  destruct (visit L e s) as [s' [err|]]; simpl in *; [done|].
  by rewrite IH.
Qed.

Lemma scan_announced es s : announced (scan L es s).1 = announced s.
Proof.
  revert s. induction es as [|e es IH]; intros s; [done|]. simpl.
  pose proof (visit_announced e s) as Hv.
  destruct (visit L e s) as [s' [err|]]; simpl in *; [done|].
  by rewrite IH.
Qed.

Lemma scan_files es s f :
  f ∈ files (scan L es s).1 ->
  f ∈ files s \/ exists e, e ∈ es /\ collect L e = Some f.
Proof.
  revert s. induction es as [|e es IH]; intros s; [by left|]. simpl.
  pose proof (visit_files e s f) as Hv.
  destruct (visit L e s) as [s' [err|]]; simpl in *.
  - intros [?|?]%Hv; [by left|]. right. exists e. split; [left|done].
  - intros [H|(e' & He' & Hc)]%IH; [apply Hv in H as [?|?]; [by left|]|].
    + right. exists e. split; [left|done].
    + right. exists e'. split; [by right|done].
Qed.

Lemma scan_clean es s :
  Forall clean es -> Forall (fun e => (0 <= regularSize e)%Z) es ->
  (0 <= totalSize s)%Z -> (totalSize s + regularSizes es < 2 ^ 63)%Z ->
  exists s', scan L es s = (s', None)
    /\ totalSize s' = (totalSize s + regularSizes es)%Z
    /\ deletedSize s' = deletedSize s
    /\ files s' = files s ++ omap (collect L) es.
Proof.
  intros Hc. revert s. induction Hc as [|e es He _ IH]; intros s Hs H0 H1.
  - exists s. simpl. split_and!; try done; [lia | by rewrite app_nil_r].
  - apply Forall_cons in Hs as [Hse Hs].
    pose proof (regularSizes_nonneg es Hs) as Hn.
    change (regularSizes (e :: es)) with (regularSize e + regularSizes es)%Z
      in *.
    destruct (visit_clean e s He H0 Hse) as (s1 & Hv & Ht & Hd & Hf); [lia|].
    destruct (IH s1 Hs) as (s' & Hsc & Ht' & Hd' & Hf'); [lia..|].
    exists s'. simpl. rewrite Hv. split_and!; [done|lia|congruence|].
    rewrite Hf', Hf, <- app_assoc. f_equal.
    by destruct (collect L e).
Qed.

Lemma scan_abort es1 e es2 s :
  Forall clean es1 -> ~ clean e ->
  exists s', scan L (es1 ++ e :: es2) s = (s', Some (firstError e)).
Proof.
  intros Hc Hn. revert s. induction Hc as [|e1 es1 He _ IH]; intros s.
  - simpl. unfold visit, firstError, clean in *.
    destruct (walkErr e); [by eexists|].
    destruct (ctxErr e); [by eexists|].
    destruct (stat e); [|by eexists].
    exfalso. apply Hn. by split_and!.
  - simpl. destruct He as (Hw & Hx & [st Hst]).
    assert (exists s1, visit L e1 s = (s1, None)) as [s1 ->]; [|apply IH].
    unfold visit. rewrite Hw, Hx, Hst. destruct st as [[] size]; simpl;
      repeat case_match; by eexists.
Qed.

End AgentScan.

Section AgentSweep.
Import Agent.
Context (env : Oracle) (maxSize : Z).

Lemma announced_logm m s :
  announced (logm m s)
  = announced s ++ match m with MDeleting p _ _ => [p] | _ => [] end.
Proof. unfold announced, logm. simpl. rewrite omap_app. by destruct m. Qed.

Lemma removes_logm m s : removes (logm m s) = removes s.
Proof. reflexivity. Qed.

Lemma totalSize_logm m s : totalSize (logm m s) = totalSize s.
Proof. reflexivity. Qed.

Lemma deletedSize_logm m s : deletedSize (logm m s) = deletedSize s.
Proof. reflexivity. Qed.

Lemma sweep_files dryRun i l cur s :
  files (sweep env maxSize dryRun i l cur s) = files s.
Proof.
  revert i cur s. induction l as [|f l IH]; intros i cur s; [done|]. simpl.
  destruct (ctxAt env i); [done|].
  destruct (negb _); [destruct (_ <=? _)%Z; [done|]|];
    (destruct dryRun; [|destruct (rmFails env _)]); by rewrite IH.
Qed.

Lemma sweep_dry i l cur s :
  removes (sweep env maxSize true i l cur s) = removes s.
Proof.
  revert i cur s. induction l as [|f l IH]; intros i cur s; [done|]. simpl.
  destruct (ctxAt env i); [done|].
  destruct (negb _); [destruct (_ <=? _)%Z; [done|]|]; by rewrite IH.
Qed.

Lemma sweep_removes dryRun i l cur s r :
  r ∈ removes (sweep env maxSize dryRun i l cur s) ->
  r ∈ removes s \/ r.1 ∈ map Path l.
Proof.
  revert i cur s. induction l as [|f l IH]; intros i cur s; [by left|]. simpl.
  destruct (ctxAt env i); [by left|].
  assert (forall i cur' s',
            (r ∈ removes s' -> r ∈ removes s \/ r.1 = Path f) ->
            r ∈ removes (sweep env maxSize dryRun i l cur' s') ->
            r ∈ removes s \/ r.1 ∈ Path f :: map Path l) as Hgo.
  { intros i' cur' s' Hs' [Hr|Hr]%IH.
    - destruct (Hs' Hr) as [?|Hp]; [by left|].
      right. rewrite Hp. apply elem_of_cons. by left.
    - right. apply elem_of_cons. by right. }
  assert (forall ok, r ∈ removes s ++ [(Path f, ok)] ->
            r ∈ removes s \/ r.1 = Path f) as Hsnoc.
  { intros ok [?|Hr]%elem_of_app; [by left|].
    apply list_elem_of_singleton in Hr as ->. by right. }
  destruct (negb _); [destruct (_ <=? _)%Z; [by left|]|];
    (destruct dryRun; [|destruct (rmFails env _)]);
    (apply Hgo; simpl; eauto).
Qed.

(** The loop over a sorted list, when the context stays live and every
    removal succeeds: it accounts for exactly the files whose group starts
    above the limit. *)
Lemma sweep_run dryRun total all :
  calm env ->
  Forall (fun f => (0 <= Size f)%Z) all ->
  (sizes all <= total < 2 ^ 63)%Z ->
  forall l pre cur s i,
    all = pre ++ l ->
    StronglySorted (fun a b => (Timestamp a <= Timestamp b)%Z) l ->
    Forall (fun f => (Timestamp f <= cur)%Z) pre ->
    Forall (fun f => (cur <= Timestamp f)%Z) l ->
    (maxSize < total - older all cur)%Z ->
    totalSize s = (total - sizes pre)%Z ->
    deletedSize s = sizes pre ->
    let s' := sweep env maxSize dryRun i l cur s in
    let gone := filter (fun f => over total maxSize all f) l in
    announced s' = announced s ++ map Path gone
    /\ removes s' = removes s ++
         (if dryRun then [] else map (fun f => (Path f, true)) gone)
    /\ totalSize s' = (total - sizes pre - sizes gone)%Z
    /\ deletedSize s' = (sizes pre + sizes gone)%Z
    /\ ((totalSize s' <= maxSize)%Z \/ gone = l).
Proof.
  intros [Hctx Hrm] Hsz Htot l.
  induction l as [|f l IH]; intros pre cur s i Hall Hsort Hpre Hl Hcur Ht Hd.
  { simpl. rewrite !app_nil_r. destruct dryRun; rewrite ?app_nil_r;
      split_and!; try done; try lia; by right. }
  cbn zeta. simpl sweep. rewrite Hctx.
  apply StronglySorted_inv in Hsort as [Hsort Hfl].
  apply Forall_cons in Hl as [Hcf Hl].
  assert (Forall (fun g => (0 <= Size g)%Z) pre /\ (0 <= Size f)%Z
          /\ Forall (fun g => (0 <= Size g)%Z) l) as (Hsp & Hsf & Hsl).
  { subst all. apply Forall_app in Hsz as [? [? ?]%Forall_cons]. done. }
  pose proof (sizes_nonneg _ Hsp) as Hnp. pose proof (sizes_nonneg _ Hsl) as Hnl.
  assert (sizes all = sizes pre + (Size f + sizes l))%Z as Hsall.
  { subst all. by rewrite sizes_app. }
  (* what happens once [f] is taken: the loop goes on with [f]'s instant *)
  assert (over total maxSize all f ->
          let s1 := if dryRun
            then account f (logm (MDeleting (Path f) (Size f) true) s)
            else account f (remove (Path f) true
                   (logm (MDeleting (Path f) (Size f) false) s)) in
          let s' := sweep env maxSize dryRun (S i) l (Timestamp f) s1 in
          let gone := filter (fun f => over total maxSize all f) (f :: l) in
          announced s' = announced s ++ map Path gone
          /\ removes s' = removes s ++
               (if dryRun then [] else map (fun f => (Path f, true)) gone)
          /\ totalSize s' = (total - sizes pre - sizes gone)%Z
          /\ deletedSize s' = (sizes pre + sizes gone)%Z
          /\ ((totalSize s' <= maxSize)%Z \/ gone = f :: l)) as Htake.
  { intros Hov. cbn zeta. rewrite filter_cons_True by done.
    assert (wrap64 (totalSize s - Size f) = total - sizes (pre ++ [f]))%Z
      as Hw1.
    { rewrite sizes_app. simpl. rewrite wrap64_small; lia. }
    assert (wrap64 (deletedSize s + Size f) = sizes (pre ++ [f]))%Z as Hw2.
    { rewrite sizes_app. simpl. rewrite wrap64_small; lia. }
    set (s1 := if dryRun
            then account f (logm (MDeleting (Path f) (Size f) true) s)
            else account f (remove (Path f) true
                   (logm (MDeleting (Path f) (Size f) false) s))).
    assert (totalSize s1 = (total - sizes (pre ++ [f]))%Z) as Ht1
      by (subst s1; destruct dryRun; exact Hw1).
    assert (deletedSize s1 = sizes (pre ++ [f])) as Hd1
      by (subst s1; destruct dryRun; exact Hw2).
    assert (announced s1 = announced s ++ [Path f]) as Ha1.
    { subst s1. destruct dryRun; unfold account, remove, announced; simpl;
        by rewrite omap_app. }
    assert (removes s1 = removes s ++
              (if dryRun then [] else [(Path f, true)])) as Hr1.
    { subst s1. destruct dryRun; simpl; by rewrite ?app_nil_r. }
    destruct (IH (pre ++ [f]) (Timestamp f) s1 (S i))
      as (Ha & Hr & Ht' & Hd' & Hq).
    - by rewrite <- app_assoc.
    - done.
    - apply Forall_app. split; [|by apply Forall_singleton].
      eapply Forall_impl; [exact Hpre|]. simpl. lia.
    - exact Hfl.
    - apply Z.ltb_lt, Is_true_true. exact Hov.
    - exact Ht1.
    - exact Hd1.
    - rewrite Ha, Hr, Ht', Hd', Ha1, Hr1. rewrite sizes_app. simpl.
      split_and!.
      + by rewrite <- app_assoc.
      + destruct dryRun; simpl; by rewrite <- app_assoc.
      + lia.
      + lia.
      + destruct Hq as [Hq|Hq]; [left|right; by rewrite Hq].
        revert Hq. rewrite Ht', sizes_app. simpl. lia. }
  destruct (Z.eqb_spec cur (Timestamp f)) as [Heq|Hne]; simpl.
  - (* still in the group of [cur] *)
    assert (over total maxSize all f) as Hov.
    { apply Is_true_true, Z.ltb_lt. by rewrite <- Heq. }
    specialize (Htake Hov). cbn zeta in Htake. rewrite Heq.
    destruct dryRun; [exact Htake|]. rewrite Hrm. exact Htake.
  - (* a new group starts: everything before is older *)
    assert (older all (Timestamp f) = sizes pre) as Hold.
    { subst all. apply older_split.
      - eapply Forall_impl; [exact Hpre|]. simpl. lia.
      - apply Forall_cons. split; [lia|exact Hfl]. }
    destruct (Z.leb_spec (totalSize s) maxSize) as [Hle|Hgt].
    + (* under the limit: break *)
      assert (filter (fun f => over total maxSize all f) (f :: l) = [])
        as ->.
      { apply filter_none. apply Forall_cons. 
        assert (forall g, (Timestamp f <= Timestamp g)%Z ->
                  ~ over total maxSize all g) as Hno.
        { intros g Hg Hov. apply Is_true_true, Z.ltb_lt in Hov.
          pose proof (older_mono all _ _ Hsz Hg). lia. }
        split; [apply Hno; lia|].
        eapply Forall_impl; [exact Hfl|]. exact Hno. }
      simpl. rewrite !app_nil_r. destruct dryRun; rewrite ?app_nil_r;
        split_and!; try done; try lia; by left.
    + assert (over total maxSize all f) as Hov.
      { apply Is_true_true, Z.ltb_lt. lia. }
      specialize (Htake Hov). cbn zeta in Htake.
      destruct dryRun; [exact Htake|]. rewrite Hrm. exact Htake.
Qed.

End AgentSweep.

Section AgentCleanup.
Import Agent.
Context (L : Lib).

Lemma collect_size e f :
  collect L e = Some f -> Size f = regularSize e /\ Path f = srcPath e.
Proof.
  unfold collect, regularSize. destruct (stat e) as [[[] size]|]; try done.
  destruct (_ && _); [|done].
  destruct (genTimestamp _ _); [|done]. simpl. by intros [= <-].
Qed.

Lemma sizes_collect es :
  Forall (fun e => (0 <= regularSize e)%Z) es ->
  Forall (fun f => (0 <= Size f)%Z) (omap (collect L) es)
  /\ (sizes (omap (collect L) es) <= regularSizes es)%Z.
Proof.
  induction 1 as [|e es He _ [IH1 IH2]]; [done|].
  change (regularSizes (e :: es)) with (regularSize e + regularSizes es)%Z.
  simpl. change (list_omap Node File (collect L) es)
    with (omap (collect L) es).
  destruct (collect L e) as [f|] eqn:Hc; [|split; [done|lia]].
  apply collect_size in Hc as [Hs _]. split.
  - apply Forall_cons. split; [lia|done].
  - change (sizes (f :: ?l)) with (Size f + sizes l)%Z. lia.
Qed.

Lemma sorts_sorted fs :
  sorts (Sort L) ->
  StronglySorted (fun a b => (Timestamp a <= Timestamp b)%Z) (Sort L fs).
Proof.
  intros Hs. destruct (Hs fs) as [_ Hsorted].
  induction Hsorted as [|f l _ IH Hf]; constructor; [exact IH|].
  eapply Forall_impl; [exact Hf|]. intros g. unfold Less. simpl.
  intros Hg%Z.ltb_ge. exact Hg.
Qed.

Lemma sorts_nil : sorts (Sort L) -> Sort L [] = [].
Proof. intros Hs. destruct (Hs []) as [Hp _]. by apply Permutation_nil_r. Qed.

Lemma over_perm total maxSize a b f :
  a ≡ₚ b -> over total maxSize a f = over total maxSize b f.
Proof. intros Hp. unfold over. by rewrite (older_perm a b _ Hp). Qed.

(** A whole run of [cleanup] over an undisturbed walk, with a live context
    and removals that succeed. *)
Lemma cleanup_run env es maxSize dryRun :
  sorts (Sort L) -> calm env ->
  Forall clean es ->
  Forall (fun e => (0 <= regularSize e)%Z) es ->
  (regularSizes es < 2 ^ 63)%Z ->
  (regularSizes es <= maxSize)%Z \/ omap (collect L) es <> [] ->
  let fs := omap (collect L) es in
  let total := regularSizes es in
  let gone := filter (fun f => over total maxSize fs f) (Sort L fs) in
  exists s,
    cleanup L env es maxSize dryRun = (s, Returned None)
    /\ announced s = map Path gone
    /\ removes s = (if dryRun then [] else map (fun f => (Path f, true)) gone)
    /\ totalSize s = (total - sizes gone)%Z
    /\ ((totalSize s <= maxSize)%Z \/ gone = Sort L fs).
Proof.
  intros Hsort Hcalm Hclean Hnn Hlt Hne fs total gone.
  destruct (sizes_collect es Hnn) as [Hfs Hle]. fold fs in Hfs, Hle.
  pose proof (regularSizes_nonneg es Hnn) as H0.
  destruct (scan_clean L es start Hclean Hnn) as (s0 & Hscan & Ht & Hd & Hf);
    [done|simpl; lia|].
  simpl in Ht, Hd, Hf. fold fs in Hf. fold total in Ht, H0, Hle, Hlt, Hne.
  pose proof (scan_removes L es start) as Hr0.
  pose proof (scan_announced L es start) as Ha0.
  rewrite Hscan in Hr0, Ha0. simpl in Hr0, Ha0.
  destruct (Hsort fs) as [Hperm _].
  pose proof (sorts_sorted fs Hsort) as Hsorted.
  assert (Forall (fun f => (0 <= Size f)%Z) (Sort L fs)) as Hfs'
    by (by rewrite Hperm).
  assert (totalSize s0 = total) as Ht0 by lia. clear Ht.
  unfold cleanup. rewrite Hscan. cbn zeta. simpl totalSize. simpl files.
  rewrite Ht0, Hf.
  destruct (Z.leb_spec total maxSize) as [Hunder|Hover].
  - (* within the limit: nothing is touched *)
    assert (gone = []) as Hg.
    { apply filter_none, Forall_forall. intros f _ Hov.
      apply Is_true_true, Z.ltb_lt in Hov.
      assert (0 <= older fs (Timestamp f))%Z; [|lia].
      apply sizes_nonneg. rewrite Forall_forall in Hfs |- *.
      intros g Hg%list_elem_of_filter. apply Hfs. tauto. }
    eexists. split; [reflexivity|]. rewrite Hg. simpl.
    rewrite announced_logm, Ha0, Hr0. simpl.
    split_and!; try done; [by destruct dryRun|lia|left; lia].
  - destruct Hne as [?|Hne]; [lia|].
    destruct (Sort L fs) as [|first rest] eqn:Hsfs.
    { exfalso. apply Hne. by apply Permutation_nil_r. }
    set (s1 := mkSt total 0 (first :: rest) _ _).
    pose proof (StronglySorted_inv Hsorted) as [_ Hhead].
    destruct (sweep_run env maxSize dryRun total (first :: rest) Hcalm Hfs')
      with (l := first :: rest) (pre := @nil File) (cur := Timestamp first)
           (s := s1) (i := 0%nat)
      as (Ha & Hr & Ht' & Hd' & Hq); try done.
    + rewrite (sizes_perm _ _ Hperm). lia.
    + apply Forall_cons. split; [lia|exact Hhead].
    + rewrite (older_split [] (first :: rest)); [simpl; lia|done|].
      apply Forall_cons. split; [lia|exact Hhead].
    + simpl. lia.
    + assert (filter (fun f => over total maxSize (first :: rest) f)
                (first :: rest) = gone) as Hgone.
      { subst gone. apply list_filter_iff. intros f.
        by rewrite (over_perm _ _ _ _ f Hperm). }
      rewrite Hgone in Ha, Hr, Ht', Hd', Hq.
      eexists. split; [reflexivity|].
      rewrite announced_logm, app_nil_r.
      change (removes (logm ?m ?s)) with (removes s).
      change (totalSize (logm ?m ?s)) with (totalSize s).
      rewrite Ha, Hr, Ht'.
      assert (announced s1 = []) as ->.
      { unfold s1, announced. simpl. rewrite omap_app.
        unfold announced in Ha0. by rewrite Ha0. }
      subst s1. simpl. rewrite Hr0. simpl.
      split_and!; try done; [lia|].
      destruct Hq as [Hq|Hq]; [left|by right].
      revert Hq. rewrite Ht'. simpl. lia.
Qed.

Lemma removed_ok (gone : list File) :
  omap (fun r : string * bool => if r.2 then Some r.1 else None)
    (map (fun f => (Path f, true)) gone) = map Path gone.
Proof. induction gone as [|f gone IH]; simpl; [done|]. f_equal. exact IH. Qed.

End AgentCleanup.

Section AgentTheorems.
Import Agent.
Context (L : Lib).

Lemma collect_paths es p :
  p ∈ map Path (omap (collect L) es) -> p ∈ map srcPath es.
Proof.
  intros (f & -> & (e & He & Hc)%list_elem_of_omap)%list_elem_of_fmap.
  apply collect_size in Hc as [_ ->]. apply list_elem_of_fmap. eauto.
Qed.

Lemma collect_nodup es :
  NoDup (map srcPath es) -> NoDup (map Path (omap (collect L) es)).
Proof.
  induction es as [|e es IH]; [done|]. intros [Hn Hd]%NoDup_cons. simpl.
  change (list_omap Node File (collect L) es) with (omap (collect L) es).
  destruct (collect L e) as [f|] eqn:Hc; [|auto].
  simpl. apply NoDup_cons. split; [|auto].
  apply collect_size in Hc as [_ ->]. intros Hin. apply Hn.
  by apply collect_paths.
Qed.

Lemma paths_inj (fs : list File) f g :
  NoDup (map Path fs) -> f ∈ fs -> g ∈ fs -> Path f = Path g -> f = g.
Proof.
  induction fs as [|h fs IH]; [by intros _ ?%elem_of_nil|].
  intros [Hn Hd]%NoDup_cons [->|Hf]%elem_of_cons [->|Hg]%elem_of_cons Hp;
    [done| | |by apply IH].
  - exfalso. apply Hn. rewrite Hp. apply list_elem_of_fmap. eauto.
  - exfalso. apply Hn. rewrite <- Hp. apply list_elem_of_fmap. eauto.
Qed.

Lemma gone_closed total maxSize (fs : list File) f g :
  sorts (Sort L) ->
  Forall (fun h => (0 <= Size h)%Z) fs -> NoDup (map Path fs) ->
  f ∈ fs -> g ∈ fs -> (Timestamp g <= Timestamp f)%Z ->
  Path f ∈ map Path (filter (fun h => over total maxSize fs h) (Sort L fs)) ->
  Path g ∈ map Path (filter (fun h => over total maxSize fs h) (Sort L fs)).
Proof.
  intros Hsort Hfs Hnd Hf Hg Hgf.
  destruct (Hsort fs) as [Hperm _].
  intros (f' & Hp & [Hov Hf']%list_elem_of_filter)%list_elem_of_fmap.
  rewrite Hperm in Hf'.
  assert (f' = f) as -> by (eapply paths_inj; eauto).
  apply list_elem_of_fmap. exists g. split; [done|].
  apply list_elem_of_filter. split; [|by rewrite Hperm].
  apply Is_true_true, Z.ltb_lt. apply Is_true_true, Z.ltb_lt in Hov.
  pose proof (older_mono _ _ _ Hfs Hgf). lia.
Qed.

Lemma sweep_order env maxSize dryRun l i cur s :
  (forall r, r ∈ removes s -> r.1 ∈ announced s) ->
  exists k,
    announced (sweep env maxSize dryRun i l cur s)
    = announced s ++ map Path (take k l)
    /\ forall r, r ∈ removes (sweep env maxSize dryRun i l cur s) ->
         r.1 ∈ announced (sweep env maxSize dryRun i l cur s).
Proof.
  revert i cur s. induction l as [|f l IH]; intros i cur s Hs.
  { exists 0%nat. simpl. by rewrite app_nil_r. }
  simpl. destruct (ctxAt env i).
  { exists 0%nat. simpl. by rewrite app_nil_r. }
  assert (forall cur' s1,
    announced s1 = announced s ++ [Path f] ->
    (forall r, r ∈ removes s1 -> r ∈ removes s \/ r.1 = Path f) ->
    exists k,
      announced (sweep env maxSize dryRun (S i) l cur' s1)
      = announced s ++ map Path (take k (f :: l))
      /\ forall r, r ∈ removes (sweep env maxSize dryRun (S i) l cur' s1) ->
           r.1 ∈ announced (sweep env maxSize dryRun (S i) l cur' s1)) as Hgo.
  { intros cur' s1 Ha Hr.
    destruct (IH (S i) cur' s1) as (k & Hk & Hin).
    - intros r [Hin|Hin]%Hr; rewrite Ha, elem_of_app;
        [left; by apply Hs | right; rewrite Hin; apply list_elem_of_here].
    - exists (S k). split; [|exact Hin].
      rewrite Hk, Ha, <- app_assoc. done. }
  assert (forall ok r, r ∈ removes s ++ [(Path f, ok)] ->
            r ∈ removes s \/ r.1 = Path f) as Hsnoc.
  { intros ok r [?|Hr]%elem_of_app; [by left|].
    apply list_elem_of_singleton in Hr as ->. by right. }
  destruct (negb _); [destruct (_ <=? _)%Z|].
  - exists 0%nat. simpl. by rewrite app_nil_r.
  - destruct dryRun; [|destruct (rmFails env _)]; apply Hgo;
      unfold account, remove, announced; simpl;
      rewrite ?omap_app, <- ?app_assoc; simpl; rewrite ?app_nil_r;
      eauto.
  - destruct dryRun; [|destruct (rmFails env _)]; apply Hgo;
      unfold account, remove, announced; simpl;
      rewrite ?omap_app, <- ?app_assoc; simpl; rewrite ?app_nil_r;
      eauto.
Qed.

Lemma sweep_dry_real env maxSize :
  (forall p, rmFails env p = false) ->
  forall l i cur sd sr,
    totalSize sd = totalSize sr -> deletedSize sd = deletedSize sr ->
    exists X,
      announced (sweep env maxSize true i l cur sd) = announced sd ++ X
      /\ announced (sweep env maxSize false i l cur sr) = announced sr ++ X
      /\ removes (sweep env maxSize false i l cur sr)
         = removes sr ++ map (fun p => (p, true)) X
      /\ totalSize (sweep env maxSize true i l cur sd)
         = totalSize (sweep env maxSize false i l cur sr)
      /\ deletedSize (sweep env maxSize true i l cur sd)
         = deletedSize (sweep env maxSize false i l cur sr).
Proof.
  intros Hrm l. induction l as [|f l IH]; intros i cur sd sr Ht Hd.
  { exists []. simpl. by rewrite !app_nil_r. }
  simpl. rewrite Hrm, <- Ht.
  destruct (ctxAt env i).
  { exists []. simpl. by rewrite !app_nil_r. }
  assert (forall cur',
    exists X,
      announced (sweep env maxSize true (S i) l cur'
        (account f (logm (MDeleting (Path f) (Size f) true) sd)))
        = announced sd ++ X
      /\ announced (sweep env maxSize false (S i) l cur'
          (account f (remove (Path f) true
            (logm (MDeleting (Path f) (Size f) false) sr))))
         = announced sr ++ X
      /\ removes (sweep env maxSize false (S i) l cur'
          (account f (remove (Path f) true
            (logm (MDeleting (Path f) (Size f) false) sr))))
         = removes sr ++ map (fun p => (p, true)) X
      /\ totalSize (sweep env maxSize true (S i) l cur'
          (account f (logm (MDeleting (Path f) (Size f) true) sd)))
         = totalSize (sweep env maxSize false (S i) l cur'
          (account f (remove (Path f) true
            (logm (MDeleting (Path f) (Size f) false) sr))))
      /\ deletedSize (sweep env maxSize true (S i) l cur'
          (account f (logm (MDeleting (Path f) (Size f) true) sd)))
         = deletedSize (sweep env maxSize false (S i) l cur'
          (account f (remove (Path f) true
            (logm (MDeleting (Path f) (Size f) false) sr))))) as Hgo.
  { intros cur'.
    edestruct (IH (S i) cur') as (X & Ha & Hb & Hr & Ht' & Hd').
    3:{ exists (Path f :: X). rewrite Ha, Hb, Hr, Ht', Hd'.
        unfold account, remove, announced. simpl. rewrite !omap_app. simpl.
        rewrite <- !app_assoc. done. }
    - simpl. by rewrite Ht.
    - simpl. by rewrite Hd. }
  destruct (negb _); [destruct (_ <=? _)%Z|]; try apply Hgo.
  exists []. simpl. by rewrite !app_nil_r.
Qed.

End AgentTheorems.

Section AgentNames.
Import Agent.

Lemma substring_0_0 s : String.substring 0 0 s = "".
Proof. by destruct s. Qed.

Lemma digitOf_digit d : (0 <= d <= 9)%Z -> digitOf (digit d) = Some d.
Proof.
  intros Hd.
  assert (d = 0 \/ d = 1 \/ d = 2 \/ d = 3 \/ d = 4 \/ d = 5 \/ d = 6
          \/ d = 7 \/ d = 8 \/ d = 9)%Z as Hc by lia.
  repeat (destruct Hc as [->|Hc]; [reflexivity|]). by subst.
Qed.

Lemma digit_unsigned d s :
  (0 <= d <= 9)%Z ->
  ParseInt (String (digit d) s)
  = match ParseUint (String (digit d) s) with
    | Some un => if (2 ^ 63 <=? un)%Z then None else Some un
    | None => None
    end.
Proof.
  intros Hd.
  assert (d = 0 \/ d = 1 \/ d = 2 \/ d = 3 \/ d = 4 \/ d = 5 \/ d = 6
          \/ d = 7 \/ d = 8 \/ d = 9)%Z as Hc by lia.
  repeat (destruct Hc as [->|Hc]; [reflexivity|]). by subst.
Qed.

Lemma ParseInt_2 a b :
  (0 <= a <= 9)%Z -> (0 <= b <= 9)%Z ->
  ParseInt (String (digit a) (String (digit b) "")) = Some (a * 10 + b)%Z.
Proof.
  intros Ha Hb. rewrite digit_unsigned by done.
  unfold ParseUint. cbn [digits].
  rewrite !digitOf_digit by done.
  replace (0 * 10 + a)%Z with a by lia.
  destruct (Z.ltb_spec (a * 10 + b) (2 ^ 64)); [|lia].
  destruct (Z.leb_spec (2 ^ 63) (a * 10 + b)); [lia|done].
Qed.

Lemma ParseInt_4 a b c d :
  (0 <= a <= 9)%Z -> (0 <= b <= 9)%Z -> (0 <= c <= 9)%Z -> (0 <= d <= 9)%Z ->
  ParseInt (String (digit a) (String (digit b)
             (String (digit c) (String (digit d) ""))))
  = Some (a * 1000 + b * 100 + c * 10 + d)%Z.
Proof.
  intros Ha Hb Hc Hd. rewrite digit_unsigned by done.
  unfold ParseUint. cbn [digits].
  rewrite !digitOf_digit by done.
  replace ((((0 * 10 + a) * 10 + b) * 10 + c) * 10 + d)%Z
    with (a * 1000 + b * 100 + c * 10 + d)%Z by lia.
  destruct (Z.ltb_spec (a * 1000 + b * 100 + c * 10 + d) (2 ^ 64)); [|lia].
  destruct (Z.leb_spec (2 ^ 63) (a * 1000 + b * 100 + c * 10 + d));
    [lia|done].
Qed.

Lemma genTimestamp_of_stem (L : Lib) (stem a : string) :
  String.length stem = 12%nat ->
  genTimestamp L (stem +:+ a) = genTimestamp L stem.
Proof.
  intros Hlen.
  do 12 (destruct stem as [|? stem]; [discriminate Hlen|]).
  destruct stem; [|discriminate Hlen].
  repeat change (String ?c ?x +:+ ?y) with (String c (x +:+ y)).
  change ("" +:+ a) with a.
  unfold genTimestamp.
  cbn [String.length Nat.ltb Nat.leb String.substring].
  by rewrite !substring_0_0.
Qed.

(** X8. [genTimestamp] reads the first twelve bytes of the name and
    nothing else: two names with the same twelve-byte stem get the same
    result, be it an instant or an error, and a name of fewer than
    twelve bytes gets an error. *)
Theorem genTimestamp_stem (L : Lib) (stem a b short : string) :
  String.length stem = 12%nat -> (String.length short < 12)%nat ->
  genTimestamp L (stem +:+ a) = genTimestamp L (stem +:+ b)
  /\ genTimestamp L short = None.
Proof.
  intros Hlen Hshort. split.
  - transitivity (genTimestamp L stem).
    + by apply genTimestamp_of_stem.
    + symmetry. by apply genTimestamp_of_stem.
  - unfold genTimestamp.
    by rewrite (proj2 (Nat.ltb_lt _ _) Hshort).
Qed.

(** X9. On a name that begins with twelve decimal digits [genTimestamp]
    succeeds, with the instant [time.Date] gives for the year, month, day,
    hour and minute the digits spell. *)
Theorem genTimestamp_digits (L : Lib)
    (y1 y2 y3 y4 m1 m2 d1 d2 h1 h2 n1 n2 : Z) (rest : string) :
  Forall (fun d => (0 <= d <= 9)%Z)
    [y1; y2; y3; y4; m1; m2; d1; d2; h1; h2; n1; n2] ->
  genTimestamp L
    (stamp [y1; y2; y3; y4; m1; m2; d1; d2; h1; h2; n1; n2] rest)
  = Some (Date L (y1 * 1000 + y2 * 100 + y3 * 10 + y4) (m1 * 10 + m2)
            (d1 * 10 + d2) (h1 * 10 + h2) (n1 * 10 + n2))%Z.
Proof.
  intros Hd.
  repeat (apply Forall_cons in Hd as [? Hd]).
  unfold genTimestamp.
  cbn [stamp String.length Nat.ltb Nat.leb String.substring].
  rewrite !substring_0_0.
  rewrite ParseInt_4 by done. rewrite !ParseInt_2 by done. reflexivity.
Qed.

End AgentNames.

Section AgentRuns.
Import Agent.
Context (L : Lib).

(** X1. Over an undisturbed walk, with a live context and removals that
    succeed, [cleanup] returns nil having removed, in the sorted order,
    exactly the collected files whose timestamp group begins above the
    limit: a file goes when the bytes of all regular files, less those of
    the collected files older than it, still exceed [maxSize]; the count
    left in [totalSize] is the total less the bytes removed. *)
Theorem cleanup_evicts_oldest_groups env es maxSize :
  sorts (Sort L) -> calm env ->
  Forall clean es ->
  Forall (fun e => (0 <= regularSize e)%Z) es ->
  (regularSizes es < 2 ^ 63)%Z ->
  (regularSizes es <= maxSize)%Z \/ omap (collect L) es <> [] ->
  exists s,
    cleanup L env es maxSize false = (s, Returned None)
    /\ removedPaths s
       = map Path (filter (fun f => over (regularSizes es) maxSize
                                      (omap (collect L) es) f)
                     (Sort L (omap (collect L) es)))
    /\ Forall (fun r => r.2 = true) (removes s)
    /\ totalSize s
       = (regularSizes es
          - sizes (filter (fun f => over (regularSizes es) maxSize
                                      (omap (collect L) es) f)
                     (Sort L (omap (collect L) es))))%Z.
Proof.
  intros Hsort Hcalm Hclean Hnn Hlt Hne.
  destruct (cleanup_run L env es maxSize false Hsort Hcalm Hclean Hnn Hlt Hne)
    as (s & Hrun & _ & Hr & Ht & _).
  exists s. split_and!; [done| |by rewrite Hr; apply Forall_fmap, Forall_true|done].
  unfold removedPaths. rewrite Hr. apply removed_ok.
Qed.

(** X2. In such a run, when the walk names every path once, removal is by
    whole groups and oldest first: if a collected file is removed, so is
    every collected file whose timestamp is not later. *)
Theorem cleanup_whole_groups env es maxSize s f g :
  sorts (Sort L) -> calm env ->
  Forall clean es ->
  Forall (fun e => (0 <= regularSize e)%Z) es ->
  (regularSizes es < 2 ^ 63)%Z ->
  NoDup (map srcPath es) ->
  cleanup L env es maxSize false = (s, Returned None) ->
  f ∈ omap (collect L) es -> g ∈ omap (collect L) es ->
  (Timestamp g <= Timestamp f)%Z ->
  Path f ∈ removedPaths s -> Path g ∈ removedPaths s.
Proof.
  intros Hsort Hcalm Hclean Hnn Hlt Hnd Hrun Hf Hg Hgf.
  destruct (cleanup_run L env es maxSize false Hsort Hcalm Hclean Hnn Hlt)
    as (s' & Hrun' & _ & Hr & _).
  { right. intros Hnil. rewrite Hnil in Hf. by apply elem_of_nil in Hf. }
  rewrite Hrun in Hrun'. injection Hrun' as <-.
  unfold removedPaths. rewrite Hr, removed_ok.
  destruct (sizes_collect L es Hnn) as [Hfs _].
  by apply gone_closed; [| |apply collect_nodup| | |].
Qed.

(** X3. Such a run ends with [totalSize] at or below [maxSize], or with
    every collected file removed: what stays above the limit is then held
    by files [cleanup] does not take for snapshots. *)
Theorem cleanup_reaches_limit env es maxSize :
  sorts (Sort L) -> calm env ->
  Forall clean es ->
  Forall (fun e => (0 <= regularSize e)%Z) es ->
  (regularSizes es < 2 ^ 63)%Z ->
  (regularSizes es <= maxSize)%Z \/ omap (collect L) es <> [] ->
  exists s,
    cleanup L env es maxSize false = (s, Returned None)
    /\ ((totalSize s <= maxSize)%Z
        \/ forall f, f ∈ omap (collect L) es -> Path f ∈ removedPaths s).
Proof.
  intros Hsort Hcalm Hclean Hnn Hlt Hne.
  destruct (cleanup_run L env es maxSize false Hsort Hcalm Hclean Hnn Hlt Hne)
    as (s & Hrun & _ & Hr & _ & Hq).
  exists s. split; [done|]. destruct Hq as [Hq|Hq]; [by left|right].
  intros f Hf. unfold removedPaths. rewrite Hr, removed_ok, Hq.
  apply list_elem_of_fmap. exists f. split; [done|].
  destruct (Hsort (omap (collect L) es)) as [Hperm _]. by rewrite Hperm.
Qed.

(** X4. When no removal fails, a dry run and a real run over the same walk
    end alike: the same outcome, the same files announced in the same
    order, the same [totalSize] and [deletedSize]; the dry run calls
    [os.Remove] on nothing, and the real run removes exactly what it
    announced. *)
Theorem cleanup_dry_run_agrees env es maxSize :
  (forall p, rmFails env p = false) ->
  (cleanup L env es maxSize true).2 = (cleanup L env es maxSize false).2
  /\ removes (cleanup L env es maxSize true).1 = []
  /\ announced (cleanup L env es maxSize true).1
     = announced (cleanup L env es maxSize false).1
  /\ removedPaths (cleanup L env es maxSize false).1
     = announced (cleanup L env es maxSize false).1
  /\ totalSize (cleanup L env es maxSize true).1
     = totalSize (cleanup L env es maxSize false).1
  /\ deletedSize (cleanup L env es maxSize true).1
     = deletedSize (cleanup L env es maxSize false).1.
Proof.
  intros Hrm. unfold cleanup.
  pose proof (scan_removes L es start) as Hr0.
  pose proof (scan_announced L es start) as Ha0.
  destruct (scan L es start) as [s0 [err|]]; simpl in Hr0, Ha0.
  { simpl. unfold removedPaths. rewrite Hr0, Ha0. done. }
  cbn zeta. simpl totalSize. simpl files.
  assert (announced (logm (MTotal (totalSize s0) maxSize) s0) = []) as Ha1
    by (by rewrite announced_logm, Ha0).
  destruct (_ <=? _)%Z.
  { cbn [fst snd]. unfold removedPaths.
    change (removes (logm ?m ?s)) with (removes s). rewrite Hr0, Ha1. done. }
  destruct (Sort L (files s0)) as [|first rest] eqn:Hs.
  { simpl. unfold removedPaths. simpl. rewrite Hr0. split_and!; done. }
  set (s1 := mkSt _ _ _ _ _).
  destruct (sweep_dry_real env maxSize Hrm (first :: rest) 0%nat
              (Timestamp first) s1 s1 eq_refl eq_refl)
    as (X & Ha & Hb & Hr & Ht & Hd).
  cbn [fst snd]. unfold removedPaths.
  rewrite !announced_logm, !app_nil_r.
  rewrite !removes_logm, !totalSize_logm, !deletedSize_logm.
  rewrite sweep_dry, Ha, Hb, Hr, Ht, Hd.
  assert (announced s1 = []) as -> by exact Ha1.
  assert (removes s1 = []) as -> by exact Hr0.
  simpl. split_and!; try done.
  clear. induction X as [|p X IH]; simpl; [done|]. f_equal. exact IH.
Qed.

(** X5. When the regular files of an undisturbed walk exceed [maxSize] and
    none of them is taken for a snapshot, [cleanup] panics on [files[0]]
    of the empty slice; nothing has been removed. *)
Theorem cleanup_panics_without_snapshots env es maxSize dryRun :
  sorts (Sort L) ->
  Forall clean es ->
  Forall (fun e => (0 <= regularSize e)%Z) es ->
  (regularSizes es < 2 ^ 63)%Z ->
  Forall (fun e => collect L e = None) es ->
  (maxSize < regularSizes es)%Z ->
  exists s, cleanup L env es maxSize dryRun = (s, IndexPanic)
            /\ removes s = [].
Proof.
  intros Hsort Hclean Hnn Hlt Hnone Hover.
  pose proof (regularSizes_nonneg es Hnn) as H0.
  destruct (scan_clean L es start Hclean Hnn) as (s0 & Hscan & Ht & _ & Hf);
    [done|simpl; lia|].
  simpl in Hf. assert (totalSize s0 = regularSizes es) as Ht0 by (simpl in Ht; lia).
  clear Ht.
  assert (omap (collect L) es = []) as Hnil.
  { clear -Hnone. induction Hnone as [|e es He _ IH]; [done|].
    simpl. rewrite He. exact IH. }
  pose proof (scan_removes L es start) as Hr0. rewrite Hscan in Hr0.
  unfold cleanup. rewrite Hscan. cbn zeta. simpl totalSize. simpl files.
  rewrite Ht0, Hf, Hnil, (sorts_nil L Hsort).
  destruct (Z.leb_spec (regularSizes es) maxSize); [lia|].
  eexists. split; [reflexivity|]. exact Hr0.
Qed.

(** X6. Whatever the walk, the context and the removals do, [cleanup] hands
    [os.Remove] only paths of walked regular files whose base name ends in
    [.gz.enc], is at least 21 bytes long and parses as a timestamp; so
    never a [sig.cache], and nothing at all in a dry run. *)
Theorem cleanup_removes_only_snapshots env es maxSize dryRun p ok :
  sorts (Sort L) ->
  (p, ok) ∈ removes (cleanup L env es maxSize dryRun).1 ->
  dryRun = false
  /\ Base L p <> "sig.cache"
  /\ exists e size,
       e ∈ es /\ srcPath e = p /\ stat e = Some (IsRegular, size)
       /\ HasSuffix (Base L p) ".gz.enc" = true
       /\ (21 <= String.length (Base L p))%nat
       /\ is_Some (genTimestamp L (Base L p)).
Proof.
  intros Hsort. unfold cleanup.
  pose proof (scan_removes L es start) as Hr0.
  pose proof (scan_files L es start) as Hf0.
  destruct (scan L es start) as [s0 [err|]]; simpl in Hr0, Hf0.
  { simpl. rewrite Hr0. by intros ?%elem_of_nil. }
  cbn zeta. simpl totalSize. simpl files.
  destruct (_ <=? _)%Z.
  { simpl. rewrite Hr0. by intros ?%elem_of_nil. }
  destruct (Hsort (files s0)) as [Hperm _].
  destruct (Sort L (files s0)) as [|first rest] eqn:Hs.
  { simpl. rewrite Hr0. by intros ?%elem_of_nil. }
  cbn [fst]. rewrite removes_logm.
  destruct dryRun.
  { rewrite sweep_dry. simpl. rewrite Hr0. by intros ?%elem_of_nil. }
  intros [Hin|Hin]%sweep_removes.
  { simpl in Hin. rewrite Hr0 in Hin. by apply elem_of_nil in Hin. }
  split; [done|].
  apply list_elem_of_fmap in Hin as (f & Hp & Hf). simpl in Hp.
  rewrite Hperm in Hf.
  destruct (Hf0 f Hf) as [Hnil|(e & He & Hc)]; [by apply elem_of_nil in Hnil|].
  pose proof (collect_size L e f Hc) as [_ Hpath].
  assert (srcPath e = p) as Hep by congruence.
  revert Hc. unfold collect.
  destruct (stat e) as [[[] size]|] eqn:Hst; try done.
  rewrite Hep.
  destruct (HasSuffix (Base L p) ".gz.enc") eqn:Hsuf; [|done].
  destruct (String.length (Base L p) <? 21)%nat eqn:Hlen; [done|].
  simpl. destruct (genTimestamp L (Base L p)) as [t|] eqn:Hg; [|done].
  intros _. split.
  - intros Heq. rewrite Heq in Hsuf. discriminate Hsuf.
  - exists e, size. split_and!; try done.
    apply Nat.ltb_ge in Hlen. exact Hlen.
Qed.

(** X7. When the walk reports an error, the context is done, or [os.Stat]
    fails at some node, [cleanup] returns that error at the first such
    node: nothing is announced and nothing removed, whatever was counted
    before. *)
Theorem cleanup_walk_error env es1 e es2 maxSize dryRun :
  Forall clean es1 -> ~ clean e ->
  exists s,
    cleanup L env (es1 ++ e :: es2) maxSize dryRun
    = (s, Returned (Some (firstError e)))
    /\ removes s = [] /\ announced s = [].
Proof.
  intros Hclean Hbad.
  destruct (scan_abort L es1 e es2 start Hclean Hbad) as [s Hscan].
  pose proof (scan_removes L (es1 ++ e :: es2) start) as Hr0.
  pose proof (scan_announced L (es1 ++ e :: es2) start) as Ha0.
  rewrite Hscan in Hr0, Ha0.
  exists s. unfold cleanup. rewrite Hscan. done.
Qed.

(** X20. Two walked files that [cleanup] takes for snapshots and whose
    base names begin with the same twelve bytes, the stamp of one
    generation, are removed together or not at all, on whichever hosts
    they lie. *)
Theorem cleanup_generation_together env es maxSize s e1 e2 f1 f2 stem a b :
  sorts (Sort L) -> calm env ->
  Forall clean es ->
  Forall (fun e => (0 <= regularSize e)%Z) es ->
  (regularSizes es < 2 ^ 63)%Z ->
  NoDup (map srcPath es) ->
  cleanup L env es maxSize false = (s, Returned None) ->
  e1 ∈ es -> e2 ∈ es ->
  collect L e1 = Some f1 -> collect L e2 = Some f2 ->
  String.length stem = 12%nat ->
  Base L (srcPath e1) = stem +:+ a -> Base L (srcPath e2) = stem +:+ b ->
  srcPath e1 ∈ removedPaths s <-> srcPath e2 ∈ removedPaths s.
Proof.
  intros Hsort Hcalm Hclean Hnn Hlt Hnd Hrun He1 He2 Hc1 Hc2 Hlen Hb1 Hb2.
  assert (f1 ∈ omap (collect L) es) as Hf1
    by (apply list_elem_of_omap; eauto).
  assert (f2 ∈ omap (collect L) es) as Hf2
    by (apply list_elem_of_omap; eauto).
  destruct (collect_size L e1 f1 Hc1) as [_ Hp1].
  destruct (collect_size L e2 f2 Hc2) as [_ Hp2].
  assert (Timestamp f1 = Timestamp f2) as Hts.
  { revert Hc1 Hc2. unfold collect.
    destruct (stat e1) as [[[] z1]|]; try done.
    destruct (stat e2) as [[[] z2]|]; try done.
    rewrite Hb1, Hb2, !(genTimestamp_of_stem L stem _ Hlen).
    destruct (_ && _); [|done]. destruct (_ && _); [|done].
    destruct (genTimestamp L stem); [|done]. simpl.
    by intros [= <-] [= <-]. }
  destruct (cleanup_run L env es maxSize false Hsort Hcalm Hclean Hnn Hlt)
    as (s' & Hrun' & _ & Hr & _).
  { right. intros Hnil. rewrite Hnil in Hf1. by apply elem_of_nil in Hf1. }
  rewrite Hrun in Hrun'. injection Hrun' as <-.
  unfold removedPaths. rewrite Hr, removed_ok, <- Hp1, <- Hp2.
  destruct (sizes_collect L es Hnn) as [Hfs _].
  pose proof (collect_nodup L es Hnd) as Hnd'.
  split; apply gone_closed; try done; lia.
Qed.

(** X21. Whatever the context and the removals do, [cleanup] works
    through the sorted slice from its start: the files it announces are,
    in order, an initial stretch of the slice as it leaves it, and
    [os.Remove] is called on announced files only. *)
Theorem cleanup_in_sorted_order env es maxSize dryRun :
  announced (cleanup L env es maxSize dryRun).1
    `prefix_of` map Path (files (cleanup L env es maxSize dryRun).1)
  /\ forall r, r ∈ removes (cleanup L env es maxSize dryRun).1 ->
       r.1 ∈ announced (cleanup L env es maxSize dryRun).1.
Proof.
  unfold cleanup.
  pose proof (scan_removes L es start) as Hr0.
  pose proof (scan_announced L es start) as Ha0.
  destruct (scan L es start) as [s0 [err|]]; simpl in Hr0, Ha0.
  { simpl. rewrite Hr0, Ha0. split; [apply prefix_nil|].
    by intros r ?%elem_of_nil. }
  cbn zeta. simpl totalSize. simpl files.
  destruct (_ <=? _)%Z.
  { cbn [fst]. rewrite announced_logm, removes_logm, Hr0, Ha0.
    split; [apply prefix_nil|]. by intros r ?%elem_of_nil. }
  assert (forall t d fl r,
            announced (mkSt t d fl r
                         (msgs (logm (MTotal (totalSize s0) maxSize) s0)))
            = []) as Hann.
  { intros t d fl r. unfold announced. simpl. rewrite omap_app.
    unfold announced in Ha0. by rewrite Ha0. }
  destruct (Sort L (files s0)) as [|first rest] eqn:Hs.
  { cbn [fst]. rewrite Hann. split; [apply prefix_nil|].
    simpl. rewrite Hr0. by intros r ?%elem_of_nil. }
  set (s1 := mkSt _ _ _ _ _).
  destruct (sweep_order env maxSize dryRun (first :: rest) 0%nat
              (Timestamp first) s1) as (k & Hk & Hin).
  { subst s1. simpl. rewrite Hr0. by intros r ?%elem_of_nil. }
  cbn [fst]. rewrite announced_logm, app_nil_r, removes_logm.
  change (files (logm ?m ?s)) with (files s). rewrite sweep_files.
  split; [|exact Hin].
  rewrite Hk. assert (announced s1 = []) as -> by apply Hann.
  change (files s1) with (first :: rest). rewrite app_nil_l.
  change (map Path) with (fmap (M := list) Path).
  rewrite fmap_take. apply prefix_take.
Qed.

End AgentRuns.

(** ** The agent on a storage tree *)

Lemma demo_sorts : Agent.sorts AgentDemo.sort.
Proof.
  intros fs. unfold AgentDemo.sort. split.
  - apply merge_sort_Permutation.
  - assert (Transitive (fun a b : Agent.File =>
              (Agent.Timestamp a <= Agent.Timestamp b)%Z))
      by (intros a b c; simpl; lia).
    assert (Total (fun a b : Agent.File =>
              (Agent.Timestamp a <= Agent.Timestamp b)%Z))
      by (intros a b; simpl; lia).
    pose proof (StronglySorted_merge_sort
                  (H := fun a b : Agent.File =>
                     decide (Agent.Timestamp a <= Agent.Timestamp b)%Z)
                  (fun a b : Agent.File =>
                     (Agent.Timestamp a <= Agent.Timestamp b)%Z) fs) as Hs.
    induction Hs as [|f l _ IH Hf]; constructor; [exact IH|].
    eapply Forall_impl; [exact Hf|]. intros g Hg. unfold Agent.Less.
    by apply Z.ltb_ge.
Qed.

Lemma demo_calm : Agent.calm AgentDemo.quiet.
Proof. by split. Qed.

Ltac demo_nodes :=
  repeat first
    [ apply Forall_nil_2
    | apply Forall_cons_2;
      [first [ unfold Agent.clean; split_and!;
               [reflexivity | reflexivity | by eexists]
             | vm_compute; congruence ]|] ].

Lemma demo_clean : Forall Agent.clean AgentDemo.storage.
Proof. unfold AgentDemo.storage. demo_nodes. Qed.

Lemma demo_sizes :
  Forall (fun e => (0 <= Agent.regularSize e)%Z) AgentDemo.storage.
Proof. unfold AgentDemo.storage. demo_nodes. Qed.

Lemma cleanup_evicts_oldest_groups_witness :
  Agent.regularSizes AgentDemo.storage = 335%Z
  /\ exists s,
       Agent.cleanup AgentDemo.lib AgentDemo.quiet AgentDemo.storage 200 false
       = (s, Agent.Returned None)
       /\ Agent.removedPaths s
          = ["/srv/a/202401010000-a-1.gz.enc";
             "/srv/a/202401010000-a-0.gz.enc";
             "/srv/b/202401010000-b-0.gz.enc"]
       /\ Agent.totalSize s = 145%Z.
Proof.
  split; [reflexivity|].
  destruct (cleanup_evicts_oldest_groups AgentDemo.lib AgentDemo.quiet
              AgentDemo.storage 200 demo_sorts demo_calm demo_clean
              demo_sizes)
    as (s & Hrun & Hrem & _ & Ht).
  - vm_compute. reflexivity.
  - right. vm_compute. discriminate.
  - exists s. split; [exact Hrun|]. rewrite Hrem, Ht.
    split; vm_compute; reflexivity.
Defined.

Lemma cleanup_whole_groups_witness :
  "/srv/a/202401010000-a-0.gz.enc"
  ∈ Agent.removedPaths
      (Agent.cleanup AgentDemo.lib AgentDemo.quiet AgentDemo.storage 200
         false).1.
Proof.
  apply (cleanup_whole_groups AgentDemo.lib AgentDemo.quiet AgentDemo.storage
           200 _
           (Agent.mkFile "/srv/b/202401010000-b-0.gz.enc"
              (AgentDemo.date 2024 1 1 0 0) 60)
           (Agent.mkFile "/srv/a/202401010000-a-0.gz.enc"
              (AgentDemo.date 2024 1 1 0 0) 100)
           demo_sorts demo_calm demo_clean demo_sizes).
  - vm_compute. reflexivity.
  - apply (bool_decide_unpack _). vm_compute. exact I.
  - vm_compute. reflexivity.
  - vm_compute. apply list_elem_of_In. simpl. tauto.
  - vm_compute. apply list_elem_of_In. simpl. tauto.
  - vm_compute. discriminate.
  - vm_compute. apply list_elem_of_In. simpl. tauto.
Defined.

Lemma cleanup_reaches_limit_witness :
  exists s,
    Agent.cleanup AgentDemo.lib AgentDemo.quiet AgentDemo.storage 200 false
    = (s, Agent.Returned None)
    /\ ((Agent.totalSize s <= 200)%Z
        \/ forall f, f ∈ omap (Agent.collect AgentDemo.lib) AgentDemo.storage ->
                     Agent.Path f ∈ Agent.removedPaths s).
Proof.
  apply (cleanup_reaches_limit AgentDemo.lib AgentDemo.quiet
           AgentDemo.storage 200 demo_sorts demo_calm demo_clean demo_sizes).
  - vm_compute. reflexivity.
  - right. vm_compute. discriminate.
Defined.

Lemma cleanup_dry_run_agrees_witness :
  Agent.removes
    (Agent.cleanup AgentDemo.lib AgentDemo.quiet AgentDemo.storage 200 true).1
  = []
  /\ Agent.announced
       (Agent.cleanup AgentDemo.lib AgentDemo.quiet AgentDemo.storage 200
          true).1
     = ["/srv/a/202401010000-a-1.gz.enc";
        "/srv/a/202401010000-a-0.gz.enc";
        "/srv/b/202401010000-b-0.gz.enc"]
  /\ Agent.removedPaths
       (Agent.cleanup AgentDemo.lib AgentDemo.quiet AgentDemo.storage 200
          false).1
     = ["/srv/a/202401010000-a-1.gz.enc";
        "/srv/a/202401010000-a-0.gz.enc";
        "/srv/b/202401010000-b-0.gz.enc"]
  /\ Agent.totalSize
       (Agent.cleanup AgentDemo.lib AgentDemo.quiet AgentDemo.storage 200
          true).1
     = 145%Z.
Proof.
  destruct (cleanup_dry_run_agrees AgentDemo.lib AgentDemo.quiet
              AgentDemo.storage 200 (fun _ => eq_refl))
    as (_ & Hnone & Hsame & Hreal & Ht & _).
  split; [exact Hnone|]. rewrite Hreal, Hsame, Ht.
  split_and!; vm_compute; reflexivity.
Defined.

Lemma cleanup_panics_without_snapshots_witness :
  Agent.regularSizes AgentDemo.clutter = 1200%Z
  /\ exists s,
       Agent.cleanup AgentDemo.lib AgentDemo.quiet AgentDemo.clutter 1000
         false = (s, Agent.IndexPanic)
       /\ Agent.removes s = [].
Proof.
  split; [reflexivity|].
  apply (cleanup_panics_without_snapshots AgentDemo.lib AgentDemo.quiet
           AgentDemo.clutter 1000 false demo_sorts).
  - unfold AgentDemo.clutter. demo_nodes.
  - unfold AgentDemo.clutter. demo_nodes.
  - vm_compute. reflexivity.
  - unfold AgentDemo.clutter. demo_nodes.
  - vm_compute. reflexivity.
Defined.

Lemma cleanup_removes_only_snapshots_witness :
  AgentDemo.base "" "/srv/a/202401010000-a-0.gz.enc"
  = "202401010000-a-0.gz.enc"
  /\ Agent.Base AgentDemo.lib "/srv/a/202401010000-a-0.gz.enc" <> "sig.cache"
  /\ exists e size,
       e ∈ AgentDemo.storage
       /\ Agent.srcPath e = "/srv/a/202401010000-a-0.gz.enc"
       /\ Agent.stat e = Some (Agent.IsRegular, size)
       /\ HasSuffix
            (Agent.Base AgentDemo.lib "/srv/a/202401010000-a-0.gz.enc")
            ".gz.enc" = true.
Proof.
  split; [vm_compute; reflexivity|].
  destruct (cleanup_removes_only_snapshots AgentDemo.lib AgentDemo.quiet
              AgentDemo.storage 200 false "/srv/a/202401010000-a-0.gz.enc"
              true demo_sorts)
    as (_ & Hsig & e & size & He & Hp & Hst & Hsuf & _).
  - apply (bool_decide_unpack _). vm_compute. exact I.
  - split; [exact Hsig|]. exists e, size. by split_and!.
Defined.

Lemma cleanup_walk_error_witness :
  exists s,
    Agent.cleanup AgentDemo.lib AgentDemo.quiet AgentDemo.broken 10 false
    = (s, Agent.Returned (Some Agent.WalkFailed))
    /\ Agent.removes s = [] /\ Agent.announced s = [].
Proof.
  apply (cleanup_walk_error AgentDemo.lib AgentDemo.quiet
           [AgentDemo.node "/srv" Agent.IsDir 4096;
            AgentDemo.node "/srv/a/202401010000-a-0.gz.enc" Agent.IsRegular
              100]
           (Agent.mkNode "/srv/b" true false None)
           [AgentDemo.node "/srv/b/202401010000-b-0.gz.enc" Agent.IsRegular
              60] 10 false).
  - demo_nodes.
  - intros [Hw _]. discriminate Hw.
Defined.

Lemma genTimestamp_stem_witness :
  Agent.genTimestamp AgentDemo.lib "202401010000-a-0.gz.enc"
  = Agent.genTimestamp AgentDemo.lib "202401010000-b-12.gz.enc"
  /\ Agent.genTimestamp AgentDemo.lib "x.gz.enc" = None.
Proof.
  apply (genTimestamp_stem AgentDemo.lib "202401010000" "-a-0.gz.enc"
           "-b-12.gz.enc" "x.gz.enc").
  - reflexivity.
  - vm_compute. lia.
Defined.

Lemma genTimestamp_digits_witness :
  Agent.stamp [2; 0; 2; 4; 0; 1; 0; 1; 0; 0; 0; 0]%Z "-a-0.gz.enc"
  = "202401010000-a-0.gz.enc"
  /\ Agent.genTimestamp AgentDemo.lib
       (Agent.stamp [2; 0; 2; 4; 0; 1; 0; 1; 0; 0; 0; 0]%Z "-a-0.gz.enc")
     = Some (AgentDemo.date 2024 1 1 0 0).
Proof.
  split; [reflexivity|].
  apply (genTimestamp_digits AgentDemo.lib 2 0 2 4 0 1 0 1 0 0 0 0
           "-a-0.gz.enc").
  repeat (apply Forall_cons_2; [lia|]). apply Forall_nil_2.
Defined.

Lemma cleanup_generation_together_witness :
  "/srv/a/202401010000-a-0.gz.enc"
    ∈ Agent.removedPaths
        (Agent.cleanup AgentDemo.lib AgentDemo.quiet AgentDemo.storage 200
           false).1
  <-> "/srv/b/202401010000-b-0.gz.enc"
        ∈ Agent.removedPaths
            (Agent.cleanup AgentDemo.lib AgentDemo.quiet AgentDemo.storage
               200 false).1.
Proof.
  apply (cleanup_generation_together AgentDemo.lib AgentDemo.quiet
           AgentDemo.storage 200 _
           (AgentDemo.node "/srv/a/202401010000-a-0.gz.enc" Agent.IsRegular
              100)
           (AgentDemo.node "/srv/b/202401010000-b-0.gz.enc" Agent.IsRegular
              60)
           (Agent.mkFile "/srv/a/202401010000-a-0.gz.enc"
              (AgentDemo.date 2024 1 1 0 0) 100)
           (Agent.mkFile "/srv/b/202401010000-b-0.gz.enc"
              (AgentDemo.date 2024 1 1 0 0) 60)
           "202401010000" "-a-0.gz.enc" "-b-0.gz.enc"
           demo_sorts demo_calm demo_clean demo_sizes).
  - vm_compute. reflexivity.
  - apply (bool_decide_unpack _). vm_compute. exact I.
  - vm_compute. reflexivity.
  - apply list_elem_of_In. simpl. tauto.
  - apply list_elem_of_In. simpl. tauto.
  - vm_compute. reflexivity.
  - vm_compute. reflexivity.
  - reflexivity.
  - vm_compute. reflexivity.
  - vm_compute. reflexivity.
Defined.
